(** * Sakhi front end: navigation, API client, voice screening, alternatives

    A shallow embedding of the JavaScript sources
      - [js/app.js]                      (class [App])
      - [frontend/js/api.js]             (class [APIClient])
      - [js/utils.js]                    (toast and loading helpers)
      - [js/components/voice.js]         ([VoiceComponent])
      - [js/components/notifications.js] ([NotificationsComponent],
                                          [AlternativesComponent])
      - the scanner component            ([OCRComponent])
    together with the fragment of the JavaScript run-time semantics these
    sources depend on (truthiness, numbers and their arithmetic, numeric
    comparison, [parseFloat], [Number::toString],
    [Number.prototype.toFixed], [Array.prototype.join], property lookup
    through [Object.prototype]).

    Conventions.
    - A JavaScript number is a double: a finite one is modelled by its
      exact rational value ([Q]), next to [-0], NaN and the two
      infinities. Arithmetic and the reading of numeric texts round the
      exact result to the nearest double, ties to even, as IEEE 754 has
      it. A [Fin q] whose [q] is not a double does not arise from these
      operations; a theorem that needs [q] to be a double says so.
    - An [async] function is modelled by the function of the outcomes of the
      promises it awaits; where overlapping invocations matter (the voice
      recorder) the function is cut at its [await] and driven by an explicit
      event list.
    - The DOM is a record with one field per element property the code
      reads or writes. An assignment to [style.width] of a text that is
      not a width in CSS leaves the property as it was. *)

From Stdlib Require Import ZArith QArith Qround Qabs Qpower String Ascii List Bool Lia Lqa.
From Stdlib Require Import DecimalString.
From stdpp Require Import base option list strings gmap.

Set Warnings "-register-all".

Local Open Scope string_scope.
Local Open Scope Z_scope.

(* ===================================================================== *)
(** * Part I: definitions                                                  *)
(* ===================================================================== *)

(** ** The JavaScript fragment *)

Module JS.

(** Numbers: a finite double by its exact value ([Fin 0] is [+0]), the
    negative zero, NaN, or an infinity. *)
Inductive number : Type :=
| NaN
| Fin (q : Q)
| NegZero
| PosInf
| NegInf.

(** Primitive values as they occur in fields of parsed JSON payloads;
    [VUndefined] is what reading an absent property gives. *)
Inductive jsval : Type :=
| VUndefined
| VNull
| VBool (b : bool)
| VNum (n : number)
| VStr (s : string).

Definition Qeqb0 (q : Q) : bool := Z.eqb (Qnum q) 0.

Definition Qltb (a b : Q) : bool := negb (Qle_bool b a).

(** ToBoolean. *)
Definition truthy (v : jsval) : bool :=
  match v with
  | VUndefined | VNull => false
  | VBool b => b
  | VNum NaN | VNum NegZero => false
  | VNum (Fin q) => negb (Qeqb0 q)
  | VNum _ => true
  | VStr s => negb (String.eqb s "")
  end.

(** [a || b]. *)
Definition or_else (a b : jsval) : jsval := if truthy a then a else b.

(** Decimal expansion of an integer. *)
Definition Zstr (z : Z) : string := NilZero.string_of_int (Z.to_int z).

(** *** The Number value for a real

    Every arithmetic result and every numeric text is rounded to the
    nearest double, to the one with an even significand when two are
    equally near; a magnitude that rounds to [2^1024] becomes an infinity
    and one that rounds to nothing a zero with the sign of the value. *)

Definition pow2 (e : Z) : Q := (2 ^ e)%Q.

(** The exponent [k] with [2^k <= a < 2^(k+1)], for a positive [a]. *)
Definition ilog2 (a : Q) : Z :=
  let k := Z.log2 (Qnum a) - Z.log2 (Zpos (Qden a)) in
  if Qle_bool (pow2 k) a then k else k - 1.

(** The nearest integer, the even one when two are equally near. *)
Definition round_half_even (x : Q) : Z :=
  let f := Qfloor x in
  match (x - inject_Z f ?= 1 # 2)%Q with
  | Lt => f
  | Gt => f + 1
  | Eq => if Z.even f then f else f + 1
  end.

(** The exponent of the last bit of the doubles around [a]: 53 bits of
    significand, and no exponent below that of the subnormal numbers. *)
Definition quantum (a : Q) : Z := Z.max (ilog2 a - 52) (-1074).

(** The multiple of [2^(quantum a)] nearest to a positive [a]. *)
Definition nearest (a : Q) : Q :=
  let e := quantum a in
  (inject_Z (round_half_even (a / pow2 e)) * pow2 e)%Q.

Definition Number_value (x : Q) : number :=
  match (x ?= 0)%Q with
  | Eq => Fin 0
  | Gt =>
      let v := nearest x in
      if Qle_bool (pow2 1024) v then PosInf else Fin (Qred v)
  | Lt =>
      let v := nearest (- x) in
      if Qle_bool (pow2 1024) v then NegInf
      else if Qeqb0 v then NegZero
      else Fin (Qred (- v))
  end.

(** *** Arithmetic *)

(** A number as the arithmetic operators tell it apart: NaN, a zero with
    its sign, a finite number other than zero, an infinity with its
    sign. *)
Inductive shape : Type :=
| SNaN
| SZero (negative : bool)
| SFinite (q : Q)
| SInf (negative : bool).

Definition shape_of (n : number) : shape :=
  match n with
  | NaN => SNaN
  | Fin q => if Qeqb0 q then SZero false else SFinite q
  | NegZero => SZero true
  | PosInf => SInf false
  | NegInf => SInf true
  end.

Definition zero (negative : bool) : number := if negative then NegZero else Fin 0.

Definition infinity (negative : bool) : number := if negative then NegInf else PosInf.

(** [a * b]. *)
Definition mul (a b : number) : number :=
  match shape_of a, shape_of b with
  | SNaN, _ | _, SNaN => NaN
  | SZero _, SInf _ | SInf _, SZero _ => NaN
  | SZero s, SZero t => zero (xorb s t)
  | SZero s, SFinite y | SFinite y, SZero s => zero (xorb s (Qltb y 0))
  | SInf s, SInf t => infinity (xorb s t)
  | SInf s, SFinite y | SFinite y, SInf s => infinity (xorb s (Qltb y 0))
  | SFinite x, SFinite y => Number_value (x * y)
  end.

(** [a / b]. *)
Definition div (a b : number) : number :=
  match shape_of a, shape_of b with
  | SNaN, _ | _, SNaN => NaN
  | SZero _, SZero _ | SInf _, SInf _ => NaN
  | SZero s, SFinite y => zero (xorb s (Qltb y 0))
  | SZero s, SInf t => zero (xorb s t)
  | SFinite x, SZero t => infinity (xorb (Qltb x 0) t)
  | SInf s, SZero t => infinity (xorb s t)
  | SInf s, SFinite y => infinity (xorb s (Qltb y 0))
  | SFinite x, SInf t => zero (xorb (Qltb x 0) t)
  | SFinite x, SFinite y => Number_value (x / y)
  end.

(** [a + b]. *)
Definition add (a b : number) : number :=
  match shape_of a, shape_of b with
  | SNaN, _ | _, SNaN => NaN
  | SInf s, SInf t => if Bool.eqb s t then infinity s else NaN
  | SInf s, _ | _, SInf s => infinity s
  | SZero s, SZero t => zero (s && t)
  | SZero _, SFinite y | SFinite y, SZero _ => Number_value y
  | SFinite x, SFinite y => Number_value (x + y)
  end.

(** [- a]. *)
Definition neg (a : number) : number :=
  match shape_of a with
  | SNaN => NaN
  | SZero s => zero (negb s)
  | SFinite x => Fin (- x)
  | SInf s => infinity (negb s)
  end.

(** [a - b]. *)
Definition sub (a b : number) : number := add a (neg b).

(** [Math.floor]. *)
Definition Math_floor (a : number) : number :=
  match a with
  | Fin x => Fin (inject_Z (Qfloor x))
  | other => other
  end.

(** [Math.round]: the nearest integer, the larger one on a tie; a
    negative number that rounds to zero gives the negative zero. *)
Definition Math_round (a : number) : number :=
  match a with
  | Fin x =>
      let r := Qfloor (x + (1 # 2)) in
      if (r =? 0) && Qltb x 0 then NegZero else Fin (inject_Z r)
  | other => other
  end.

(** *** Numeric literals in strings *)

Definition is_digit (c : ascii) : bool :=
  let n := nat_of_ascii c in (48 <=? n)%nat && (n <=? 57)%nat.

Definition digit_val (c : ascii) : Z := Z.of_nat (nat_of_ascii c) - 48.

(** White space and line terminators, for the one-byte code points. *)
Definition is_space (c : ascii) : bool :=
  let n := nat_of_ascii c in
  ((9 <=? n)%nat && (n <=? 13)%nat) || (n =? 32)%nat.

Fixpoint skip_space (l : list ascii) : list ascii :=
  match l with
  | c :: r => if is_space c then skip_space r else l
  | [] => []
  end.

(** Reads a maximal run of decimal digits: the accumulated value, the
    number of digits read, and the rest of the input. *)
Fixpoint take_digits (l : list ascii) (acc : Z) (n : nat) : Z * nat * list ascii :=
  match l with
  | c :: r => if is_digit c then take_digits r (10 * acc + digit_val c) (S n)
              else (acc, n, l)
  | [] => (acc, n, [])
  end.

(** [m * 10^e] as a reduced fraction. *)
Definition scale10 (m e : Z) : Q :=
  if 0 <=? e then inject_Z (m * 10 ^ e)
  else Qred (Qmake m (Z.to_pos (10 ^ (- e)))).

(** ExponentPart, when one is present and complete; otherwise exponent 0
    and nothing consumed. *)
Definition take_exponent (l : list ascii) : Z * list ascii :=
  match l with
  | c :: r =>
      if (Ascii.eqb c "e" || Ascii.eqb c "E")%bool then
        let '(sg, r1) :=
          match r with
          | "+"%char :: r' => (1, r')
          | "-"%char :: r' => (-1, r')
          | _ => (1, r)
          end in
        let '(e, n, r2) := take_digits r1 0 0 in
        match n with
        | O => (0, l)
        | S _ => (sg * e, r2)
        end
      else (0, l)
  | [] => (0, [])
  end.

(** The longest prefix that is a StrUnsignedDecimalLiteral other than
    [Infinity]: its mathematical value and the rest of the input. *)
Definition take_unsigned_decimal (l : list ascii) : option (Q * list ascii) :=
  let '(ip, ni, r1) := take_digits l 0 0 in
  let '(m, nf, r2) :=
    match r1 with
    | "."%char :: r =>
        let '(m, nf, r') := take_digits r ip 0 in
        match ni, nf with
        | O, O => (ip, O, r1)
        | _, _ => (m, nf, r')
        end
    | _ => (ip, O, r1)
    end in
  match ni, nf with
  | O, O => None
  | _, _ =>
      let '(e, r3) := take_exponent r2 in
      Some (scale10 m (e - Z.of_nat nf), r3)
  end.

Definition Infinity_chars : list ascii := list_ascii_of_string "Infinity".

Fixpoint strip_prefix (p l : list ascii) : option (list ascii) :=
  match p, l with
  | [], _ => Some l
  | a :: p', b :: l' => if Ascii.eqb a b then strip_prefix p' l' else None
  | _ :: _, [] => None
  end.

(** A StrDecimalLiteral as written: [Infinity] or digits, with the sign
    in front; for digits, the mathematical value of the unsigned part. *)
Inductive literal : Type :=
| Infinite (negative : bool)
| Decimal (negative : bool) (mv : Q).

(** The longest prefix that is a StrDecimalLiteral (optional sign). *)
Definition take_decimal (l : list ascii) : option (literal * list ascii) :=
  let '(negative, r) :=
    match l with
    | "+"%char :: r => (false, r)
    | "-"%char :: r => (true, r)
    | _ => (false, l)
    end in
  match strip_prefix Infinity_chars r with
  | Some r' => Some (Infinite negative, r')
  | None =>
      match take_unsigned_decimal r with
      | Some (q, r') => Some (Decimal negative q, r')
      | None => None
      end
  end.

(** The number a literal denotes: its value rounded to a double, a zero
    after a minus sign being the negative zero. *)
Definition literal_value (t : literal) : number :=
  match t with
  | Infinite negative => infinity negative
  | Decimal false mv => Number_value mv
  | Decimal true mv => if Qeqb0 mv then NegZero else Number_value (- mv)
  end.

(** The global [parseFloat]: leading white space is skipped, the longest
    decimal-literal prefix is read, anything after it is ignored. *)
Definition parseFloat (s : string) : number :=
  match take_decimal (skip_space (list_ascii_of_string s)) with
  | Some (t, _) => literal_value t
  | None => NaN
  end.

(** Value of a digit in a radix up to 16, when it is one. *)
Definition radix_digit (radix : Z) (c : ascii) : option Z :=
  let n := Z.of_nat (nat_of_ascii c) in
  let v := if (48 <=? n) && (n <=? 57) then n - 48
           else if (97 <=? n) && (n <=? 102) then n - 87
           else if (65 <=? n) && (n <=? 70) then n - 55
           else radix in
  if v <? radix then Some v else None.

Fixpoint take_radix (radix : Z) (l : list ascii) (acc : Z) (n : nat) : Z * nat * list ascii :=
  match l with
  | c :: r =>
      match radix_digit radix c with
      | Some v => take_radix radix r (radix * acc + v) (S n)
      | None => (acc, n, l)
      end
  | [] => (acc, n, [])
  end.

(** NonDecimalIntegerLiteral: [0x], [0o] or [0b] and at least one digit. *)
Definition take_non_decimal (l : list ascii) : option (number * list ascii) :=
  match l with
  | "0"%char :: c :: r =>
      let radix :=
        if (Ascii.eqb c "x" || Ascii.eqb c "X")%bool then 16
        else if (Ascii.eqb c "o" || Ascii.eqb c "O")%bool then 8
        else if (Ascii.eqb c "b" || Ascii.eqb c "B")%bool then 2
        else 0 in
      let '(v, n, r') := take_radix radix r 0 0 in
      match n with
      | O => None
      | S _ => Some (Number_value (inject_Z v), r')
      end
  | _ => None
  end.

(** StringToNumber: the whole trimmed string has to be one numeric
    literal; the empty string is [0]. *)
Definition stringToNumber (s : string) : number :=
  match skip_space (list_ascii_of_string s) with
  | [] => Fin 0
  | l =>
      match take_non_decimal l with
      | Some (n, r) => match skip_space r with [] => n | _ => NaN end
      | None =>
          match take_decimal l with
          | Some (t, r) => match skip_space r with [] => literal_value t | _ => NaN end
          | None => NaN
          end
      end
  end.

(** ToNumber on primitives. *)
Definition toNumber (v : jsval) : number :=
  match v with
  | VUndefined => NaN
  | VNull => Fin 0
  | VBool b => Fin (if b then 1 else 0)
  | VNum n => n
  | VStr s => stringToNumber s
  end.

Definition isNaN (n : number) : bool :=
  match n with NaN => true | _ => false end.

(** [a < b] on numbers: false as soon as one side is NaN; the two zeros
    compare equal. *)
Definition lt (a b : number) : bool :=
  match a, b with
  | NaN, _ | _, NaN => false
  | Fin x, Fin y => Qltb x y
  | Fin x, NegZero => Qltb x 0
  | NegZero, Fin y => Qltb 0 y
  | NegZero, NegZero => false
  | NegInf, NegInf => false
  | NegInf, _ => true
  | _, PosInf => match a with PosInf => false | _ => true end
  | _, _ => false
  end.

(** [a > b] is [b < a]. *)
Definition gt (a b : number) : bool := lt b a.

(** [v < k] for a primitive [v] against a numeric literal [k]: both sides
    are converted to numbers. *)
Definition lt_lit (v : jsval) (k : Z) : bool := lt (toNumber v) (Fin (inject_Z k)).

(** [v === 0]: a number that is one of the two zeros. *)
Definition is_zero (v : jsval) : bool :=
  match v with
  | VNum (Fin q) => Qeqb0 q
  | VNum NegZero => true
  | _ => false
  end.

(** *** Numbers as text *)

Definition pow10 (e : Z) : Q := (10 ^ e)%Q.

Fixpoint adjust10 (fuel : nat) (a : Q) (n : Z) : Z :=
  match fuel with
  | O => n
  | S f =>
      if Qltb a (pow10 (n - 1)) then adjust10 f a (n - 1)
      else if Qle_bool (pow10 n) a then adjust10 f a (n + 1)
      else n
  end.

(** The [n] with [10^(n-1) <= a < 10^n], for a positive double [a]: an
    estimate from the binary exponent, off by one at most, put right. *)
Definition magnitude10 (a : Q) : Z :=
  adjust10 16 a (ilog2 a * 30103 / 100000 + 1).

Definition same_double (x y : Q) : bool :=
  match Number_value x, Number_value y with
  | Fin a, Fin b => Qeq_bool a b
  | PosInf, PosInf => true
  | _, _ => false
  end.

(** The digits of [Number::toString]: the least [k] and a [k]-digit [s]
    such that [s * 10^(n-k)] reads back as the double [a]; of two such
    [s], the one nearer to [a]. Seventeen digits always suffice. *)
Fixpoint shortest (fuel : nat) (k : Z) (a : Q) (n : Z) : Z * Z :=
  match fuel with
  | O => (Qfloor (a / pow10 (n - k)), k)
  | S f =>
      let p := pow10 (n - k) in
      let lo := Qfloor (a / p) in
      let hi := lo + 1 in
      let ok c := same_double (inject_Z c * p) a in
      match ok lo, ok hi with
      | true, true =>
          match (a - inject_Z lo * p ?= inject_Z hi * p - a)%Q with
          | Lt => (lo, k)
          | Gt => (hi, k)
          | Eq => (if Z.even lo then lo else hi, k)
          end
      | true, false => (lo, k)
      | false, true => (hi, k)
      | false, false => shortest f (k + 1) a n
      end
  end.

Fixpoint zeros (n : nat) : string :=
  match n with
  | O => ""
  | S m => String "0" (zeros m)
  end.

(** [Number::toString] on a positive double. *)
Definition positive_toString (a : Q) : string :=
  let n0 := magnitude10 a in
  let '(s0, k0) := shortest 17 1 a n0 in
  let '(s, k, n) := if s0 =? 10 ^ k0 then (1, 1, n0 + 1) else (s0, k0, n0) in
  let digits := Zstr s in
  if (k <=? n) && (n <=? 21) then digits ++ zeros (Z.to_nat (n - k))
  else if (0 <? n) && (n <=? 21) then
    substring 0 (Z.to_nat n) digits ++ "." ++
    substring (Z.to_nat n) (Z.to_nat (k - n)) digits
  else if (-6 <? n) && (n <=? 0) then "0." ++ zeros (Z.to_nat (- n)) ++ digits
  else
    let e := n - 1 in
    let exponent := (if e <? 0 then "-" else "+") ++ Zstr (Z.abs e) in
    if k =? 1 then digits ++ "e" ++ exponent
    else substring 0 1 digits ++ "." ++
         substring 1 (Z.to_nat (k - 1)) digits ++ "e" ++ exponent.

(** [Number::toString], radix 10. *)
Definition Number_toString (x : number) : string :=
  match x with
  | NaN => "NaN"
  | NegZero => "0"
  | PosInf => "Infinity"
  | NegInf => "-Infinity"
  | Fin q =>
      match Number_value q with
      | Fin d =>
          if Qeqb0 d then "0"
          else (if Qltb d 0 then "-" else "") ++ positive_toString (Qabs d)
      | NaN => "NaN"
      | NegZero => "0"
      | PosInf => "Infinity"
      | NegInf => "-Infinity"
      end
  end.

(** ToString on primitives, as a template literal applies it. *)
Definition toString (v : jsval) : string :=
  match v with
  | VUndefined => "undefined"
  | VNull => "null"
  | VBool true => "true"
  | VBool false => "false"
  | VNum n => Number_toString n
  | VStr s => s
  end.

(** [Number.prototype.toFixed(1)]: for a magnitude below 10^21 the tenth
    nearest to [x] (the larger on a tie, taken on the magnitude), written
    with a sign, its integer digits, a point and one digit; otherwise the
    text [Number::toString] gives. *)
Definition tenths (x : Q) : Z := Qfloor (Qabs x * inject_Z 10 + (1 # 2)).

Definition toFixed1 (x : number) : string :=
  match x with
  | Fin q =>
      if Qle_bool (inject_Z (10 ^ 21)) (Qabs q) then Number_toString x
      else
        let n := tenths q in
        (if Qltb q 0 then "-" else "") ++ Zstr (n / 10) ++ "." ++ Zstr (n mod 10)
  | NegZero => "0.0"
  | other => Number_toString other
  end.

(** [Array.prototype.join]: the loop of the language specification, with
    the separator put before every element but the first. *)
Fixpoint join_from (sep : string) (R : string) (k : nat) (l : list string) : string :=
  match l with
  | [] => R
  | x :: l' =>
      let R1 := match k with O => R | S _ => R ++ sep end in
      join_from sep (R1 ++ x) (S k) l'
  end.

Definition join (sep : string) (l : list string) : string := join_from sep "" O l.

(** Substring test, used to read what a message mentions. *)
Fixpoint contains (needle hay : string) : bool :=
  if String.prefix needle hay then true
  else match hay with
       | EmptyString => false
       | String _ hay' => contains needle hay'
       end.

End JS.

(** ** Style declarations *)

Module Css.
Import JS.

(** Whether the text [n + '%'] is a width in CSS: the number has to be
    finite and not negative; [NaN%], [Infinity%] and a negative
    percentage are not, and an assignment of such a text to [style.width]
    is ignored. *)
Definition is_percentage (n : number) : bool :=
  match n with
  | Fin q => Qle_bool 0 q
  | NegZero => true
  | _ => false
  end.

End Css.

(** ** Errors and promise outcomes *)

Module Err.

(** An error object: its [name] and [message] properties. *)
Record JsError : Type := mkError { name : string; message : string }.

(** [new Error(msg)]. *)
Definition Error (msg : string) : JsError := mkError "Error" msg.

(** What the engine throws on reading property [prop] of [null]; the text
    is the one V8 prints, other engines word it differently. *)
Definition TypeError_null (prop : string) : JsError :=
  mkError "TypeError" ("Cannot read properties of null (reading '" ++ prop ++ "')").

(** What the engine throws on calling a property that is [undefined]. *)
Definition TypeError_not_a_function (what : string) : JsError :=
  mkError "TypeError" (what ++ " is not a function").

(** What the engine throws on reading property [prop] of [undefined]. *)
Definition TypeError_undefined (prop : string) : JsError :=
  mkError "TypeError" ("Cannot read properties of undefined (reading '" ++ prop ++ "')").

(** A settled promise. *)
Inductive outcome (A : Type) : Type :=
| Resolved (a : A)
| Rejected (e : JsError).

Arguments Resolved {A} a.
Arguments Rejected {A} e.

End Err.

(** ** [api.js]: the API client *)

Module Api.
Import JS Err.

(** A parsed JSON text. Numbers are kept to integers, which is all an
    error body is read for; a later duplicate key overrides an earlier
    one, as [JSON.parse] has it. *)
Inductive json : Type :=
| JNull
| JBool (b : bool)
| JNum (n : Z)
| JStr (s : string)
| JArr (l : list json)
| JObj (fields : list (string * json)).

(** ToBoolean on a parsed value; [None] stands for [undefined]. *)
Definition truthy_json (v : option json) : bool :=
  match v with
  | None | Some JNull => false
  | Some (JBool b) => b
  | Some (JNum n) => negb (n =? 0)
  | Some (JStr s) => negb (String.eqb s "")
  | Some (JArr _) | Some (JObj _) => true
  end.

Fixpoint lookup_last (k : string) (l : list (string * json)) (found : option json) : option json :=
  match l with
  | [] => found
  | (k', v) :: l' => lookup_last k l' (if String.eqb k k' then Some v else found)
  end.

(** [v.detail]: reading a property of [null] throws; primitives and
    arrays have no such property; an object answers with its own. *)
Definition get_detail (v : json) : JsError + option json :=
  match v with
  | JNull => inl (TypeError_null "detail")
  | JObj fields => inr (lookup_last "detail" fields None)
  | _ => inr None
  end.

(** ToString, as [new Error(v)] applies it to its argument. *)
Fixpoint toString (v : json) : string :=
  match v with
  | JNull => "null"
  | JBool true => "true"
  | JBool false => "false"
  | JNum n => Zstr n
  | JStr s => s
  | JArr l =>
      join "," (List.map (fun e => match e with JNull => "" | _ => toString e end) l)
  | JObj _ => "[object Object]"
  end.

(** What [response.json()] settles to. *)
Inductive body : Type :=
| Parsed (v : json)
| Unparseable (e : JsError).

(** The part of a [fetch] response the client reads. *)
Record Response : Type := { status : Z; resp_body : body }.

(** [response.ok]. *)
Definition ok (r : Response) : bool := (200 <=? status r) && (status r <=? 299).

(** How the [fetch] promise settles: with a response, or rejected (network
    failure, or the abort the timer of [request] triggers). *)
Inductive fetch_outcome : Type :=
| FetchResponse (r : Response)
| FetchRejected (e : JsError).

Definition AbortError : JsError := mkError "AbortError" "The user aborted a request.".

(** The [catch] clause of [request]. *)
Definition request_catch (error : JsError) : outcome json :=
  if String.eqb (name error) "AbortError" then Rejected (Error "Request timeout")
  else Rejected error.

(** [APIClient.request], as a function of what [fetch] settles to. *)
Definition request (fetched : fetch_outcome) : outcome json :=
  match fetched with
  | FetchRejected e => request_catch e
  | FetchResponse response =>
      if negb (ok response) then
        let error :=
          match resp_body response with
          | Parsed v => v
          | Unparseable _ => JObj [("detail", JStr "Unknown error")]
          end in
        match get_detail error with
        | inl thrown => request_catch thrown
        | inr detail =>
            let arg :=
              if truthy_json detail
              then match detail with Some d => d | None => JNull end
              else JStr ("HTTP " ++ Zstr (status response)) in
            request_catch (Error (toString arg))
        end
      else
        match resp_body response with
        | Parsed v => Resolved v
        | Unparseable e => request_catch e
        end
  end.

(** The calls the page components make through the client; each is one
    [request]. *)
Inductive ApiCall : Type :=
| FindAlternatives (product_category : string) (current_score : number)
    (price_preference region : option string) (limit : Z)
| GetShoppingList (user_id : Z)
| SpeechToText (audio : list nat) (language : string)
| StartScreening (screening_type language : string) (user_id : Z)
| RespondToScreening (session_id response_text confidence : jsval).

End Api.

(** ** [utils.js]: toast and loading overlay *)

Module Utils.
Import Api.

Record Toast : Type := { toast_message : string; toast_classes : list string }.

(** The page furniture every component shares, and what leaves the page:
    toasts in the order shown, the [display] style of [#loadingOverlay],
    lines sent to [console.error], requests issued through the client,
    files handed to the browser for download. *)
Record Env : Type := mkEnv {
  toasts : list Toast;
  loadingOverlay : string;
  console : list string;
  requests : list ApiCall;
  downloads : list (string * string)
}.

Definition env0 : Env := mkEnv [] "none" [] [] [].

Definition showToast (message type : string) (e : Env) : Env :=
  let classes :=
    if String.eqb type "success" then ["toast"; "bg-success"; "text-white"]
    else if String.eqb type "error" then ["toast"; "bg-danger"; "text-white"]
    else if String.eqb type "warning" then ["toast"; "bg-warning"]
    else ["toast"] in
  mkEnv (toasts e ++ [Build_Toast message classes]) (loadingOverlay e)
        (console e) (requests e) (downloads e).

Definition showLoading (e : Env) : Env :=
  mkEnv (toasts e) "flex" (console e) (requests e) (downloads e).

Definition hideLoading (e : Env) : Env :=
  mkEnv (toasts e) "none" (console e) (requests e) (downloads e).

Definition console_error (label : string) (e : Env) : Env :=
  mkEnv (toasts e) (loadingOverlay e) (console e ++ [label]) (requests e) (downloads e).

Definition send (c : ApiCall) (e : Env) : Env :=
  mkEnv (toasts e) (loadingOverlay e) (console e) (requests e ++ [c]) (downloads e).

Definition download (filename text : string) (e : Env) : Env :=
  mkEnv (toasts e) (loadingOverlay e) (console e) (requests e) (downloads e ++ [(filename, text)]).

(** The last toast shown, if any. *)
Definition last_toast (e : Env) : option Toast := List.last (List.map Some (toasts e)) None.

End Utils.

(** ** [voice.js]: the voice screening component *)

Module Voice.
Import JS Err Api Utils.

(** *** Payloads of the remote service, as far as the component reads them *)

Record Question : Type := { q_number : jsval; q_text : jsval }.

(** The start-screening result: [session_id], [current_question] ([None]
    when absent or otherwise falsy), [total_questions]. *)
Record StartResult : Type := {
  session_id : jsval;
  current_question : option Question;
  start_total_questions : jsval
}.

(** The speech-to-text result: [text], [confidence]. *)
Record SttResult : Type := { stt_text : jsval; stt_confidence : jsval }.

(** The respond-to-screening result. *)
Record RespondResult : Type := {
  status : jsval;
  next_question : option Question;
  current_question_number : jsval;
  total_questions : jsval;
  total_score : jsval;
  risk_level : jsval;
  recommendation : jsval
}.

(** *** The page *)

(** Text built by concatenation or a template literal: literal pieces and
    interpolated values, whose conversion to text is the engine's. *)
Inductive piece : Type :=
| Lit (s : string)
| Val (v : jsval).

(** The alert block [displayResults] writes into
    [#screeningRecommendations]. *)
Record Recommendations : Type := {
  alert_class : string;
  alert_heading : jsval;
  alert_body : jsval
}.

(** The elements of the markup of [render] that the component reads or
    writes, by element id. *)
Record Dom : Type := mkDom {
  voiceLanguageSelect : string;
  screeningTypeSelect : string;
  startScreeningBtn_display : string;
  screeningInterface_display : string;
  currentQuestion : list piece;
  recordBtn_recording : bool;
  recordBtn_icon : string;
  screeningProgress_width : list piece;
  screeningProgress_text : list piece;
  progressText : list piece;
  transcriptionResult_display : string;
  transcriptionText : list piece;
  screeningResults_display : string;
  screeningScore_text : list piece;
  screeningScore_class : string;
  screeningRecommendations : option Recommendations
}.

(** The markup [render] returns, with the two selects at their first
    options. *)
Definition render : Dom := {|
  voiceLanguageSelect := "en";
  screeningTypeSelect := "EPDS";
  startScreeningBtn_display := "";
  screeningInterface_display := "none";
  currentQuestion := [Lit "Question will appear here..."];
  recordBtn_recording := false;
  recordBtn_icon := "fa-microphone";
  screeningProgress_width := [Lit "0%"];
  screeningProgress_text := [Lit "0%"];
  progressText := [Lit "Question 0 of 0"];
  transcriptionResult_display := "none";
  transcriptionText := [];
  screeningResults_display := "none";
  screeningScore_text := [Lit "--"];
  screeningScore_class := "score-badge";
  screeningRecommendations := None
|}.

(** The fields of the [VoiceComponent] object. A recorder is named by
    its index in the list of recorders created so far. *)
Record State : Type := mkState {
  mediaRecorder : option nat;
  audioChunks : list nat;
  isRecording : bool;
  sessionId : jsval;
  currentScreening : option StartResult
}.

Definition state0 : State := mkState None [] false VNull None.

(** Component fields, page elements and shared furniture. *)
Record Page : Type := mkPage { st : State; dom : Dom; env : Env }.

Definition page0 : Page := mkPage state0 render env0.

Definition with_env (f : Env -> Env) (p : Page) : Page :=
  mkPage (st p) (dom p) (f (env p)).

Definition with_dom (f : Dom -> Dom) (p : Page) : Page :=
  mkPage (st p) (f (dom p)) (env p).

(** [APP_CONFIG.USER_ID]. *)
Definition USER_ID : Z := 1.

(** *** Element updates *)

Definition set_start_layout (btn interface : string) (d : Dom) : Dom :=
  mkDom (voiceLanguageSelect d) (screeningTypeSelect d) btn interface
    (currentQuestion d) (recordBtn_recording d) (recordBtn_icon d)
    (screeningProgress_width d) (screeningProgress_text d) (progressText d)
    (transcriptionResult_display d) (transcriptionText d)
    (screeningResults_display d) (screeningScore_text d)
    (screeningScore_class d) (screeningRecommendations d).

Definition set_currentQuestion (html : list piece) (d : Dom) : Dom :=
  mkDom (voiceLanguageSelect d) (screeningTypeSelect d)
    (startScreeningBtn_display d) (screeningInterface_display d)
    html (recordBtn_recording d) (recordBtn_icon d)
    (screeningProgress_width d) (screeningProgress_text d) (progressText d)
    (transcriptionResult_display d) (transcriptionText d)
    (screeningResults_display d) (screeningScore_text d)
    (screeningScore_class d) (screeningRecommendations d).

Definition set_recordBtn (recording : bool) (icon : string) (d : Dom) : Dom :=
  mkDom (voiceLanguageSelect d) (screeningTypeSelect d)
    (startScreeningBtn_display d) (screeningInterface_display d)
    (currentQuestion d) recording icon
    (screeningProgress_width d) (screeningProgress_text d) (progressText d)
    (transcriptionResult_display d) (transcriptionText d)
    (screeningResults_display d) (screeningScore_text d)
    (screeningScore_class d) (screeningRecommendations d).

Definition set_progress (width text caption : list piece) (d : Dom) : Dom :=
  mkDom (voiceLanguageSelect d) (screeningTypeSelect d)
    (startScreeningBtn_display d) (screeningInterface_display d)
    (currentQuestion d) (recordBtn_recording d) (recordBtn_icon d)
    width text caption
    (transcriptionResult_display d) (transcriptionText d)
    (screeningResults_display d) (screeningScore_text d)
    (screeningScore_class d) (screeningRecommendations d).

Definition set_transcription (display : string) (text : list piece) (d : Dom) : Dom :=
  mkDom (voiceLanguageSelect d) (screeningTypeSelect d)
    (startScreeningBtn_display d) (screeningInterface_display d)
    (currentQuestion d) (recordBtn_recording d) (recordBtn_icon d)
    (screeningProgress_width d) (screeningProgress_text d) (progressText d)
    display text
    (screeningResults_display d) (screeningScore_text d)
    (screeningScore_class d) (screeningRecommendations d).

Definition set_results (interface results : string) (score : list piece)
    (cls : string) (rec : option Recommendations) (d : Dom) : Dom :=
  mkDom (voiceLanguageSelect d) (screeningTypeSelect d)
    (startScreeningBtn_display d) interface
    (currentQuestion d) (recordBtn_recording d) (recordBtn_icon d)
    (screeningProgress_width d) (screeningProgress_text d) (progressText d)
    (transcriptionResult_display d) (transcriptionText d)
    results score cls rec.

(** *** The methods *)

(** [displayQuestion(question)]. *)
Definition displayQuestion (question : option Question) (d : Dom) : Dom :=
  match question with
  | None => d
  | Some q =>
      set_currentQuestion
        [Lit "<strong>Question "; Val (q_number q); Lit ":</strong><br>"; Val (q_text q)] d
  end.

(** [updateProgress(current, total)]. The bar takes the new width when
    the text assigned is a width in CSS and keeps its width otherwise. *)
Definition updateProgress (current total : jsval) (d : Dom) : Dom :=
  let percentage := mul (div (toNumber current) (toNumber total)) (Fin 100) in
  set_progress
    (if Css.is_percentage percentage then [Val (VNum percentage); Lit "%"]
     else screeningProgress_width d)
    [Val (VNum (Math_round percentage)); Lit "%"]
    [Lit "Question "; Val current; Lit " of "; Val total]
    d.

(** The class chosen by [score < 10 ? a : score < 20 ? b : c]. *)
Definition band {A : Type} (score : jsval) (a b c : A) : A :=
  if lt_lit score 10 then a else if lt_lit score 20 then b else c.

(** [displayResults(response)]. *)
Definition displayResults (response : RespondResult) (p : Page) : Page :=
  let score := or_else (total_score response) (VNum (Fin 0)) in
  let d :=
    set_results "none" "block"
      [Val score]
      ("score-badge " ++ band score "score-safe" "score-warning" "score-danger")
      (Some {| alert_class := band score "alert-success" "alert-warning" "alert-danger";
               alert_heading := or_else (risk_level response) (VStr "Assessment Complete");
               alert_body := or_else (recommendation response)
                               (VStr "Thank you for completing the screening.") |})
      (dom p) in
  mkPage (st p) d (showToast "Screening completed" "success" (env p)).

(** [resetScreening()]. *)
Definition resetScreening (p : Page) : Page :=
  let s := st p in
  let d := dom p in
  mkPage
    (mkState (mediaRecorder s) (audioChunks s) (isRecording s) VNull None)
    (mkDom (voiceLanguageSelect d) (screeningTypeSelect d) "block" "none"
       (currentQuestion d) (recordBtn_recording d) (recordBtn_icon d)
       (screeningProgress_width d) (screeningProgress_text d) (progressText d)
       "none" (transcriptionText d) "none" (screeningScore_text d)
       (screeningScore_class d) (screeningRecommendations d))
    (env p).

(** The page rendered anew by the router, which assigns the markup of
    [render] to the content element and calls [init]: the component
    object keeps its fields. *)
Definition rerender (p : Page) : Page := mkPage (st p) render (env p).

(** [startScreening()] up to its [await]: the selects are read, the
    overlay is shown and the request leaves. *)
Definition startScreening_begin (p : Page) : Page :=
  let language := voiceLanguageSelect (dom p) in
  let screeningType := screeningTypeSelect (dom p) in
  with_env (fun e => send (StartScreening screeningType language USER_ID) (showLoading e)) p.

(** The [catch] and [finally] clauses of [startScreening]. *)
Definition startScreening_catch (error : JsError) (p : Page) : Page :=
  with_env (fun e =>
    hideLoading
      (showToast ("Failed to start screening: " ++ message error) "error"
         (console_error "Start screening error:" e))) p.

(** [startScreening()] from its [await] on. A result of [null] makes the
    first property read throw. *)
Definition startScreening_resume (settled : outcome (option StartResult)) (p : Page) : Page :=
  match settled with
  | Resolved (Some result) =>
      let s := st p in
      let s' := mkState (mediaRecorder s) (audioChunks s) (isRecording s)
                  (session_id result) (Some result) in
      let d := set_start_layout "none" "block" (dom p) in
      let d := displayQuestion (current_question result) d in
      let d := updateProgress (VNum (Fin 1)) (start_total_questions result) d in
      mkPage s' d (hideLoading (showToast "Screening started" "success" (env p)))
  | Resolved None => startScreening_catch (TypeError_null "session_id") p
  | Rejected error => startScreening_catch error p
  end.

Definition startScreening (settled : outcome (option StartResult)) (p : Page) : Page :=
  startScreening_resume settled (startScreening_begin p).

(** [processAudio(audioBlob)] up to its first [await]. *)
Definition processAudio_begin (audioBlob : list nat) (p : Page) : Page :=
  let language := voiceLanguageSelect (dom p) in
  with_env (fun e => send (SpeechToText audioBlob language) (showLoading e)) p.

(** The [catch] and [finally] clauses of [processAudio]. *)
Definition processAudio_catch (error : JsError) (p : Page) : Page :=
  with_env (fun e =>
    hideLoading
      (showToast ("Failed to process audio: " ++ message error) "error"
         (console_error "Process audio error:" e))) p.

(** [processAudio] between its two [await]s: the transcription is shown
    and the answer is sent with the session identifier held at that
    moment. The flag tells whether the function is now waiting for the
    reply ([true]) or has finished through [catch]. *)
Definition processAudio_transcribed (settled : outcome (option SttResult)) (p : Page) : Page * bool :=
  match settled with
  | Resolved (Some sttResult) =>
      let d := set_transcription "block" [Val (stt_text sttResult)] (dom p) in
      (mkPage (st p) d
         (send (RespondToScreening (sessionId (st p)) (stt_text sttResult)
                  (stt_confidence sttResult)) (env p)),
       true)
  | Resolved None => (processAudio_catch (TypeError_null "text") p, false)
  | Rejected error => (processAudio_catch error p, false)
  end.

Definition is_string (v : jsval) (s : string) : bool :=
  match v with VStr s' => String.eqb s' s | _ => false end.

(** [processAudio] after the reply of the respond call. *)
Definition processAudio_responded (settled : outcome (option RespondResult)) (p : Page) : Page :=
  match settled with
  | Resolved (Some response) =>
      let p' :=
        if is_string (status response) "complete" then displayResults response p
        else if is_string (status response) "next_question" then
          with_dom (fun d =>
            updateProgress (current_question_number response) (total_questions response)
              (displayQuestion (next_question response) d)) p
        else p in
      with_env hideLoading p'
  | Resolved None => processAudio_catch (TypeError_null "status") p
  | Rejected error => processAudio_catch error p
  end.

Definition processAudio (audioBlob : list nat)
    (stt : outcome (option SttResult)) (reply : outcome (option RespondResult))
    (p : Page) : Page :=
  match processAudio_transcribed stt (processAudio_begin audioBlob p) with
  | (p', true) => processAudio_responded reply p'
  | (p', false) => p'
  end.

(** *** Recorders and overlapping invocations *)

Inductive RecorderState : Type := recording | inactive.

(** A [MediaRecorder] and the stream it was built on. *)
Record Recorder : Type := {
  rec_state : RecorderState;
  tracks_live : bool
}.

(** A suspended invocation, or a queued recorder event. *)
Inductive Task : Type :=
| AwaitMic
| AwaitStart
| AwaitStt
| AwaitRespond
| RecorderStop (rid : nat).

Record World : Type := mkWorld {
  page : Page;
  recorders : list Recorder;
  tasks : list Task
}.

Definition world0 : World := mkWorld page0 [] [].

Definition set_recording (s : State) (mr : option nat) (chunks : list nat) (flag : bool) : State :=
  mkState mr chunks flag (sessionId s) (currentScreening s).

(** [startRecording()] from its [await] on, microphone granted. *)
Definition startRecording_granted (w : World) : World :=
  let p := page w in
  let rid := length (recorders w) in
  let s := set_recording (st p) (Some rid) [] true in
  let d := set_recordBtn true "fa-stop" (dom p) in
  mkWorld (mkPage s d (showToast "Recording..." "info" (env p)))
    (recorders w ++ [{| rec_state := recording; tracks_live := true |}])
    (tasks w).

(** [startRecording()] from its [await] on, microphone refused. *)
Definition startRecording_denied (w : World) : World :=
  mkWorld
    (with_env (fun e => showToast "Microphone access denied" "error"
                          (console_error "Recording error:" e)) (page w))
    (recorders w) (tasks w).

(** [stopRecording()]: the recorder held in [mediaRecorder] is stopped,
    which queues its [dataavailable] and [stop] events, and the tracks of
    its stream are stopped. *)
Definition stopRecording (w : World) : World :=
  let p := page w in
  match mediaRecorder (st p), isRecording (st p) with
  | Some rid, true =>
      let s := set_recording (st p) (Some rid) (audioChunks (st p)) false in
      let d := set_recordBtn false "fa-microphone" (dom p) in
      mkWorld (mkPage s d (env p))
        (alter (fun _ => {| rec_state := inactive; tracks_live := false |}) rid (recorders w))
        (tasks w ++ [RecorderStop rid])
  | _, _ => w
  end.

(** [toggleRecording()] up to its [await], if it reaches one. *)
Definition toggleRecording (w : World) : World :=
  if isRecording (st (page w)) then stopRecording w
  else mkWorld (page w) (recorders w) (tasks w ++ [AwaitMic]).

(** The handlers [ondataavailable] and [onstop] of recorder [rid], run
    when its queued events are delivered. *)
Definition recorder_stopped (rid : nat) (w : World) : World :=
  let p := page w in
  let s := st p in
  let chunks := (audioChunks s ++ [rid])%list in
  let s' := set_recording s (mediaRecorder s) chunks (isRecording s) in
  mkWorld (processAudio_begin chunks (mkPage s' (dom p) (env p)))
    (recorders w) (tasks w ++ [AwaitStt]).

(** What drives the page: user gestures, direct calls of the methods, and
    the completion of the [i]-th pending task. *)
Inductive Completion : Type :=
| MicGranted
| MicDenied
| StartSettled (r : outcome (option StartResult))
| SttSettled (r : outcome (option SttResult))
| RespondSettled (r : outcome (option RespondResult))
| Delivered.

Inductive Event : Type :=
| ClickStart
| ClickRecord
| CallStartRecording
| CallStopRecording
| Complete (i : nat) (c : Completion).

Definition spawn (t : Task) (w : World) : World :=
  mkWorld (page w) (recorders w) (tasks w ++ [t]).

Definition on_page (f : Page -> Page) (w : World) : World :=
  mkWorld (f (page w)) (recorders w) (tasks w).

(** Resuming task [t] with completion [c]; a completion of the wrong kind
    leaves the task pending ([None]). *)
Definition resume (t : Task) (c : Completion) (w : World) : option World :=
  match t, c with
  | AwaitMic, MicGranted => Some (startRecording_granted w)
  | AwaitMic, MicDenied => Some (startRecording_denied w)
  | AwaitStart, StartSettled r => Some (on_page (startScreening_resume r) w)
  | AwaitStt, SttSettled r =>
      match processAudio_transcribed r (page w) with
      | (p, true) => Some (spawn AwaitRespond (on_page (fun _ => p) w))
      | (p, false) => Some (on_page (fun _ => p) w)
      end
  | AwaitRespond, RespondSettled r => Some (on_page (processAudio_responded r) w)
  | RecorderStop rid, Delivered => Some (recorder_stopped rid w)
  | _, _ => None
  end.

Definition step (ev : Event) (w : World) : World :=
  match ev with
  | ClickStart => spawn AwaitStart (on_page startScreening_begin w)
  | ClickRecord => toggleRecording w
  | CallStartRecording => spawn AwaitMic w
  | CallStopRecording => stopRecording w
  | Complete i c =>
      match tasks w !! i with
      | Some t =>
          let w' := mkWorld (page w) (recorders w) (delete i (tasks w)) in
          match resume t c w' with
          | Some w'' => w''
          | None => w
          end
      | None => w
      end
  end.

Definition run (evs : list Event) (w : World) : World :=
  fold_left (fun w ev => step ev w) evs w.

(** The recorders that are capturing audio. *)
Definition active_recorders (w : World) : list nat :=
  List.map fst
    (List.filter (fun ir => match rec_state (snd ir) with recording => true | inactive => false end)
       (imap (fun i r => (i, r)) (recorders w))).

End Voice.

(** ** [notifications.js], second part: the alternatives component *)

Module Alternatives.
Import JS Api Utils.

(** An element of the shopping list as the component reads it: its three
    properties, [VUndefined] where the element has none. An element that
    is a number, a string, a boolean or an array has none of the three.
    The properties are primitive values; a property that is itself an
    object or an array is outside the model. *)
Record Item : Type := { id : jsval; name : jsval; hormonal_health_score : jsval }.

(** What the field [shoppingList] can hold once a reply has been
    assigned to it: an array, with [None] for an element that is [null];
    or a value that is neither an array nor [null], of which the component
    reads [length] only and which has no method [map]. *)
Inductive ListValue : Type :=
| Entries (elements : list (option Item))
| NotArray (length : jsval).

(** A search hit. *)
Record Alternative : Type := {
  product_id : string;
  alt_name : string;
  alt_score : Q
}.

(** The fields of the [AlternativesComponent] object; [None] is a
    [shoppingList] of [null]. *)
Record State : Type := mkState {
  shoppingList : option ListValue;
  currentCategory : string
}.

(** An entry of [#shoppingListContainer]: the three texts the template
    interpolates. *)
Record Row : Type := { row_name : string; row_score : string; row_id : string }.

(** The form controls and the containers the component fills; the two
    containers hold what was rendered, in rendering order, and a shopping
    list without rows is the paragraph saying that the list is empty. *)
Record Dom : Type := mkDom {
  categorySelect : string;
  currentScore : string;
  pricePreference : string;
  regionSelect : string;
  alternativesList : list Alternative;
  alternativesResults_display : string;
  shoppingListContainer : list Row;
  exportListBtn_display : string
}.

Record Page : Type := mkPage { st : State; dom : Dom; env : Env }.

Definition with_env (f : Env -> Env) (p : Page) : Page :=
  mkPage (st p) (dom p) (f (env p)).

(** [value || null]. *)
Definition value_or_null (value : string) : option string :=
  if String.eqb value "" then None else Some value.

(** [displayAlternatives(alternatives)]: the hits are rendered in the
    order received and the results block is shown. *)
Definition displayAlternatives (alternatives : list Alternative) (d : Dom) : Dom :=
  mkDom (categorySelect d) (currentScore d) (pricePreference d) (regionSelect d)
    alternatives "block" (shoppingListContainer d) (exportListBtn_display d).

(** [searchAlternatives()], as a function of what the call to
    [api.findAlternatives] settles to when it is made. *)
Definition searchAlternatives (settled : Err.outcome (list Alternative)) (p : Page) : Page :=
  let category := categorySelect (dom p) in
  let score := parseFloat (currentScore (dom p)) in
  let price := value_or_null (pricePreference (dom p)) in
  let region := value_or_null (regionSelect (dom p)) in
  if String.eqb category "" then
    with_env (showToast "Please select a category" "warning") p
  else if isNaN score || lt score (Fin 0) || gt score (Fin 100) then
    with_env (showToast "Please enter a valid score (0-100)" "warning") p
  else
    let s' := mkState (shoppingList (st p)) category in
    let e1 := send (FindAlternatives category score price region 10) (showLoading (env p)) in
    match settled with
    | Err.Resolved alternatives =>
        mkPage s' (displayAlternatives alternatives (dom p))
          (hideLoading
             (showToast ("Found " ++ Zstr (Z.of_nat (length alternatives)) ++ " alternatives")
                "success" e1))
    | Err.Rejected error =>
        mkPage s' (dom p)
          (hideLoading
             (showToast ("Search failed: " ++ Err.message error) "error"
                (console_error "Search error:" e1)))
    end.

(** [score.toFixed(1)] on the value of a property: only a number has the
    method. *)
Definition score_toFixed1 (score : jsval) : Err.JsError + string :=
  match score with
  | VNum n => inr (toFixed1 n)
  | VUndefined => inl (Err.TypeError_undefined "toFixed")
  | VNull => inl (Err.TypeError_null "toFixed")
  | _ => inl (Err.TypeError_not_a_function "item.hormonal_health_score.toFixed")
  end.

(** [array.map(f)] for a callback that may throw: the first exception
    ends the loop. *)
Fixpoint map_throwing {A B : Type} (f : A -> Err.JsError + B) (l : list A)
    : Err.JsError + list B :=
  match l with
  | [] => inr []
  | x :: l' =>
      match f x with
      | inl e => inl e
      | inr y =>
          match map_throwing f l' with
          | inl e => inl e
          | inr ys => inr (y :: ys)
          end
      end
  end.

(** The template of [displayShoppingList] on one element. *)
Definition render_item (item : option Item) : Err.JsError + Row :=
  match item with
  | None => inl (Err.TypeError_null "name")
  | Some i =>
      match score_toFixed1 (hormonal_health_score i) with
      | inl e => inl e
      | inr score =>
          inr {| row_name := JS.toString (name i); row_score := score;
                 row_id := JS.toString (id i) |}
      end
  end.

(** [this.shoppingList.length] on a value that is not [null]. *)
Definition length_of (v : ListValue) : jsval :=
  match v with
  | Entries elements => VNum (Fin (inject_Z (Z.of_nat (length elements))))
  | NotArray len => len
  end.

Definition set_shoppingList (rows : list Row) (display : string) (p : Page) : Page :=
  let d := dom p in
  mkPage (st p)
    (mkDom (categorySelect d) (currentScore d) (pricePreference d) (regionSelect d)
       (alternativesList d) (alternativesResults_display d) rows display)
    (env p).

(** [displayShoppingList()]: the page it leaves, or the exception it
    throws, in which case nothing was written. *)
Definition displayShoppingList (p : Page) : Err.JsError + Page :=
  match shoppingList (st p) with
  | None => inl (Err.TypeError_null "length")
  | Some v =>
      if is_zero (length_of v) then inr (set_shoppingList [] "none" p)
      else
        match v with
        | Entries elements =>
            match map_throwing render_item elements with
            | inl e => inl e
            | inr rows => inr (set_shoppingList rows "block" p)
            end
        | NotArray _ => inl (Err.TypeError_not_a_function "this.shoppingList.map")
        end
  end.

(** [APP_CONFIG.USER_ID]. *)
Definition USER_ID : Z := 1.

(** [loadShoppingList()]: the one place the list is fetched. The reply is
    assigned to the field before it is displayed, and an exception of
    [displayShoppingList] is caught like a failed call. *)
Definition loadShoppingList (settled : Err.outcome (option ListValue)) (p : Page) : Page :=
  let e1 := send (GetShoppingList USER_ID) (env p) in
  match settled with
  | Err.Resolved reply =>
      let p1 := mkPage (mkState reply (currentCategory (st p))) (dom p) e1 in
      match displayShoppingList p1 with
      | inr p2 => p2
      | inl _ => with_env (console_error "Load shopping list error:") p1
      end
  | Err.Rejected _ =>
      mkPage (st p) (dom p) (console_error "Load shopping list error:" e1)
  end.

(** One line of the export. *)
Definition export_line (item : option Item) : Err.JsError + string :=
  match item with
  | None => inl (Err.TypeError_null "name")
  | Some i =>
      match score_toFixed1 (hormonal_health_score i) with
      | inl e => inl e
      | inr score => inr (JS.toString (name i) ++ " (Score: " ++ score ++ ")")
      end
  end.

(** The line feed. *)
Definition newline : string := String (ascii_of_nat 10) "".

(** [exportShoppingList()]: the text is handed to the browser as the file
    [sakhi-shopping-list.txt]; or the exception thrown, before anything
    was done. *)
Definition exportShoppingList (p : Page) : Err.JsError + Page :=
  match shoppingList (st p) with
  | None => inl (Err.TypeError_null "map")
  | Some (NotArray _) => inl (Err.TypeError_not_a_function "this.shoppingList.map")
  | Some (Entries elements) =>
      match map_throwing export_line elements with
      | inl e => inl e
      | inr lines =>
          let text := join newline lines in
          inr (with_env (fun e => showToast "Shopping list exported" "success"
                                    (download "sakhi-shopping-list.txt" text e)) p)
      end
  end.

End Alternatives.

(** ** [app.js]: the navigation controller *)

Module App.
Import Err.

Inductive Component : Type :=
| HomeComponent
| OCRComponent
| AlternativesComponent
| VoiceComponent
| NotificationsComponent.

(** [this.components], the own properties of the object literal. *)
Definition components : gmap string Component :=
  list_to_map
    [("home", HomeComponent); ("ocr", OCRComponent);
     ("alternatives", AlternativesComponent); ("voice", VoiceComponent);
     ("notifications", NotificationsComponent)].

(** The properties an object literal inherits from [Object.prototype]. *)
Definition Object_prototype_keys : list string :=
  ["constructor"; "hasOwnProperty"; "isPrototypeOf"; "propertyIsEnumerable";
   "toLocaleString"; "toString"; "valueOf"; "__proto__";
   "__defineGetter__"; "__defineSetter__"; "__lookupGetter__"; "__lookupSetter__"].

(** What [this.components[page]] evaluates to: a registered component, a
    built-in reached through the prototype, or [undefined] ([None]). *)
Inductive Looked : Type :=
| Registered (c : Component)
| Inherited (key : string).

Definition get (page : string) : option Looked :=
  match components !! page with
  | Some c => Some (Registered c)
  | None =>
      if existsb (String.eqb page) Object_prototype_keys then Some (Inherited page)
      else None
  end.

(** The controller and the parts of the document it touches: the links
    of class [nav-link] with their [active] flag, the component whose
    markup fills [#app-content], the [init] hooks run so far, the history
    entries pushed, the scroll position. *)
Record Nav : Type := mkNav {
  currentPage : string;
  nav_links : list (string * bool);
  app_content : option Component;
  initialised : list Component;
  history : list string;
  scroll : Z * Z
}.

(** How a call ends: normally, or by throwing, with the state left
    behind in both cases. *)
Inductive Completion : Type :=
| Normal (a : Nav)
| Throw (e : JsError) (a : Nav).

Definition mark_active (page : string) (links : list (string * bool)) : list (string * bool) :=
  List.map (fun l => (fst l, String.eqb (fst l) ("#" ++ page))) links.

(** [loadPage(page)]. Every value [get] can return is truthy; all five
    registered components define [render] and [init]. *)
Definition loadPage (page : string) (a : Nav) : Completion :=
  let page := match get page with None => "home" | Some _ => page end in
  let a1 := mkNav page (mark_active page (nav_links a)) (app_content a)
              (initialised a) (history a) (scroll a) in
  match get page with
  | Some (Registered component) =>
      Normal (mkNav page (nav_links a1) (Some component)
                (initialised a1 ++ [component]) (history a1) (0, 0))
  | Some (Inherited _) => Throw (TypeError_not_a_function "component.render") a1
  | None => Throw (TypeError_undefined "render") a1
  end.

(** [navigate(page)]. *)
Definition navigate (page : string) (a : Nav) : Completion :=
  loadPage page
    (mkNav (currentPage a) (nav_links a) (app_content a) (initialised a)
       (history a ++ [page]) (scroll a)).

End App.

(** ** [utils.js]: score classes, file validation, truncation, debounce *)

Module Helpers.
Import JS Err.

(** [a >= b] on numbers: false as soon as one side is NaN. *)
Definition ge (a b : number) : bool :=
  match a, b with
  | NaN, _ | _, NaN => false
  | _, _ => negb (lt a b)
  end.

(** [v >= k] for a primitive [v] against a numeric literal [k]. *)
Definition ge_lit (v : jsval) (k : Z) : bool := ge (toNumber v) (Fin (inject_Z k)).

(** [getScoreClass(score)]. *)
Definition getScoreClass (score : jsval) : string :=
  if ge_lit score 80 then "score-safe"
  else if ge_lit score 50 then "score-warning"
  else "score-danger".

(** [getScoreBadgeClass(score)]. *)
Definition getScoreBadgeClass (score : jsval) : string :=
  if ge_lit score 80 then "bg-success"
  else if ge_lit score 50 then "bg-warning"
  else "bg-danger".

(** The two properties of a [File] that are read. *)
Record File : Type := { file_type : string; file_size : Z }.

(** [APP_CONFIG.ALLOWED_IMAGE_TYPES] and [APP_CONFIG.MAX_FILE_SIZE]. *)
Definition ALLOWED_IMAGE_TYPES : list string := ["image/jpeg"; "image/png"; "image/webp"].

Definition MAX_FILE_SIZE : Z := 5 * 1024 * 1024.

(** [validateImageFile(file)]: [true], or the error thrown. [None] is the
    [undefined] an empty file list gives. *)
Definition validateImageFile (file : option File) : JsError + bool :=
  match file with
  | None => inl (Error "No file selected")
  | Some f =>
      if negb (existsb (String.eqb (file_type f)) ALLOWED_IMAGE_TYPES) then
        inl (Error "Invalid file type. Please upload a JPEG, PNG, or WebP image.")
      else if MAX_FILE_SIZE <? file_size f then
        inl (Error "File too large. Maximum size is 5MB.")
      else inr true
  end.

(** [truncateText(text, maxLength)] on a string and an integral length;
    characters are the code units of the string. [substring] takes a
    negative end for 0. *)
Definition truncateText (text : string) (maxLength : Z) : string :=
  if String.eqb text "" then text
  else if Z.of_nat (String.length text) <=? maxLength then text
  else String.substring 0 (Z.to_nat maxLength) text ++ "...".

(** *** [debounce(func, wait)]

    The closure holds [timeout], the identifier of the timer set last. The
    timers set and not yet elapsed or cleared are kept with the arguments
    their [later] callback captured, and the calls of [func] made so far
    are recorded. A timer may elapse at any moment after it was set: the
    delay [wait] only says how soon. *)

Section Debounce.
Context {A : Type}.

Record Debounced : Type := mkDebounced {
  timeout : option nat;
  timers : list (nat * A);
  next_timer : nat;
  func_calls : list A
}.

Definition debounce : Debounced := mkDebounced None [] 0 [].

(** [clearTimeout(id)]. *)
Definition clearTimeout (id : option nat) (ts : list (nat * A)) : list (nat * A) :=
  match id with
  | None => ts
  | Some i => List.filter (fun t => negb (Nat.eqb (fst t) i)) ts
  end.

(** One call of the returned function [executedFunction(...args)]. *)
Definition executedFunction (args : A) (d : Debounced) : Debounced :=
  let id := next_timer d in
  mkDebounced (Some id)
    (clearTimeout (timeout d) (timers d) ++ [(id, args)])
    (S id) (func_calls d).

(** Timer [id] elapses: if it is still set it leaves the set and its
    callback [later] runs, which clears [timeout] and calls [func]. *)
Definition elapse (id : nat) (d : Debounced) : Debounced :=
  match List.find (fun t => Nat.eqb (fst t) id) (timers d) with
  | Some (_, args) =>
      let rest := List.filter (fun t => negb (Nat.eqb (fst t) id)) (timers d) in
      mkDebounced (timeout d) (clearTimeout (timeout d) rest)
        (next_timer d) (func_calls d ++ [args])
  | None => d
  end.

Inductive DebounceEvent : Type :=
| Invoke (args : A)
| Elapse (id : nat).

Definition debounce_step (d : Debounced) (ev : DebounceEvent) : Debounced :=
  match ev with
  | Invoke args => executedFunction args d
  | Elapse id => elapse id d
  end.

Definition debounce_run (evs : list DebounceEvent) : Debounced :=
  fold_left debounce_step evs debounce.

End Debounce.

Arguments Debounced : clear implicits.
Arguments DebounceEvent : clear implicits.

End Helpers.

(** ** The remaining calls of the API client *)

Module Calls.

(** Every call a page component makes through the client: the ones of
    [Api.ApiCall], and the shopping-list mutations, the notification
    calls and the text extraction. *)
Inductive Call : Type :=
| Base (c : Api.ApiCall)
| AddToShoppingList (user_id : Z) (product_id device_id replaced_product_category : string)
| RemoveFromShoppingList (user_id item_id : Z)
| GetNotifications (user_id : Z) (unread_only : bool) (limit : Z)
| MarkNotificationRead (user_id notification_id : Z)
| ExtractText (file : Helpers.File) (language : option string).

End Calls.

(** ** [notifications.js], second part, continued: the shopping list *)

Module Cart.
Import JS Err Utils Calls.

(** The alternatives page together with the full log of its calls. *)
Record Shop : Type := mkShop { page : Alternatives.Page; calls : list Call }.

Definition on_env (f : Env -> Env) (s : Shop) : Shop :=
  mkShop (Alternatives.with_env f (page s)) (calls s).

Definition log (c : Call) (s : Shop) : Shop :=
  mkShop (page s) (calls s ++ [c]).

(** Runs a method that sends its requests with [Utils.send] and copies
    the requests it added, in order, to the full log. *)
Definition lift (f : Alternatives.Page -> Alternatives.Page) (s : Shop) : Shop :=
  let before := length (requests (Alternatives.env (page s))) in
  let p' := f (page s) in
  mkShop p' (calls s ++ List.map Base (drop before (requests (Alternatives.env p')))).

(** The markup [render] returns. *)
Definition render : Alternatives.Dom :=
  Alternatives.mkDom "" "45" "" "" [] "none" [] "none".

(** The component when the script is loaded, on its freshly rendered
    page: the list is the empty array of the object literal. *)
Definition shop0 : Shop :=
  mkShop (Alternatives.mkPage (Alternatives.mkState (Some (Alternatives.Entries [])) "")
            render env0) [].

(** [init()]: the listeners are bound and the list is fetched. *)
Definition init (fetched : outcome (option Alternatives.ListValue)) (s : Shop) : Shop :=
  lift (Alternatives.loadShoppingList fetched) s.

(** The page rendered anew by the router, which assigns the markup of
    [render] to the content element and calls [init]: the component
    object keeps its fields. *)
Definition rerender (fetched : outcome (option Alternatives.ListValue)) (s : Shop) : Shop :=
  init fetched
    (mkShop (Alternatives.mkPage (Alternatives.st (page s)) render (Alternatives.env (page s)))
       (calls s)).

(** A click on the export button: an exception of the handler leaves the
    page as it is. *)
Definition clickExport (p : Alternatives.Page) : Alternatives.Page :=
  match Alternatives.exportShoppingList p with
  | inr p' => p'
  | inl _ => p
  end.

(** [addToCart(productId, productName)], as a function of what the add
    call and, if it is reached, the fetch of the list settle to.
    [DEVICE_ID] is [APP_CONFIG.DEVICE_ID], fixed when the script is
    loaded. *)
Definition addToCart (DEVICE_ID productId productName : string)
    (added : outcome unit) (fetched : outcome (option Alternatives.ListValue)) (s : Shop) : Shop :=
  let category := Alternatives.currentCategory (Alternatives.st (page s)) in
  let s1 := log (AddToShoppingList Alternatives.USER_ID productId DEVICE_ID category)
              (on_env showLoading s) in
  match added with
  | Resolved _ =>
      on_env hideLoading
        (lift (Alternatives.loadShoppingList fetched)
           (on_env (showToast (productName ++ " added to shopping list") "success") s1))
  | Rejected _ =>
      on_env (fun e => hideLoading
                         (showToast "Failed to add to shopping list" "error"
                            (console_error "Add to cart error:" e))) s1
  end.

(** [removeFromCart(itemId)]. *)
Definition removeFromCart (itemId : Z)
    (removed : outcome unit) (fetched : outcome (option Alternatives.ListValue)) (s : Shop) : Shop :=
  let s1 := log (RemoveFromShoppingList Alternatives.USER_ID itemId) (on_env showLoading s) in
  match removed with
  | Resolved _ =>
      on_env hideLoading
        (lift (Alternatives.loadShoppingList fetched)
           (on_env (showToast "Item removed from shopping list" "success") s1))
  | Rejected _ =>
      on_env (fun e => hideLoading
                         (showToast "Failed to remove item" "error"
                            (console_error "Remove from cart error:" e))) s1
  end.

(** What the user and the service can make happen on the page. *)
Inductive Op : Type :=
| Search (settled : outcome (list Alternatives.Alternative))
| Add (productId productName : string) (added : outcome unit)
    (fetched : outcome (option Alternatives.ListValue))
| Remove (itemId : Z) (removed : outcome unit) (fetched : outcome (option Alternatives.ListValue))
| Reload (fetched : outcome (option Alternatives.ListValue))
| Export
| SetForm (category score price region : string)
| Rerender (fetched : outcome (option Alternatives.ListValue)).

(** Filling in the search form. *)
Definition set_form (category score price region : string) (p : Alternatives.Page)
    : Alternatives.Page :=
  let d := Alternatives.dom p in
  Alternatives.mkPage (Alternatives.st p)
    (Alternatives.mkDom category score price region
       (Alternatives.alternativesList d) (Alternatives.alternativesResults_display d)
       (Alternatives.shoppingListContainer d) (Alternatives.exportListBtn_display d))
    (Alternatives.env p).

Definition op_step (DEVICE_ID : string) (s : Shop) (op : Op) : Shop :=
  match op with
  | Search settled => lift (Alternatives.searchAlternatives settled) s
  | Add productId productName added fetched =>
      addToCart DEVICE_ID productId productName added fetched s
  | Remove itemId removed fetched => removeFromCart itemId removed fetched s
  | Reload fetched => lift (Alternatives.loadShoppingList fetched) s
  | Export => lift clickExport s
  | SetForm category score price region => lift (set_form category score price region) s
  | Rerender fetched => rerender fetched s
  end.

End Cart.

(** ** [notifications.js], first part: the notifications component *)

Module Notifications.
Import JS Err Utils Calls.

(** A notification as the component reads it. *)
Record Notification : Type := mkNotification {
  id : Z;
  read : bool;
  notification_type : string;
  title : string;
  message : string
}.

(** What [#notificationsList] shows. *)
Inductive Panel : Type :=
| Loading
| NoNotifications
| LoadFailed
| Listed (shown : list Notification).

(** The field of the component, the list element, the page furniture and
    the calls made. *)
Record Page : Type := mkPage {
  notifications : list Notification;
  notificationsList : Panel;
  env : Env;
  calls : list Call
}.

Definition page0 : Page := mkPage [] Loading env0 [].

(** [APP_CONFIG.USER_ID]. *)
Definition USER_ID : Z := 1.

(** [displayNotifications()]. *)
Definition displayNotifications (p : Page) : Page :=
  mkPage (notifications p)
    (match notifications p with [] => NoNotifications | l => Listed l end)
    (env p) (calls p).

(** [loadNotifications(unreadOnly)]; the client's default [limit] is
    20. *)
Definition loadNotifications (unreadOnly : bool)
    (settled : outcome (list Notification)) (p : Page) : Page :=
  let e1 := showLoading (env p) in
  let cs := (calls p ++ [GetNotifications USER_ID unreadOnly 20])%list in
  match settled with
  | Resolved l =>
      let p' := displayNotifications (mkPage l (notificationsList p) e1 cs) in
      mkPage (notifications p') (notificationsList p') (hideLoading (env p')) (calls p')
  | Rejected _ =>
      mkPage (notifications p) LoadFailed
        (hideLoading (showToast "Failed to load notifications" "error"
                        (console_error "Load notifications error:" e1)))
        cs
  end.

(** [init()]. *)
Definition init (settled : outcome (list Notification)) (p : Page) : Page :=
  loadNotifications false settled p.

(** [notif.read = true]. *)
Definition set_read (n : Notification) : Notification :=
  mkNotification (id n) true (notification_type n) (title n) (message n).

(** [markAsRead(notificationId)]: [find] returns the first notification
    with that [id]; writing to it changes the element of the array. *)
Definition markAsRead (notificationId : Z) (settled : outcome unit) (p : Page) : Page :=
  let cs := (calls p ++ [MarkNotificationRead USER_ID notificationId])%list in
  match settled with
  | Resolved _ =>
      match list_find (fun n => id n = notificationId) (notifications p) with
      | Some (i, _) =>
          displayNotifications
            (mkPage (alter set_read i (notifications p)) (notificationsList p) (env p) cs)
      | None => mkPage (notifications p) (notificationsList p) (env p) cs
      end
  | Rejected _ =>
      mkPage (notifications p) (notificationsList p)
        (console_error "Mark as read error:" (env p)) cs
  end.

Inductive Op : Type :=
| Load (unreadOnly : bool) (settled : outcome (list Notification))
| Mark (notificationId : Z) (settled : outcome unit).

Definition op_step (p : Page) (op : Op) : Page :=
  match op with
  | Load unreadOnly settled => loadNotifications unreadOnly settled p
  | Mark notificationId settled => markAsRead notificationId settled p
  end.

End Notifications.

(** ** The OCR scanner component *)

Module OCR.
Import JS Err Utils Calls Helpers.

(** The fields of the [OCRComponent] object. *)
Record State : Type := mkState {
  selectedFile : option File;
  selectedLanguage : option string
}.

(** [result.data], as far as it is read. *)
Record Data : Type := { raw_text : jsval; confidence : jsval }.

(** The extract-text result: [success], [data] ([None] when absent or
    otherwise falsy) and the text under [message], if any. *)
Record ScanResult : Type := {
  success : jsval;
  data : option Data;
  scan_message : option string
}.

(** The elements the component writes: the values assigned to the text
    of the score badge and of the extracted text, and for the confidence
    bar the percentage of its width and the percentage it shows. *)
Record Dom : Type := mkDom {
  scanBtn_disabled : bool;
  resultsContainer_display : string;
  toxicityScore_text : jsval;
  toxicityScore_class : string;
  extractedText : jsval;
  confidenceBar_width : number;
  confidenceBar_text : number
}.

(** The markup [render] returns: the scan button starts disabled. *)
Definition render : Dom :=
  mkDom true "none" (VStr "--") "score-badge" (VStr "--") (Fin 0) (Fin 0).

Record Page : Type := mkPage { st : State; dom : Dom; env : Env; calls : list Call }.

Definition page0 : Page := mkPage (mkState None None) render env0 [].

Definition with_env (f : Env -> Env) (p : Page) : Page :=
  mkPage (st p) (dom p) (f (env p)) (calls p).

(** The listener on [#languageSelect]: [e.target.value || null]. *)
Definition selectLanguage (value : string) (p : Page) : Page :=
  mkPage (mkState (selectedFile (st p)) (if String.eqb value "" then None else Some value))
    (dom p) (env p) (calls p).

(** [handleFileSelect(file)]; the preview, filled in when the file has
    been read, is left out. *)
Definition handleFileSelect (file : option File) (p : Page) : Page :=
  match validateImageFile file with
  | inr _ =>
      let d := dom p in
      mkPage (mkState file (selectedLanguage (st p)))
        (mkDom false (resultsContainer_display d) (toxicityScore_text d)
           (toxicityScore_class d) (extractedText d)
           (confidenceBar_width d) (confidenceBar_text d))
        (showToast "Image loaded successfully" "success" (env p))
        (calls p)
  | inl error => with_env (showToast (message error) "error") p
  end.

(** [calculateToxicityScore(data)], as a function of the number
    [Math.random()] returns. *)
Definition calculateToxicityScore (random : number) : number :=
  add (Math_floor (mul random (Fin 40))) (Fin 20).

(** [displayResults(data)]. The bar takes the new width when the text
    assigned is a width in CSS and keeps its width otherwise. *)
Definition displayResults (random : number) (d : Data) (p : Page) : Page :=
  let toxicityScore := calculateToxicityScore random in
  let confidence :=
    Math_round (mul (toNumber (or_else (confidence d) (VNum (Fin 0)))) (Fin 100)) in
  mkPage (st p)
    (mkDom (scanBtn_disabled (dom p)) "block" (VNum toxicityScore)
       ("score-badge " ++ getScoreClass (VNum (sub (Fin 100) toxicityScore)))
       (or_else (raw_text d) (VStr "No text detected"))
       (if Css.is_percentage confidence then confidence else confidenceBar_width (dom p))
       confidence)
    (env p) (calls p).

(** The [catch] and [finally] clauses of [scanProduct]. *)
Definition scanProduct_catch (error : JsError) (p : Page) : Page :=
  with_env (fun e => hideLoading
                       (showToast ("Scan failed: " ++ message error) "error"
                          (console_error "Scan error:" e))) p.

(** [scanProduct()], as a function of what the extract-text call settles
    to and of the random number drawn if results are displayed. *)
Definition scanProduct (random : number) (settled : outcome (option ScanResult)) (p : Page) : Page :=
  match selectedFile (st p) with
  | None => with_env (showToast "Please select an image first" "warning") p
  | Some file =>
      let p1 := mkPage (st p) (dom p) (showLoading (env p))
                  (calls p ++ [ExtractText file (selectedLanguage (st p))]) in
      match settled with
      | Resolved (Some result) =>
          match truthy (success result), data result with
          | true, Some d =>
              with_env (fun e => hideLoading (showToast "Scan completed successfully" "success" e))
                (displayResults random d p1)
          | _, _ =>
              let text :=
                match scan_message result with
                | Some m => if String.eqb m "" then "No text detected" else m
                | None => "No text detected"
                end in
              with_env (fun e => hideLoading (showToast text "warning" e)) p1
          end
      | Resolved None => scanProduct_catch (TypeError_null "success") p1
      | Rejected error => scanProduct_catch error p1
      end
  end.

(** The page rendered anew by the router: the component keeps its
    fields. *)
Definition rerender (p : Page) : Page := mkPage (st p) render (env p) (calls p).

Inductive Op : Type :=
| SelectFile (file : option File)
| SelectLanguage (value : string)
| ClickScan (random : number) (settled : outcome (option ScanResult))
| Rerender.

(** A click on the scan button reaches [scanProduct] only while the
    button is enabled. *)
Definition op_step (p : Page) (op : Op) : Page :=
  match op with
  | SelectFile file => handleFileSelect file p
  | SelectLanguage value => selectLanguage value p
  | ClickScan random settled =>
      if scanBtn_disabled (dom p) then p else scanProduct random settled p
  | Rerender => rerender p
  end.

End OCR.

(** ** [app.js], continued: the listeners of the controller *)

Module AppEvents.
Import Err App.

(** The [popstate] listener: [e.state && e.state.page]. [None] is a
    missing state or a state without a page. *)
Definition popstate (state : option string) (a : Nav) : Completion :=
  match state with
  | Some page => if String.eqb page "" then Normal a else loadPage page a
  | None => Normal a
  end.

(** The [click] listener on a link of class [nav-link], given the [href]
    attribute of the target ([None] when it has none). *)
Definition click (href : option string) (a : Nav) : Completion :=
  match href with
  | Some (String "#" page) => navigate page a
  | _ => Normal a
  end.

(** The controller as constructed, over the links of the document as
    its markup has them. *)
Definition constructed (links : list (string * bool)) : Nav :=
  mkNav "home" links None [] [] (0, 0).

(** [init()], the status check aside. *)
Definition init (a : Nav) : Completion := navigate "home" a.

Inductive NavEvent : Type :=
| Click (href : option string)
| PopState (state : option string)
| Navigate (page : string)
| LoadPage (page : string).

Definition handle (ev : NavEvent) (a : Nav) : Completion :=
  match ev with
  | Click href => click href a
  | PopState state => popstate state a
  | Navigate page => navigate page a
  | LoadPage page => loadPage page a
  end.

(** The state a call leaves behind, whether it returned or threw. *)
Definition left_behind (c : Completion) : Nav :=
  match c with Normal a => a | Throw _ a => a end.

(** The document after a series of events, each handled to its end. *)
Definition nav_run (evs : list NavEvent) (a : Nav) : Nav :=
  fold_left (fun a ev => left_behind (handle ev a)) evs a.

End AppEvents.

(* ===================================================================== *)
(** * Part II: vocabulary of the properties                               *)
(* ===================================================================== *)

Import JS Err.

(** ** Risk banding in [displayResults] *)

(** The score [displayResults] shows for a response. *)
Definition displayed_score (response : Voice.RespondResult) : jsval :=
  or_else (Voice.total_score response) (VNum (Fin 0)).

(** The badge class and the alert class on the page. *)
Definition badge_class (p : Voice.Page) : string :=
  Voice.screeningScore_class (Voice.dom p).

Definition alert_class_of (p : Voice.Page) : option string :=
  option_map Voice.alert_class (Voice.screeningRecommendations (Voice.dom p)).

(** A [complete] reply with the given [total_score] and nothing else. *)
Definition respond_complete (score : jsval) : Voice.RespondResult :=
  {| Voice.status := VStr "complete";
     Voice.next_question := None;
     Voice.current_question_number := VUndefined;
     Voice.total_questions := VUndefined;
     Voice.total_score := score;
     Voice.risk_level := VUndefined;
     Voice.recommendation := VUndefined |}.

(** Badge and alert class after such a reply on the fresh page. *)
Definition shown_classes (score : jsval) : string * option string :=
  let p := Voice.displayResults (respond_complete score) Voice.page0 in
  (badge_class p, alert_class_of p).

(** ** A missing score *)

(** The reply [r] with its [total_score] replaced. *)
Definition set_total_score (v : jsval) (r : Voice.RespondResult) : Voice.RespondResult :=
  {| Voice.status := Voice.status r;
     Voice.next_question := Voice.next_question r;
     Voice.current_question_number := Voice.current_question_number r;
     Voice.total_questions := Voice.total_questions r;
     Voice.total_score := v;
     Voice.risk_level := Voice.risk_level r;
     Voice.recommendation := Voice.recommendation r |}.

(** The text of the score badge after a [complete] reply on the fresh
    page. *)
Definition shown_score (score : jsval) : list Voice.piece :=
  Voice.screeningScore_text
    (Voice.dom (Voice.displayResults (respond_complete score) Voice.page0)).

(** ** Progress display *)

(** The three progress texts on the page. *)
Definition progress_fields (d : Voice.Dom) : list Voice.piece * list Voice.piece * list Voice.piece :=
  (Voice.screeningProgress_width d, Voice.screeningProgress_text d, Voice.progressText d).

(** The caption "Question [current] of [total]". *)
Definition caption (current total : jsval) : list Voice.piece :=
  [Voice.Lit "Question "; Voice.Val current; Voice.Lit " of "; Voice.Val total].

(** The percentage [current / total * 100]. *)
Definition percentage (current total : jsval) : number :=
  mul (div (toNumber current) (toNumber total)) (Fin 100).

(** A percentage that makes a width in CSS: a number, and not a negative
    one. *)
Definition makes_width (pct : number) : Prop :=
  match pct with
  | Fin q => (0 <= q)%Q
  | NegZero => True
  | _ => False
  end.

(** The progress shown on [after] is the one of [current] and [total]:
    the label is the rounded percentage and the caption names the two;
    the bar has the percentage for its width when that makes a width, and
    otherwise the width it had on [before]. *)
Definition progress_of (current total : jsval) (before after : Voice.Dom) : Prop :=
  let pct := percentage current total in
  Voice.screeningProgress_text after = [Voice.Val (VNum (Math_round pct)); Voice.Lit "%"] /\
  Voice.progressText after = caption current total /\
  (makes_width pct ->
     Voice.screeningProgress_width after = [Voice.Val (VNum pct); Voice.Lit "%"]) /\
  (~ makes_width pct ->
     Voice.screeningProgress_width after = Voice.screeningProgress_width before).

(** A start result whose first question carries [number], out of
    [total] questions. *)
Definition start_result (number total : Z) : Voice.StartResult :=
  {| Voice.session_id := VStr "session-1";
     Voice.current_question :=
       Some {| Voice.q_number := VNum (Fin (inject_Z number));
               Voice.q_text := VStr "How have you felt?" |};
     Voice.start_total_questions := VNum (Fin (inject_Z total)) |}.

(** A [next_question] reply. *)
Definition respond_next (number current total : Z) : Voice.RespondResult :=
  {| Voice.status := VStr "next_question";
     Voice.next_question :=
       Some {| Voice.q_number := VNum (Fin (inject_Z number));
               Voice.q_text := VStr "And since then?" |};
     Voice.current_question_number := VNum (Fin (inject_Z current));
     Voice.total_questions := VNum (Fin (inject_Z total));
     Voice.total_score := VUndefined;
     Voice.risk_level := VUndefined;
     Voice.recommendation := VUndefined |}.

(** A transcription. *)
Definition stt_yes : Voice.SttResult :=
  {| Voice.stt_text := VStr "yes"; Voice.stt_confidence := VNum (Fin (9 # 10)) |}.

(** ** Failures in the voice flow *)

(** The toast an error of type [error] shows. *)
Definition error_toast (msg : string) : Utils.Toast :=
  {| Utils.toast_message := msg;
     Utils.toast_classes := ["toast"; "bg-danger"; "text-white"] |}.

(** A turn fails when the transcription call is rejected or answers
    [null], or when the respond call does after a transcription. *)
Inductive turn_fails :
    outcome (option Voice.SttResult) -> outcome (option Voice.RespondResult) ->
    JsError -> Prop :=
| stt_rejected e reply : turn_fails (Rejected e) reply e
| stt_null reply : turn_fails (Resolved None) reply (TypeError_null "text")
| respond_rejected stt e : turn_fails (Resolved (Some stt)) (Rejected e) e
| respond_null stt : turn_fails (Resolved (Some stt)) (Resolved None) (TypeError_null "status").

(** What [fetch] rejects with when the network is down. *)
Definition network_error : JsError := mkError "TypeError" "Failed to fetch".

(** The idle state of the voice page: no session is held, the start
    button is offered and neither the question panel nor the results are
    shown. *)
Definition idle (p : Voice.Page) : Prop :=
  Voice.sessionId (Voice.st p) = VNull /\
  Voice.currentScreening (Voice.st p) = None /\
  Voice.startScreeningBtn_display (Voice.dom p) <> "none" /\
  Voice.screeningInterface_display (Voice.dom p) = "none" /\
  Voice.screeningResults_display (Voice.dom p) = "none".

(** ** Recorders under overlapping gestures *)

(** Two clicks on the record button before the microphone prompt is
    answered, then both prompts granted. *)
Definition double_click : list Voice.Event :=
  [Voice.ClickRecord; Voice.ClickRecord;
   Voice.Complete 0 Voice.MicGranted; Voice.Complete 0 Voice.MicGranted].

(** ** Navigation *)

(** The controller after [init]: the home page loaded, five links. *)
Definition nav0 : App.Nav :=
  App.mkNav "home"
    [("#home", true); ("#ocr", false); ("#alternatives", false);
     ("#voice", false); ("#notifications", false)]
    (Some App.HomeComponent) [App.HomeComponent] ["home"] (0, 0).

(** The page [loadPage] settles on. *)
Definition target (page : string) : string :=
  match App.components !! page with Some _ => page | None => "home" end.

(** ** Validation in the alternatives search *)

(** The toast a message of type [warning] shows. *)
Definition warning_toast (msg : string) : Utils.Toast :=
  {| Utils.toast_message := msg; Utils.toast_classes := ["toast"; "bg-warning"] |}.

(** The scores the search lets through: the numbers from 0 to 100, the
    negative zero among them. *)
Definition in_range (score : number) : Prop :=
  match score with
  | Fin s => (0 <= s)%Q /\ (s <= 100)%Q
  | NegZero => True
  | _ => False
  end.

(** The inputs the search turns away: no category, or a score that is not
    a number, not finite, below 0 or above 100. *)
Definition turned_away (category : string) (score : number) : Prop :=
  category = "" \/
  match score with
  | Fin s => (s < 0)%Q \/ (100 < s)%Q
  | NegZero => False
  | _ => True
  end.

(** The value of the decimal literal a text starts with, as typed: before
    it is rounded to a double. *)
Definition typed_value (text : string) : option Q :=
  match take_decimal (skip_space (list_ascii_of_string text)) with
  | Some (Decimal false mv, _) => Some mv
  | Some (Decimal true mv, _) => Some (- mv)%Q
  | _ => None
  end.

(** The alternatives page with the given category selected and the given
    text in the score field. *)
Definition search_page (category score : string) : Alternatives.Page :=
  Alternatives.mkPage
    (Alternatives.mkState (Some (Alternatives.Entries [])) "")
    (Alternatives.mkDom category score "" "kerala" [] "none" [] "none")
    Utils.env0.

(** The requests a search on that page issues. *)
Definition sent (category score : string) : list Api.ApiCall :=
  Utils.requests
    (Alternatives.env (Alternatives.searchAlternatives (Resolved []) (search_page category score))).

(** ** Non-success responses in the API client *)

(** The message a non-success response body supplies: the text found
    under [detail], when there is one. *)
Definition server_message (r : Api.Response) : option string :=
  match Api.resp_body r with
  | Api.Parsed (Api.JObj fields) =>
      match Api.lookup_last "detail" fields None with
      | Some (Api.JStr s) => if String.eqb s "" then None else Some s
      | _ => None
      end
  | _ => None
  end.

(** The reading under which every non-success response fails with the
    server's message when the body supplies one, and otherwise with a
    message that mentions the status code. *)
Definition fails_with_message_or_status (r : Api.Response) (res : outcome Api.json) : Prop :=
  exists e, res = Rejected e /\
    match server_message r with
    | Some m => message e = m
    | None => contains (Zstr (Api.status r)) (message e) = true
    end.

(** Three non-success responses: an HTML error page, a JSON body with a
    [detail], an empty JSON object. *)
Definition html_500 : Api.Response :=
  {| Api.status := 500;
     Api.resp_body :=
       Api.Unparseable (mkError "SyntaxError" "Unexpected token < in JSON at position 0") |}.

Definition not_found_404 : Api.Response :=
  {| Api.status := 404;
     Api.resp_body := Api.Parsed (Api.JObj [("detail", Api.JStr "Session not found")]) |}.

Definition empty_503 : Api.Response :=
  {| Api.status := 503; Api.resp_body := Api.Parsed (Api.JObj []) |}.

(** ** Export of the shopping list *)

(** [n] tenths is the value nearest to the magnitude of [x], the larger
    one when two are equally near. *)
Definition nearest_tenth (x : Q) (n : Z) : Prop :=
  (inject_Z n - (1 # 2) <= Qabs x * inject_Z 10)%Q /\
  (Qabs x * inject_Z 10 < inject_Z n + (1 # 2))%Q.

(** The text of a score to one decimal place: the sign, the integer
    digits of the nearest tenth, a point, and its last digit. *)
Definition one_decimal_place (x : Q) (t : string) : Prop :=
  exists n : Z,
    nearest_tenth x n /\ 0 <= n /\
    String.length (Zstr (n mod 10)) = 1%nat /\
    t = (if Qltb x 0 then "-" else "") ++ Zstr (n / 10) ++ "." ++ Zstr (n mod 10).

(** An element of the list with the text [name] for its name and the
    number [score], of a magnitude below 10^21, for its score. *)
Definition named_and_scored (element : option Alternatives.Item) (row : string * Q) : Prop :=
  exists item,
    element = Some item /\
    Alternatives.name item = VStr (fst row) /\
    Alternatives.hormonal_health_score item = VNum (Fin (snd row)) /\
    (Qabs (snd row) < inject_Z (10 ^ 21))%Q.

(** The line of the export for such an element. *)
Definition line_of (row : string * Q) (line : string) : Prop :=
  exists t, one_decimal_place (snd row) t /\ line = fst row ++ " (Score: " ++ t ++ ")".

(** The number written [72.3] in the source text of a script: the double
    nearest to it. *)
Definition double_72_3 : Q := 5087660204045107 # 70368744177664.

(** The list of A at 72.3 and B at 15.0, and a page holding it. *)
Definition list_A_B : list (option Alternatives.Item) :=
  [Some {| Alternatives.id := VNum (Fin 1); Alternatives.name := VStr "A";
           Alternatives.hormonal_health_score := VNum (Fin double_72_3) |};
   Some {| Alternatives.id := VNum (Fin 2); Alternatives.name := VStr "B";
           Alternatives.hormonal_health_score := VNum (Fin 15) |}].

Definition page_A_B : Alternatives.Page :=
  Alternatives.mkPage
    (Alternatives.mkState (Some (Alternatives.Entries list_A_B)) "cosmetics")
    (Alternatives.mkDom "cosmetics" "45" "" "" [] "none"
       [{| Alternatives.row_name := "A"; Alternatives.row_score := "72.3";
           Alternatives.row_id := "1" |};
        {| Alternatives.row_name := "B"; Alternatives.row_score := "15.0";
           Alternatives.row_id := "2" |}]
       "block")
    Utils.env0.

(** ** Gestures that settle before the next *)

Section Gestures.
Import Voice.

(** A click on the record button whose microphone prompt, if it opens
    one, is answered before anything else happens. *)
Definition settled_toggle (granted : bool) (w : World) : World :=
  step (Complete (length (tasks w)) (if granted then MicGranted else MicDenied))
    (step ClickRecord w).

(** What can happen on the page when no two invocations of
    [startRecording] overlap: a settled click on the record button, a
    click on the start button, a call of [stopRecording], the completion
    of a pending task. *)
Inductive Gesture : Type :=
| Record (granted : bool)
| Start
| Stop
| Settle (i : nat) (c : Completion).

Definition gesture_step (w : World) (g : Gesture) : World :=
  match g with
  | Record granted => settled_toggle granted w
  | Start => step ClickStart w
  | Stop => step CallStopRecording w
  | Settle i c => step (Complete i c) w
  end.

(** Recorder [i] is capturing. *)
Definition capturing (w : World) (i : nat) : Prop :=
  exists r, recorders w !! i = Some r /\ rec_state r = recording.

(** No invocation waits for the microphone, and a capturing recorder is
    the one the component holds while [isRecording] is set. *)
Definition guarded (w : World) : Prop :=
  (AwaitMic ∉ tasks w) /\
  (forall i, capturing w i ->
     isRecording (st (page w)) = true /\ mediaRecorder (st (page w)) = Some i).

End Gestures.

(** ** Helpers of [utils.js] *)

(** What [func] is called with, for a series of invocations and elapsing
    timers: the arguments of the latest invocation, when the timer that
    invocation set elapses. [pending] is that timer with its arguments,
    [n] the number of invocations so far. *)
Fixpoint debounced_calls {A : Type} (evs : list (Helpers.DebounceEvent A))
    (pending : option (nat * A)) (n : nat) : list A :=
  match evs with
  | [] => []
  | Helpers.Invoke args :: rest => debounced_calls rest (Some (n, args)) (S n)
  | Helpers.Elapse id :: rest =>
      match pending with
      | Some (i, args) =>
          if Nat.eqb i id then args :: debounced_calls rest None n
          else debounced_calls rest pending n
      | None => debounced_calls rest None n
      end
  end.

(** The timers set are the pending one, which [timeout] names, and
    identifiers are handed out in order. *)
Definition tracks {A : Type} (d : Helpers.Debounced A) (pending : option (nat * A))
    (n : nat) : Prop :=
  Helpers.next_timer d = n /\
  match pending with
  | Some (i, args) =>
      Helpers.timers d = [(i, args)] /\ Helpers.timeout d = Some i /\ (i < n)%nat
  | None => Helpers.timers d = []
  end.

(** ** The navigation controller over a series of events *)

(** The links are marked for the current page, and the page shown is the
    one registered under the current page, unless that is an inherited
    name. *)
Definition in_step_with (links : list (string * bool)) (a : App.Nav) : Prop :=
  App.nav_links a = App.mark_active (App.currentPage a) links /\
  match App.components !! App.currentPage a with
  | Some c => App.app_content a = Some c
  | None => In (App.currentPage a) App.Object_prototype_keys
  end.

(** The links that carry the class [active]. *)
Definition active_links (a : App.Nav) : list (string * bool) :=
  List.filter snd (App.nav_links a).

(** The document once [init] has run on the controller as constructed. *)
Definition started (links : list (string * bool)) : App.Nav :=
  AppEvents.left_behind (AppEvents.init (AppEvents.constructed links)).

(** ** The screening over several turns *)

(** One turn: the audio recorded and what the two calls settle to. *)
Definition Turn : Type :=
  list nat * outcome (option Voice.SttResult) * outcome (option Voice.RespondResult).

Definition take_turn (p : Voice.Page) (t : Turn) : Voice.Page :=
  match t with (blob, stt, reply) => Voice.processAudio blob stt reply p end.

(** A request of a turn of the session [sid]: a transcription, or an
    answer sent under [sid]. *)
Definition of_session (sid : jsval) (c : Api.ApiCall) : Prop :=
  match c with
  | Api.SpeechToText _ _ => True
  | Api.RespondToScreening s _ _ => s = sid
  | _ => False
  end.

(** The recording fields of the component. *)
Definition recording_fields (s : Voice.State) : option nat * list nat * bool :=
  (Voice.mediaRecorder s, Voice.audioChunks s, Voice.isRecording s).

(** The stream of a recorder is live exactly while it captures. *)
Definition stream_follows (r : Voice.Recorder) : Prop :=
  Voice.tracks_live r = true <-> Voice.rec_state r = Voice.recording.

(** A reply with the given [status], no question, and the numbers 2 of 5. *)
Definition respond_status (status : jsval) : Voice.RespondResult :=
  {| Voice.status := status;
     Voice.next_question := None;
     Voice.current_question_number := VNum (Fin 2);
     Voice.total_questions := VNum (Fin 5);
     Voice.total_score := VUndefined;
     Voice.risk_level := VUndefined;
     Voice.recommendation := VUndefined |}.

(** ** The shopping list on the page *)

(** The row that shows an element: the element is an object with a
    number for its score, and the row carries its name, its score to one
    decimal place and its [id], each as text. *)
Definition shows (element : option Alternatives.Item) (row : Alternatives.Row) : Prop :=
  exists item n,
    element = Some item /\
    Alternatives.hormonal_health_score item = VNum n /\
    row = {| Alternatives.row_name := toString (Alternatives.name item);
             Alternatives.row_score := toFixed1 n;
             Alternatives.row_id := toString (Alternatives.id item) |}.

(** The component holds an array, the rows on the page show its elements
    one by one, and the export button is hidden exactly when the array is
    empty. *)
Definition list_in_step (p : Alternatives.Page) : Prop :=
  exists elements,
    Alternatives.shoppingList (Alternatives.st p) = Some (Alternatives.Entries elements) /\
    Forall2 shows elements (Alternatives.shoppingListContainer (Alternatives.dom p)) /\
    (Alternatives.exportListBtn_display (Alternatives.dom p) = "none" <-> elements = []).

(** A reply the page can show: an array of objects that each have a
    number for their score. *)
Definition renderable (reply : option Alternatives.ListValue) : Prop :=
  exists elements,
    reply = Some (Alternatives.Entries elements) /\
    Forall (fun element =>
              exists item n, element = Some item /\
                             Alternatives.hormonal_health_score item = VNum n)
      elements.

(** An operation whose fetch of the list, if it answers, answers with a
    renderable reply, and, if it renders the page anew, does answer. *)
Definition benign (op : Cart.Op) : Prop :=
  match op with
  | Cart.Add _ _ _ (Resolved reply) => renderable reply
  | Cart.Remove _ _ (Resolved reply) => renderable reply
  | Cart.Reload (Resolved reply) => renderable reply
  | Cart.Rerender (Resolved reply) => renderable reply
  | Cart.Rerender (Rejected _) => False
  | _ => True
  end.

(** A list of two products, as the service sends it. *)
Definition two_products : option Alternatives.ListValue :=
  Some (Alternatives.Entries
          [Some {| Alternatives.id := VNum (Fin 7); Alternatives.name := VStr "Soap";
                   Alternatives.hormonal_health_score := VNum (Fin 88) |};
           Some {| Alternatives.id := VNum (Fin 9); Alternatives.name := VStr "Balm";
                   Alternatives.hormonal_health_score := VNum (Fin (153 # 2)) |}]).

(** The body of an error, arriving where the list was expected. *)
Definition not_a_list : option Alternatives.ListValue :=
  Some (Alternatives.NotArray VUndefined).

(** The toast a message of type [success] shows. *)
Definition success_toast (msg : string) : Utils.Toast :=
  {| Utils.toast_message := msg;
     Utils.toast_classes := ["toast"; "bg-success"; "text-white"] |}.

(** What a mutation of the shopping list leaves behind: after a
    successful mutation the list is fetched again, and the list held is
    the fetched one if that fetch succeeds; after a failed mutation
    nothing is fetched. [mutation] is the call made, [ok] and [failed] the
    messages of the two toasts. *)
Definition mutation_outcome (mutation : Calls.Call) (ok failed : string)
    (done : outcome unit) (fetched : outcome (option Alternatives.ListValue))
    (s s' : Cart.Shop) : Prop :=
  let held s := Alternatives.shoppingList (Alternatives.st (Cart.page s)) in
  let toasts s := Utils.toasts (Alternatives.env (Cart.page s)) in
  Utils.loadingOverlay (Alternatives.env (Cart.page s')) = "none" /\
  match done with
  | Resolved _ =>
      Cart.calls s'
      = (Cart.calls s ++ [mutation; Calls.Base (Api.GetShoppingList Alternatives.USER_ID)])%list /\
      toasts s' = (toasts s ++ [success_toast ok])%list /\
      held s' = match fetched with Resolved reply => reply | Rejected _ => held s end
  | Rejected _ =>
      Cart.calls s' = (Cart.calls s ++ [mutation])%list /\
      toasts s' = (toasts s ++ [error_toast failed])%list /\
      held s' = held s
  end.

(** ** Notifications *)

(** The number of unread notifications. *)
Definition unread (l : list Notifications.Notification) : nat :=
  List.length (List.filter (fun n => negb (Notifications.read n)) l).

(** Position [i] holds the first notification of [l] whose [id] is
    [nid]. *)
Definition first_with (nid : Z) (l : list Notifications.Notification) (i : nat) : Prop :=
  (exists n, l !! i = Some n /\ Notifications.id n = nid) /\
  (forall j m, (j < i)%nat -> l !! j = Some m -> Notifications.id m <> nid).

(** What the list element shows is what the component holds. *)
Definition shows_held (p : Notifications.Page) : Prop :=
  match Notifications.notificationsList p with
  | Notifications.Listed l => l = Notifications.notifications p /\ l <> []
  | Notifications.NoNotifications => Notifications.notifications p = []
  | _ => True
  end.

(** ** The OCR scanner *)

(** A rational that is a double: rounding gives it back. *)
Definition is_double (q : Q) : Prop := Number_value q = Fin (Qred q).

(** The double [0.44999999999999996]. *)
Definition double_0_45_below : Q := 2026619832316723 # 4503599627370496.

(** A file [validateImageFile] lets through. *)
Definition acceptable (f : Helpers.File) : Prop :=
  In (Helpers.file_type f) ["image/jpeg"; "image/png"; "image/webp"] /\
  Helpers.file_size f <= 5242880.

(** An upload, if the call is one, is of an acceptable file. *)
Definition uploads_acceptable (c : Calls.Call) : Prop :=
  match c with
  | Calls.ExtractText f _ => acceptable f
  | _ => True
  end.

(** The selection is an acceptable file if there is one, the scan button
    is enabled only with a selection, and only acceptable files were
    uploaded. *)
Definition scanner_sound (p : OCR.Page) : Prop :=
  (forall f, OCR.selectedFile (OCR.st p) = Some f -> acceptable f) /\
  (OCR.scanBtn_disabled (OCR.dom p) = false -> OCR.selectedFile (OCR.st p) <> None) /\
  Forall uploads_acceptable (OCR.calls p).

(** Two files: a photograph of 1 MB and a PDF. *)
Definition photo : Helpers.File :=
  {| Helpers.file_type := "image/jpeg"; Helpers.file_size := 1048576 |}.

Definition pdf : Helpers.File :=
  {| Helpers.file_type := "application/pdf"; Helpers.file_size := 2048 |}.

(** Two notifications with the same [id], both unread. *)
Definition twins : list Notifications.Notification :=
  [Notifications.mkNotification 5 false "reminder" "First" "a";
   Notifications.mkNotification 5 false "reminder" "Second" "b"].

(* ===================================================================== *)
(** * Part III: properties                                                 *)
(* ===================================================================== *)

(** ** Numbers *)

Lemma Qltb_lt (a b : Q) : Qltb a b = true <-> (a < b)%Q.
Proof.
  unfold Qltb. rewrite negb_true_iff. split.
  - intros H. apply Qnot_le_lt. intros Hle.
    apply Qle_bool_iff in Hle. congruence.
  - intros H. destruct (Qle_bool b a) eqn:E; [|reflexivity].
    apply Qle_bool_iff in E. exfalso. exact (Qlt_not_le _ _ H E).
Qed.

Lemma Qltb_ge (a b : Q) : Qltb a b = false <-> (b <= a)%Q.
Proof.
  unfold Qltb. rewrite negb_false_iff. apply Qle_bool_iff.
Qed.

Lemma lt_lit_Fin (v : jsval) (s : Q) (k : Z) :
  toNumber v = Fin s -> (lt_lit v k = true <-> (s < inject_Z k)%Q).
Proof. intros H. unfold lt_lit. rewrite H. simpl. apply Qltb_lt. Qed.

Lemma lt_lit_Fin_false (v : jsval) (s : Q) (k : Z) :
  toNumber v = Fin s -> (lt_lit v k = false <-> (inject_Z k <= s)%Q).
Proof. intros H. unfold lt_lit. rewrite H. simpl. apply Qltb_ge. Qed.


(** ** Rounding to a double *)

Lemma pow2_pos (e : Z) : (0 < pow2 e)%Q.
Proof. apply Qpower_0_lt. reflexivity. Qed.

Lemma pow2_plus (a b : Z) : (pow2 (a + b) == pow2 a * pow2 b)%Q.
Proof. apply Qpower_plus. discriminate. Qed.

Lemma pow2_le (a b : Z) : a <= b -> (pow2 a <= pow2 b)%Q.
Proof. intros H. apply Qpower_le_compat_l; [exact H|discriminate]. Qed.

Lemma pow2_lt (a b : Z) : a < b -> (pow2 a < pow2 b)%Q.
Proof. intros H. apply Qpower_lt_compat_l; [exact H|reflexivity]. Qed.

Lemma pow2_Z (e : Z) : 0 <= e -> (pow2 e == inject_Z (2 ^ e))%Q.
Proof. intros H. unfold pow2. rewrite (Zpower_Qpower 2 e H). reflexivity. Qed.

Lemma inject_Z_pos (z : Z) : 0 < z -> (0 < inject_Z z)%Q.
Proof. intros H. change 0%Q with (inject_Z 0). now rewrite <- Zlt_Qlt. Qed.

Lemma ilog2_spec (a : Q) :
  (0 < a)%Q -> (pow2 (ilog2 a) <= a)%Q /\ (a < pow2 (ilog2 a + 1))%Q.
Proof.
  intros Ha. unfold ilog2.
  destruct a as [n d]. unfold Qlt in Ha. simpl in Ha. rewrite Z.mul_1_r in Ha.
  simpl Qnum. simpl Qden.
  set (la := Z.log2 n). set (ld := Z.log2 (Z.pos d)).
  destruct (Z.log2_spec n Ha) as [Hn1 Hn2]. fold la in Hn1, Hn2.
  destruct (Z.log2_spec (Z.pos d) (Pos2Z.is_pos d)) as [Hd1 Hd2]. fold ld in Hd1, Hd2.
  assert (Hla : 0 <= la) by apply Z.log2_nonneg.
  assert (Hld : 0 <= ld) by apply Z.log2_nonneg.
  assert (Hq : (n # d == inject_Z n / inject_Z (Z.pos d))%Q) by apply Qmake_Qdiv.
  assert (Hdpos : (0 < inject_Z (Z.pos d))%Q) by (apply inject_Z_pos; lia).
  assert (HA : (pow2 (la - ld - 1) <= n # d)%Q).
  { replace (la - ld - 1) with (la - (ld + 1)) by lia.
    unfold pow2. rewrite Qpower_minus by discriminate.
    fold (pow2 la). fold (pow2 (ld + 1)).
    rewrite (pow2_Z la Hla), (pow2_Z (ld + 1)) by lia.
    rewrite Hq.
    assert (Hp : (0 < inject_Z (2 ^ (ld + 1)))%Q) by (apply inject_Z_pos; lia).
    apply Qle_shift_div_l; [exact Hdpos|].
    apply Qle_shift_div_r with (b := inject_Z (2 ^ (ld + 1))) (a := (inject_Z (2 ^ la) * inject_Z (Z.pos d))%Q) (c := inject_Z n) in Hp.
    - unfold Qdiv in *. lra.
    - rewrite <- !inject_Z_mult, <- Zle_Qle. change (Z.succ ld) with (ld + 1) in Hd2. nia. }
  assert (HB : (n # d < pow2 (la - ld + 1))%Q).
  { replace (la - ld + 1) with (la + 1 - ld) by lia.
    unfold pow2. rewrite Qpower_minus by discriminate.
    fold (pow2 ld). fold (pow2 (la + 1)).
    rewrite (pow2_Z ld Hld), (pow2_Z (la + 1)) by lia.
    rewrite Hq.
    assert (Hp : (0 < inject_Z (2 ^ ld))%Q) by (apply inject_Z_pos; lia).
    apply Qlt_shift_div_r; [exact Hdpos|].
    assert (E : (inject_Z (2 ^ (la + 1)) / inject_Z (2 ^ ld) * inject_Z (Z.pos d)
                 == inject_Z (2 ^ (la + 1)) * inject_Z (Z.pos d) / inject_Z (2 ^ ld))%Q).
    { field. intros Hc. rewrite Hc in Hp. exact (Qlt_irrefl _ Hp). }
    rewrite E. apply Qlt_shift_div_l; [exact Hp|].
    rewrite <- !inject_Z_mult, <- Zlt_Qlt. change (Z.succ la) with (la + 1) in Hn2. nia. }
  destruct (Qle_bool (pow2 (la - ld)) (n # d)) eqn:E.
  - apply Qle_bool_iff in E. split; [exact E|exact HB].
  - split; [exact HA|].
    replace (la - ld - 1 + 1) with (la - ld) by lia.
    apply Qnot_le_lt. intros Hc. apply Qle_bool_iff in Hc. congruence.
Qed.

Lemma ilog2_mono (a b : Q) : (0 < a)%Q -> (a <= b)%Q -> ilog2 a <= ilog2 b.
Proof.
  intros Ha Hab.
  assert (Hb : (0 < b)%Q) by lra.
  destruct (ilog2_spec a Ha) as [Ha1 _].
  destruct (ilog2_spec b Hb) as [_ Hb2].
  destruct (Z_le_gt_dec (ilog2 a) (ilog2 b)) as [H|H]; [exact H|exfalso].
  assert (Hp : (pow2 (ilog2 b + 1) <= pow2 (ilog2 a))%Q) by (apply pow2_le; lia).
  lra.
Qed.

Lemma round_half_even_cases (x : Q) :
  round_half_even x = Qfloor x \/ round_half_even x = Qfloor x + 1.
Proof.
  unfold round_half_even.
  destruct (x - inject_Z (Qfloor x) ?= 1 # 2)%Q; [|auto|auto].
  destruct (Z.even (Qfloor x)); auto.
Qed.

Lemma round_half_even_mono (x y : Q) : (x <= y)%Q -> round_half_even x <= round_half_even y.
Proof.
  intros H.
  pose proof (Qfloor_resp_le x y H) as Hf.
  destruct (Z.eq_dec (Qfloor x) (Qfloor y)) as [E|E].
  - unfold round_half_even. rewrite <- E.
    destruct (x - inject_Z (Qfloor x) ?= 1 # 2)%Q eqn:Ex;
      destruct (y - inject_Z (Qfloor x) ?= 1 # 2)%Q eqn:Ey;
      try (destruct (Z.even (Qfloor x))); try lia; exfalso;
      first [apply (proj2 (Qeq_alt _ _)) in Ex | apply (proj2 (Qlt_alt _ _)) in Ex
            | apply (proj2 (Qgt_alt _ _)) in Ex];
      first [apply (proj2 (Qeq_alt _ _)) in Ey | apply (proj2 (Qlt_alt _ _)) in Ey
            | apply (proj2 (Qgt_alt _ _)) in Ey];
      lra.
  - destruct (round_half_even_cases x) as [-> | ->];
      destruct (round_half_even_cases y) as [-> | ->]; lia.
Qed.

Lemma round_half_even_Z (n : Z) : round_half_even (inject_Z n) = n.
Proof.
  unfold round_half_even. rewrite Qfloor_Z.
  assert (H : (inject_Z n - inject_Z n ?= 1 # 2)%Q = Lt) by (apply (proj1 (Qlt_alt _ _)); lra).
  now rewrite H.
Qed.

Lemma round_half_even_ge (n : Z) (x : Q) : (inject_Z n <= x)%Q -> n <= round_half_even x.
Proof. intros H. rewrite <- (round_half_even_Z n). now apply round_half_even_mono. Qed.

Lemma round_half_even_le (n : Z) (x : Q) : (x <= inject_Z n)%Q -> round_half_even x <= n.
Proof. intros H. rewrite <- (round_half_even_Z n). now apply round_half_even_mono. Qed.

Lemma quantum_mono (a b : Q) : (0 < a)%Q -> (a <= b)%Q -> quantum a <= quantum b.
Proof. intros Ha H. unfold quantum. pose proof (ilog2_mono a b Ha H). lia. Qed.

(** [nearest a] is at most the next power of two above [a]'s binade. *)
Lemma nearest_upper (a : Q) : (0 < a)%Q -> (nearest a <= pow2 (quantum a + 53))%Q.
Proof.
  intros Ha. unfold nearest.
  set (e := quantum a).
  destruct (ilog2_spec a Ha) as [_ H2].
  assert (He : ilog2 a + 1 <= e + 53) by (subst e; unfold quantum; lia).
  assert (Hlt : (a < pow2 (e + 53))%Q) by (pose proof (pow2_le _ _ He); lra).
  assert (Hs : (a / pow2 e <= inject_Z (2 ^ 53))%Q).
  { apply Qle_shift_div_r; [apply pow2_pos|].
    rewrite <- (pow2_Z 53) by lia. rewrite <- pow2_plus.
    replace (53 + e) with (e + 53) by lia. lra. }
  apply round_half_even_le in Hs.
  rewrite (pow2_plus e 53), (pow2_Z 53) by lia.
  rewrite (Qmult_comm (pow2 e)).
  apply Qmult_le_compat_r; [|apply Qlt_le_weak, pow2_pos].
  rewrite <- Zle_Qle. exact Hs.
Qed.

Lemma nearest_lower (a : Q) :
  (0 < a)%Q -> -1074 < quantum a -> (pow2 (quantum a + 52) <= nearest a)%Q.
Proof.
  intros Ha Hq. unfold nearest.
  set (e := quantum a) in *.
  destruct (ilog2_spec a Ha) as [H1 _].
  assert (He : ilog2 a = e + 52) by (subst e; unfold quantum in *; lia).
  rewrite He in H1.
  assert (Hs : (inject_Z (2 ^ 52) <= a / pow2 e)%Q).
  { apply Qle_shift_div_l; [apply pow2_pos|].
    rewrite <- (pow2_Z 52) by lia. rewrite <- pow2_plus.
    replace (52 + e) with (e + 52) by lia. exact H1. }
  apply round_half_even_ge in Hs.
  rewrite (pow2_plus e 52), (pow2_Z 52) by lia.
  rewrite (Qmult_comm (pow2 e)).
  apply Qmult_le_compat_r; [|apply Qlt_le_weak, pow2_pos].
  rewrite <- Zle_Qle. exact Hs.
Qed.

Lemma nearest_nonneg (a : Q) : (0 < a)%Q -> (0 <= nearest a)%Q.
Proof.
  intros Ha. unfold nearest.
  apply Qmult_le_0_compat; [|apply Qlt_le_weak, pow2_pos].
  change 0%Q with (inject_Z 0). rewrite <- Zle_Qle.
  apply round_half_even_ge. change (inject_Z 0) with 0%Q.
  apply Qle_shift_div_l; [apply pow2_pos|]. lra.
Qed.

Lemma nearest_mono (a b : Q) : (0 < a)%Q -> (a <= b)%Q -> (nearest a <= nearest b)%Q.
Proof.
  intros Ha Hab.
  assert (Hb : (0 < b)%Q) by lra.
  pose proof (quantum_mono a b Ha Hab) as Hq.
  destruct (Z.eq_dec (quantum a) (quantum b)) as [E|E].
  - unfold nearest. rewrite E.
    apply Qmult_le_compat_r; [|apply Qlt_le_weak, pow2_pos].
    rewrite <- Zle_Qle. apply round_half_even_mono.
    apply Qmult_le_compat_r; [exact Hab|].
    apply Qlt_le_weak, Qinv_lt_0_compat, pow2_pos.
  - pose proof (nearest_upper a Ha) as Hu.
    assert (Hqb : -1074 < quantum b) by (unfold quantum in *; lia).
    pose proof (nearest_lower b Hb Hqb) as Hl.
    assert (Hp : (pow2 (quantum a + 53) <= pow2 (quantum b + 52))%Q) by (apply pow2_le; lia).
    lra.
Qed.

Lemma ilog2_unique (a : Q) (k : Z) :
  (pow2 k <= a)%Q -> (a < pow2 (k + 1))%Q -> ilog2 a = k.
Proof.
  intros H1 H2.
  assert (Ha : (0 < a)%Q) by (pose proof (pow2_pos k); lra).
  destruct (ilog2_spec a Ha) as [G1 G2].
  destruct (Z.lt_trichotomy (ilog2 a) k) as [L|[E|L]]; [exfalso|exact E|exfalso].
  - assert (Hp : (pow2 (ilog2 a + 1) <= pow2 k)%Q) by (apply pow2_le; lia). lra.
  - assert (Hp : (pow2 (k + 1) <= pow2 (ilog2 a))%Q) by (apply pow2_le; lia). lra.
Qed.

Lemma ilog2_comp (a b : Q) : (0 < a)%Q -> (a == b)%Q -> ilog2 a = ilog2 b.
Proof.
  intros Ha E. destruct (ilog2_spec a Ha) as [G1 G2].
  symmetry. apply ilog2_unique; lra.
Qed.

Lemma round_half_even_comp (x y : Q) : (x == y)%Q -> round_half_even x = round_half_even y.
Proof.
  intros E. apply Z.le_antisymm; apply round_half_even_mono; lra.
Qed.

Lemma nearest_comp (a b : Q) : (0 < a)%Q -> (a == b)%Q -> (nearest a == nearest b)%Q.
Proof.
  intros Ha E. unfold nearest, quantum. rewrite (ilog2_comp a b Ha E).
  set (e := Z.max (ilog2 b - 52) (-1074)).
  rewrite (round_half_even_comp (a / pow2 e) (b / pow2 e)); [reflexivity|].
  rewrite E. reflexivity.
Qed.

Lemma Qle_bool_comp (a b c d : Q) : (a == c)%Q -> (b == d)%Q -> Qle_bool a b = Qle_bool c d.
Proof.
  intros E1 E2. destruct (Qle_bool a b) eqn:H1; destruct (Qle_bool c d) eqn:H2; try reflexivity.
  - apply Qle_bool_iff in H1. rewrite E1, E2 in H1. apply Qle_bool_iff in H1. congruence.
  - apply Qle_bool_iff in H2. rewrite <- E1, <- E2 in H2. apply Qle_bool_iff in H2. congruence.
Qed.

Lemma Qeqb0_comp (a b : Q) : (a == b)%Q -> Qeqb0 a = Qeqb0 b.
Proof.
  intros E. unfold Qeqb0.
  destruct (Z.eqb_spec (Qnum a) 0) as [Ha|Ha]; destruct (Z.eqb_spec (Qnum b) 0) as [Hb|Hb];
    try reflexivity; exfalso; unfold Qeq in E; rewrite ?Ha, ?Hb in E; simpl in E.
  - apply Hb. symmetry in E. apply Z.mul_eq_0 in E as [E|E]; [exact E|discriminate].
  - apply Ha. apply Z.mul_eq_0 in E as [E|E]; [exact E|discriminate].
Qed.

Lemma Number_value_comp (x y : Q) : (x == y)%Q -> Number_value x = Number_value y.
Proof.
  intros E. unfold Number_value.
  rewrite (Qcompare_comp x y E 0%Q 0%Q (Qeq_refl 0)).
  destruct (y ?= 0)%Q eqn:C; [reflexivity| |].
  - apply (proj2 (Qlt_alt _ _)) in C.
    assert (Hx : (0 < - x)%Q) by lra.
    assert (En : (nearest (- x) == nearest (- y))%Q) by (apply nearest_comp; [exact Hx|lra]).
    rewrite (Qle_bool_comp _ _ _ _ (Qeq_refl (pow2 1024)) En).
    rewrite (Qeqb0_comp _ _ En).
    destruct (Qle_bool _ _); [reflexivity|].
    destruct (Qeqb0 _); [reflexivity|].
    f_equal. apply Qred_complete. rewrite En. reflexivity.
  - apply (proj2 (Qgt_alt _ _)) in C.
    assert (Hx : (0 < x)%Q) by lra.
    assert (En : (nearest x == nearest y)%Q) by (apply nearest_comp; [exact Hx|lra]).
    rewrite (Qle_bool_comp _ _ _ _ (Qeq_refl (pow2 1024)) En).
    destruct (Qle_bool _ _); [reflexivity|].
    f_equal. apply Qred_complete. exact En.
Qed.

(** A value between 0 and [b] rounds to a number between 0 and what [b]
    rounds to. *)
Lemma Number_value_upto (x b : Q) :
  (0 <= x)%Q -> (x <= b)%Q -> (0 < b)%Q -> (nearest b < pow2 1024)%Q ->
  exists p, Number_value x = Fin p /\ (0 <= p)%Q /\ (p <= nearest b)%Q.
Proof.
  intros H0 Hb Hpos Hfin. unfold Number_value.
  destruct (x ?= 0)%Q eqn:C.
  - exists 0%Q. split; [reflexivity|]. split; [lra|]. apply nearest_nonneg, Hpos.
  - apply (proj2 (Qlt_alt _ _)) in C. lra.
  - apply (proj2 (Qgt_alt _ _)) in C.
    pose proof (nearest_mono x b C Hb) as Hm.
    pose proof (nearest_nonneg x C) as Hn.
    destruct (Qle_bool (pow2 1024) (nearest x)) eqn:E.
    + apply Qle_bool_iff in E. lra.
    + exists (Qred (nearest x)). split; [reflexivity|].
      rewrite Qred_correct. split; assumption.
Qed.

(** A double below 1 is at most [1 - 2^-53]. *)
Lemma double_below_one (r : Q) :
  (0 < r)%Q -> (r < 1)%Q -> (nearest r == r)%Q -> (r <= 1 - pow2 (-53))%Q.
Proof.
  intros H0 H1 Hd.
  destruct (ilog2_spec r H0) as [G1 G2].
  assert (Hk : ilog2 r <= -1).
  { destruct (Z_le_gt_dec (ilog2 r) (-1)) as [H|H]; [exact H|exfalso].
    assert (Hp : (pow2 0 <= pow2 (ilog2 r))%Q) by (apply pow2_le; lia).
    change (pow2 0) with 1%Q in Hp. lra. }
  destruct (Z.eq_dec (ilog2 r) (-1)) as [E|E].
  - unfold nearest, quantum in Hd. rewrite E in Hd.
    change (Z.max (-1 - 52) (-1074)) with (-53) in Hd.
    set (m := round_half_even (r / pow2 (-53))) in Hd.
    assert (Hm : m < 2 ^ 53).
    { apply Z.lt_nge. intros Hc.
      assert (Hq : (inject_Z (2 ^ 53) <= inject_Z m)%Q) by (rewrite <- Zle_Qle; exact Hc).
      assert (Hp : (inject_Z (2 ^ 53) * pow2 (-53) == 1)%Q) by reflexivity.
      assert (Hle : (inject_Z (2 ^ 53) * pow2 (-53) <= inject_Z m * pow2 (-53))%Q).
      { apply Qmult_le_compat_r; [exact Hq|apply Qlt_le_weak, pow2_pos]. }
      lra. }
    assert (Hq : (inject_Z m <= inject_Z (2 ^ 53 - 1))%Q) by (rewrite <- Zle_Qle; lia).
    assert (Hle : (inject_Z m * pow2 (-53) <= inject_Z (2 ^ 53 - 1) * pow2 (-53))%Q).
    { apply Qmult_le_compat_r; [exact Hq|apply Qlt_le_weak, pow2_pos]. }
    assert (Hp : (inject_Z (2 ^ 53 - 1) * pow2 (-53) == 1 - pow2 (-53))%Q) by reflexivity.
    lra.
  - assert (Hp : (pow2 (ilog2 r + 1) <= pow2 (-1))%Q) by (apply pow2_le; lia).
    assert (Hh : (pow2 (-1) <= 1 - pow2 (-53))%Q) by (vm_compute; discriminate).
    lra.
Qed.

Lemma is_percentage_makes_width (pct : number) :
  Css.is_percentage pct = true <-> makes_width pct.
Proof.
  destruct pct as [|q| | |]; simpl; try (split; [discriminate|contradiction]);
    [apply Qle_bool_iff|split; auto].
Qed.

(** ** Risk banding in [displayResults] *)

Section Banding.
Import Voice.
Context {A : Type} (a b c : A).
Context (v : jsval) (s : Q) (Hv : toNumber v = Fin s).

Lemma band_low : (s < 10)%Q -> band v a b c = a.
Proof.
  intros H. unfold band.
  destruct (lt_lit v 10) eqn:E; [reflexivity|].
  apply (lt_lit_Fin_false v s 10 Hv) in E. exfalso. exact (Qlt_not_le _ _ H E).
Qed.

Lemma band_medium : (10 <= s)%Q -> (s < 20)%Q -> band v a b c = b.
Proof.
  intros H1 H2. unfold band.
  destruct (lt_lit v 10) eqn:E.
  - apply (lt_lit_Fin v s 10 Hv) in E. exfalso. exact (Qlt_not_le _ _ E H1).
  - destruct (lt_lit v 20) eqn:E2; [reflexivity|].
    apply (lt_lit_Fin_false v s 20 Hv) in E2. exfalso. exact (Qlt_not_le _ _ H2 E2).
Qed.

Lemma band_high : (20 <= s)%Q -> band v a b c = c.
Proof.
  intros H. unfold band.
  assert (H10 : (10 <= s)%Q) by (eapply Qle_trans; [|exact H]; discriminate).
  destruct (lt_lit v 10) eqn:E.
  - apply (lt_lit_Fin v s 10 Hv) in E. exfalso. exact (Qlt_not_le _ _ E H10).
  - destruct (lt_lit v 20) eqn:E2; [|reflexivity].
    apply (lt_lit_Fin v s 20 Hv) in E2. exfalso. exact (Qlt_not_le _ _ E2 H).
Qed.

End Banding.

(** C1. Whenever the score [displayResults] shows has the numeric value
    [s], the score badge and the alert block carry the same band: the
    lowest-risk one for [s < 10], the medium one for [10 <= s < 20], the
    highest one for [20 <= s]; in particular 10 is medium and 20 is
    high. *)
Theorem displayResults_risk_banding :
  forall (response : Voice.RespondResult) (p : Voice.Page) (s : Q),
    toNumber (displayed_score response) = Fin s ->
    let p' := Voice.displayResults response p in
    Voice.screeningScore_text (Voice.dom p') = [Voice.Val (displayed_score response)] /\
    ((s < 10)%Q ->
       badge_class p' = "score-badge score-safe" /\
       alert_class_of p' = Some "alert-success") /\
    ((10 <= s)%Q -> (s < 20)%Q ->
       badge_class p' = "score-badge score-warning" /\
       alert_class_of p' = Some "alert-warning") /\
    ((20 <= s)%Q ->
       badge_class p' = "score-badge score-danger" /\
       alert_class_of p' = Some "alert-danger").
Proof.
  intros response p s Hs p'. subst p'.
  unfold badge_class, alert_class_of, Voice.displayResults; simpl.
  fold (displayed_score response).
  split; [reflexivity|].
  split; [|split].
  - intros H. now rewrite !(band_low _ _ _ _ s Hs H).
  - intros H1 H2. now rewrite !(band_medium _ _ _ _ s Hs H1 H2).
  - intros H. now rewrite !(band_high _ _ _ _ s Hs H).
Qed.

(** The bands at 9, 10, 19 and 20. *)
Lemma displayResults_risk_banding_boundaries :
  shown_classes (VNum (Fin 9)) = ("score-badge score-safe", Some "alert-success") /\
  shown_classes (VNum (Fin 10)) = ("score-badge score-warning", Some "alert-warning") /\
  shown_classes (VNum (Fin 19)) = ("score-badge score-warning", Some "alert-warning") /\
  shown_classes (VNum (Fin 20)) = ("score-badge score-danger", Some "alert-danger").
Proof.
  unfold shown_classes.
  pose proof (displayResults_risk_banding (respond_complete (VNum (Fin 9)))
                Voice.page0 9 eq_refl) as (_ & [L9a L9b] & _ & _); [reflexivity|].
  pose proof (displayResults_risk_banding (respond_complete (VNum (Fin 10)))
                Voice.page0 10 eq_refl) as (_ & _ & M10 & _).
  destruct M10 as [M10a M10b]; [discriminate|reflexivity|].
  pose proof (displayResults_risk_banding (respond_complete (VNum (Fin 19)))
                Voice.page0 19 eq_refl) as (_ & _ & M19 & _).
  destruct M19 as [M19a M19b]; [discriminate|reflexivity|].
  pose proof (displayResults_risk_banding (respond_complete (VNum (Fin 20)))
                Voice.page0 20 eq_refl) as (_ & _ & _ & H20).
  destruct H20 as [H20a H20b]; [discriminate|].
  rewrite L9a, L9b, M10a, M10b, M19a, M19b, H20a, H20b. repeat split.
Defined.

(** ** A missing score *)

(** C10. When [total_score] is absent, [null] or any other falsy value,
    the page shows the score 0 with the lowest-risk badge and alert, and
    it is the very page a score of 0 produces. *)
Theorem displayResults_falsy_score_is_zero :
  forall (response : Voice.RespondResult) (p : Voice.Page),
    truthy (Voice.total_score response) = false ->
    let p' := Voice.displayResults response p in
    Voice.screeningScore_text (Voice.dom p') = [Voice.Val (VNum (Fin 0))] /\
    badge_class p' = "score-badge score-safe" /\
    alert_class_of p' = Some "alert-success" /\
    p' = Voice.displayResults (set_total_score (VNum (Fin 0)) response) p.
Proof.
  intros response p H p'. subst p'.
  unfold badge_class, alert_class_of, Voice.displayResults, or_else; simpl.
  rewrite H. repeat split.
Qed.

(** Absent, [null], [false], [0], [NaN] and the empty string alike. *)
Lemma displayResults_falsy_score_is_zero_witness :
  Forall (fun v =>
            truthy v = false /\
            shown_score v = [Voice.Val (VNum (Fin 0))] /\
            shown_classes v = ("score-badge score-safe", Some "alert-success"))
    [VUndefined; VNull; VBool false; VNum (Fin 0); VNum NaN; VStr ""].
Proof.
  assert (H : forall v, truthy v = false ->
                truthy v = false /\
                shown_score v = [Voice.Val (VNum (Fin 0))] /\
                shown_classes v = ("score-badge score-safe", Some "alert-success")).
  { intros v Hv. split; [exact Hv|].
    unfold shown_score, shown_classes.
    destruct (displayResults_falsy_score_is_zero (respond_complete v) Voice.page0 Hv)
      as (Ht & Hb & Ha & _).
    rewrite Ht, Hb, Ha. split; reflexivity. }
  apply List.Forall_cons; [exact (H VUndefined eq_refl)|].
  apply List.Forall_cons; [exact (H VNull eq_refl)|].
  apply List.Forall_cons; [exact (H (VBool false) eq_refl)|].
  apply List.Forall_cons; [exact (H (VNum (Fin 0)) eq_refl)|].
  apply List.Forall_cons; [exact (H (VNum NaN) eq_refl)|].
  apply List.Forall_cons; [exact (H (VStr "") eq_refl)|].
  apply List.Forall_nil.
Defined.

(** ** Progress display *)

Lemma updateProgress_progress (current total : jsval) (d : Voice.Dom) :
  progress_of current total d (Voice.updateProgress current total d).
Proof.
  unfold progress_of, Voice.updateProgress. fold (percentage current total).
  set (pct := percentage current total).
  cbn [Voice.set_progress Voice.screeningProgress_text Voice.progressText
       Voice.screeningProgress_width].
  split; [reflexivity|]. split; [reflexivity|]. split.
  - intros H. apply is_percentage_makes_width in H. now rewrite H.
  - intros H. destruct (Css.is_percentage pct) eqn:E; [|reflexivity].
    apply is_percentage_makes_width in E. contradiction.
Qed.

(** The progress shown depends on the page before through the width of
    the bar only. *)
Lemma progress_of_before (current total : jsval) (d0 d1 d' : Voice.Dom) :
  Voice.screeningProgress_width d1 = Voice.screeningProgress_width d0 ->
  progress_of current total d1 d' -> progress_of current total d0 d'.
Proof.
  intros E (Ht & Hc & Hw & Hk). unfold progress_of.
  split; [exact Ht|]. split; [exact Hc|]. split; [exact Hw|].
  intros H. rewrite <- E. apply Hk, H.
Qed.

Lemma displayQuestion_progress (q : option Voice.Question) (d : Voice.Dom) :
  progress_fields (Voice.displayQuestion q d) = progress_fields d.
Proof. destruct q; reflexivity. Qed.

Lemma displayQuestion_width (q : option Voice.Question) (d : Voice.Dom) :
  Voice.screeningProgress_width (Voice.displayQuestion q d) = Voice.screeningProgress_width d.
Proof. destruct q; reflexivity. Qed.

(** At the start of a screening the caption does not show the question
    number the service sent: for a first question numbered 2 of 5 the
    question panel says 2 and the progress caption says 1. *)
Lemma startScreening_current_is_not_the_servers :
  let p := Voice.startScreening (Resolved (Some (start_result 2 5))) Voice.page0 in
  Voice.currentQuestion (Voice.dom p) =
    [Voice.Lit "<strong>Question "; Voice.Val (VNum (Fin 2));
     Voice.Lit ":</strong><br>"; Voice.Val (VStr "How have you felt?")] /\
  Voice.progressText (Voice.dom p) = caption (VNum (Fin 1)) (VNum (Fin 5)) /\
  Voice.progressText (Voice.dom p) <> caption (VNum (Fin 2)) (VNum (Fin 5)).
Proof.
  intros p. split; [reflexivity|]. split; [reflexivity|].
  change (Voice.progressText (Voice.dom p)) with (caption (VNum (Fin 1)) (VNum (Fin 5))).
  unfold caption. intros H. discriminate H.
Qed.

(** C9, amended. The progress shown is [current / total]: after a
    successful start with [current] the constant 1 and [total] the count
    in the start result; after every [next_question] reply with both
    taken from that reply. In neither case does it depend on what the
    component held before, nor on what the page showed, except that the
    bar keeps its width when the percentage does not make one. *)
Theorem progress_sources :
  (forall (result : Voice.StartResult) (p : Voice.Page),
     progress_of (VNum (Fin 1)) (Voice.start_total_questions result)
       (Voice.dom p)
       (Voice.dom (Voice.startScreening (Resolved (Some result)) p))) /\
  (forall (blob : list nat) (stt : Voice.SttResult) (response : Voice.RespondResult)
          (p : Voice.Page),
     Voice.status response = VStr "next_question" ->
     progress_of (Voice.current_question_number response) (Voice.total_questions response)
       (Voice.dom p)
       (Voice.dom (Voice.processAudio blob (Resolved (Some stt)) (Resolved (Some response)) p))).
Proof.
  split.
  - intros result p.
    unfold Voice.startScreening, Voice.startScreening_resume.
    cbn [Voice.dom Voice.startScreening_begin Voice.with_env].
    eapply progress_of_before; [|apply updateProgress_progress].
    rewrite displayQuestion_width. reflexivity.
  - intros blob stt response p Hst.
    unfold Voice.processAudio, Voice.processAudio_transcribed, Voice.processAudio_begin,
      Voice.processAudio_responded.
    cbn [Voice.with_env Voice.st Voice.dom Voice.env].
    rewrite Hst.
    cbn [Voice.is_string String.eqb Ascii.eqb Bool.eqb Voice.with_dom Voice.with_env
         Voice.dom Voice.st Voice.env].
    eapply progress_of_before; [|apply updateProgress_progress].
    rewrite displayQuestion_width. reflexivity.
Qed.

(** A start with five questions shows 20%, and the reply "3 of 5" then
    shows 60%, whatever was shown before. *)
Lemma progress_sources_witness :
  let p1 := Voice.startScreening (Resolved (Some (start_result 1 5))) Voice.page0 in
  let p2 := Voice.processAudio [0%nat] (Resolved (Some stt_yes))
              (Resolved (Some (respond_next 3 3 5))) p1 in
  progress_fields (Voice.dom p1)
  = ([Voice.Val (VNum (Fin 20)); Voice.Lit "%"],
     [Voice.Val (VNum (Fin 20)); Voice.Lit "%"],
     caption (VNum (Fin 1)) (VNum (Fin 5))) /\
  progress_fields (Voice.dom p2)
  = ([Voice.Val (VNum (Fin 60)); Voice.Lit "%"],
     [Voice.Val (VNum (Fin 60)); Voice.Lit "%"],
     caption (VNum (Fin 3)) (VNum (Fin 5))).
Proof.
  intros p1 p2.
  assert (E1 : percentage (VNum (Fin 1)) (VNum (Fin 5)) = Fin 20) by (vm_compute; reflexivity).
  assert (E2 : percentage (VNum (Fin 3)) (VNum (Fin 5)) = Fin 60) by (vm_compute; reflexivity).
  destruct (proj1 progress_sources (start_result 1 5) Voice.page0) as (Ht1 & Hc1 & Hw1 & _).
  destruct (proj2 progress_sources [0%nat] stt_yes (respond_next 3 3 5) p1 eq_refl)
    as (Ht2 & Hc2 & Hw2 & _).
  fold p1 in Ht1, Hc1, Hw1. fold p2 in Ht2, Hc2, Hw2.
  change (Voice.start_total_questions (start_result 1 5)) with (VNum (Fin 5)) in Ht1, Hc1, Hw1.
  change (Voice.current_question_number (respond_next 3 3 5)) with (VNum (Fin 3))
    in Ht2, Hc2, Hw2.
  change (Voice.total_questions (respond_next 3 3 5)) with (VNum (Fin 5)) in Ht2, Hc2, Hw2.
  rewrite E1 in Ht1, Hw1. rewrite E2 in Ht2, Hw2.
  unfold progress_fields.
  rewrite Ht1, Hc1, Ht2, Hc2, Hw1, Hw2 by (simpl; discriminate).
  split; reflexivity.
Defined.

(** ** Failures in the voice flow *)

Lemma last_toast_snoc (ts : list Utils.Toast) (t : Utils.Toast) :
  List.last (List.map Some (ts ++ [t])) None = Some t.
Proof.
  rewrite List.map_app. simpl. apply List.last_last.
Qed.

(** C6. When a turn fails, [processAudio] ends with an error toast that
    carries the failure's message and with the loading overlay hidden;
    the fields of the component (among them [sessionId] and
    [currentScreening]) are what they were, the question panel shows what
    it showed, and the layout and progress of the screening interface
    are untouched, so that recording can be tried again. *)
Theorem processAudio_failure_keeps_session :
  forall (blob : list nat) (stt : outcome (option Voice.SttResult))
         (reply : outcome (option Voice.RespondResult)) (e : JsError) (p : Voice.Page),
    turn_fails stt reply e ->
    let p' := Voice.processAudio blob stt reply p in
    Utils.last_toast (Voice.env p')
      = Some (error_toast ("Failed to process audio: " ++ message e)) /\
    Utils.loadingOverlay (Voice.env p') = "none" /\
    Voice.st p' = Voice.st p /\
    Voice.sessionId (Voice.st p') = Voice.sessionId (Voice.st p) /\
    Voice.currentScreening (Voice.st p') = Voice.currentScreening (Voice.st p) /\
    Voice.currentQuestion (Voice.dom p') = Voice.currentQuestion (Voice.dom p) /\
    Voice.screeningInterface_display (Voice.dom p')
      = Voice.screeningInterface_display (Voice.dom p) /\
    Voice.screeningResults_display (Voice.dom p')
      = Voice.screeningResults_display (Voice.dom p) /\
    progress_fields (Voice.dom p') = progress_fields (Voice.dom p).
Proof.
  intros blob stt reply e p H p'. subst p'.
  destruct H; unfold Voice.processAudio; simpl;
    unfold Utils.last_toast; simpl; rewrite last_toast_snoc;
    repeat split; reflexivity.
Qed.

(** After a started screening, a failed transcription and then a failed
    reply both leave session and question in place. *)
Lemma processAudio_failure_keeps_session_witness :
  let p1 := Voice.startScreening (Resolved (Some (start_result 1 5))) Voice.page0 in
  let p2 := Voice.processAudio [0%nat] (Rejected network_error) (Rejected network_error) p1 in
  let p3 := Voice.processAudio [1%nat] (Resolved (Some stt_yes))
              (Rejected (Error "Request timeout")) p2 in
  Voice.sessionId (Voice.st p3) = VStr "session-1" /\
  Voice.currentQuestion (Voice.dom p3) = Voice.currentQuestion (Voice.dom p1) /\
  Utils.loadingOverlay (Voice.env p3) = "none" /\
  Utils.last_toast (Voice.env p3)
    = Some (error_toast "Failed to process audio: Request timeout").
Proof.
  intros p1 p2 p3.
  destruct (processAudio_failure_keeps_session [0%nat] _ (Rejected network_error) _ p1
              (stt_rejected network_error _))
    as (_ & _ & _ & Hs2 & _ & Hq2 & _).
  destruct (processAudio_failure_keeps_session [1%nat] _ _ _ p2
              (respond_rejected stt_yes (Error "Request timeout")))
    as (Ht & Hl & _ & Hs3 & _ & Hq3 & _).
  fold p2 in Hs2, Hq2. fold p3 in Ht, Hl, Hs3, Hq3.
  rewrite Hs3, Hs2, Hq3, Hq2, Hl, Ht. repeat split.
Defined.

(** A screening is started, the router renders the voice page anew, and
    the start request then fails: the start button is offered and the
    panels are hidden, yet the component still holds the identifier of
    the earlier screening, so that the page is not idle. *)
Lemma startScreening_failure_keeps_held_session :
  let p1 := Voice.startScreening (Resolved (Some (start_result 1 5))) Voice.page0 in
  let p2 := Voice.rerender p1 in
  let p3 := Voice.startScreening (Rejected network_error) p2 in
  Voice.startScreeningBtn_display (Voice.dom p3) <> "none" /\
  Voice.screeningInterface_display (Voice.dom p3) = "none" /\
  Voice.screeningResults_display (Voice.dom p3) = "none" /\
  Utils.last_toast (Voice.env p3)
    = Some (error_toast "Failed to start screening: Failed to fetch") /\
  Voice.sessionId (Voice.st p3) = VStr "session-1" /\
  ~ idle p3.
Proof.
  intros p1 p2 p3.
  split; [discriminate|]. split; [reflexivity|]. split; [reflexivity|].
  split; [reflexivity|]. split; [reflexivity|].
  intros (H & _). discriminate H.
Qed.

(** C7, amended. When the start request fails, an error toast carrying
    the failure's message is shown, the loading overlay is hidden, and
    neither a field of the component nor an element of the page has
    changed: [sessionId] holds what it held, which is no identifier when
    the page was idle, and an idle page is idle again. *)
Theorem startScreening_failure_returns_idle :
  forall (e : JsError) (p : Voice.Page),
    let p' := Voice.startScreening (Rejected e) p in
    Utils.last_toast (Voice.env p')
      = Some (error_toast ("Failed to start screening: " ++ message e)) /\
    Utils.loadingOverlay (Voice.env p') = "none" /\
    Voice.st p' = Voice.st p /\
    Voice.dom p' = Voice.dom p /\
    Voice.sessionId (Voice.st p') = Voice.sessionId (Voice.st p) /\
    Voice.currentScreening (Voice.st p') = Voice.currentScreening (Voice.st p) /\
    (idle p ->
       idle p' /\
       Voice.sessionId (Voice.st p') = VNull /\
       Voice.currentScreening (Voice.st p') = None).
Proof.
  intros e p p'. subst p'.
  split; [|split; [reflexivity|split; [reflexivity|split; [reflexivity|
           split; [reflexivity|split; [reflexivity|]]]]]].
  - unfold Voice.startScreening; simpl. unfold Utils.last_toast; simpl.
    now rewrite last_toast_snoc.
  - intros (H1 & H2 & H3 & H4 & H5).
    split; [|split; assumption].
    unfold idle. repeat split; assumption.
Qed.

Lemma page0_idle : idle Voice.page0.
Proof. unfold idle; simpl. repeat split. discriminate. Qed.

(** A timed-out start on the freshly rendered page. *)
Lemma startScreening_failure_returns_idle_witness :
  let p' := Voice.startScreening (Rejected (Error "Request timeout")) Voice.page0 in
  idle Voice.page0 /\
  idle p' /\
  Voice.sessionId (Voice.st p') = VNull /\
  Utils.last_toast (Voice.env p')
    = Some (error_toast "Failed to start screening: Request timeout").
Proof.
  intros p'. split; [exact page0_idle|].
  destruct (startScreening_failure_returns_idle (Error "Request timeout") Voice.page0)
    as (Ht & _ & _ & _ & _ & _ & Hidle).
  destruct (Hidle page0_idle) as (Hi & Hs & _).
  split; [exact Hi|]. split; [exact Hs | exact Ht].
Defined.

(** ** Recorders under overlapping gestures *)

(** C5, evaluated. After [double_click] two recorders capture audio at the
    same time while the component refers to the second only; a further
    click stops that one and leaves the first capturing, its stream
    live, with [isRecording] false. *)
Theorem double_click_two_active_recorders :
  let w := Voice.run double_click Voice.world0 in
  let w' := Voice.run [Voice.ClickRecord] w in
  Voice.active_recorders w = [0%nat; 1%nat] /\
  Voice.mediaRecorder (Voice.st (Voice.page w)) = Some 1%nat /\
  Voice.active_recorders w' = [0%nat] /\
  Voice.isRecording (Voice.st (Voice.page w')) = false /\
  Voice.recorders w' !! 0%nat
    = Some {| Voice.rec_state := Voice.recording; Voice.tracks_live := true |}.
Proof. vm_compute. repeat split. Qed.

(** The same with [startRecording] called twice, each call running to its
    end before the next. *)
Lemma startRecording_twice_two_active_recorders :
  Voice.active_recorders
    (Voice.run [Voice.CallStartRecording; Voice.Complete 0 Voice.MicGranted;
                Voice.CallStartRecording; Voice.Complete 0 Voice.MicGranted]
       Voice.world0)
  = [0%nat; 1%nat].
Proof. vm_compute. reflexivity. Qed.

(** ** Navigation *)

Lemma get_inherited (page : string) :
  In page App.Object_prototype_keys -> App.get page = Some (App.Inherited page).
Proof.
  unfold App.Object_prototype_keys. simpl.
  intros H.
  repeat (destruct H as [H|H]; [subst page; vm_compute; reflexivity|]).
  destruct H.
Qed.

(** C2, evaluated. A page key that names a property every object inherits
    passes the check of [loadPage], becomes the current page with no link
    active for it, and the call throws when it reaches [render]; nothing
    is rendered and no [init] runs. *)
Theorem loadPage_inherited_key_throws :
  forall (page : string) (a : App.Nav),
    In page App.Object_prototype_keys ->
    exists a',
      App.loadPage page a = App.Throw (TypeError_not_a_function "component.render") a' /\
      App.currentPage a' = page /\
      App.app_content a' = App.app_content a /\
      App.initialised a' = App.initialised a.
Proof.
  intros page a H. unfold App.loadPage.
  rewrite (get_inherited page H). rewrite (get_inherited page H).
  eexists. split; [reflexivity|]. repeat split.
Qed.

(** [loadPage('constructor')] on the home page. *)
Lemma loadPage_inherited_key_throws_witness :
  exists a',
    App.loadPage "constructor" nav0
      = App.Throw (TypeError_not_a_function "component.render") a' /\
    App.currentPage a' = "constructor" /\
    App.app_content a' = Some App.HomeComponent /\
    App.initialised a' = [App.HomeComponent].
Proof.
  apply (loadPage_inherited_key_throws "constructor" nav0).
  simpl. left. reflexivity.
Defined.

Lemma get_registered (page : string) (c : App.Component) :
  App.components !! page = Some c -> App.get page = Some (App.Registered c).
Proof. intros H. unfold App.get. now rewrite H. Qed.

Lemma get_home : App.get "home" = Some (App.Registered App.HomeComponent).
Proof. vm_compute. reflexivity. Qed.

Lemma get_unknown (page : string) :
  App.components !! page = None ->
  existsb (String.eqb page) App.Object_prototype_keys = false ->
  App.get page = None.
Proof. intros H1 H2. unfold App.get. now rewrite H1, H2. Qed.

Lemma mark_active_spec (page href : string) (flag : bool) (links : list (string * bool)) :
  In (href, flag) (App.mark_active page links) ->
  flag = String.eqb href ("#" ++ page).
Proof.
  unfold App.mark_active. rewrite in_map_iff.
  intros ((h, f) & Heq & _). simpl in Heq. now inversion Heq.
Qed.

(** Outside the inherited names [loadPage] does what is intended: a
    registered key is loaded, any other key falls back to ["home"]; the
    component is rendered and initialised, exactly the links to the
    settled page are active, and the window is scrolled to the top. *)
Lemma loadPage_outside_prototype (page : string) (a : App.Nav) :
  existsb (String.eqb page) App.Object_prototype_keys = false ->
  exists c,
    App.components !! target page = Some c /\
    App.loadPage page a =
      App.Normal (App.mkNav (target page) (App.mark_active (target page) (App.nav_links a))
                    (Some c) (App.initialised a ++ [c]) (App.history a) (0, 0)).
Proof.
  intros Hk. unfold target, App.loadPage.
  destruct (App.components !! page) as [c|] eqn:E.
  - exists c. split; [exact E|].
    rewrite (get_registered page c E). rewrite (get_registered page c E). reflexivity.
  - exists App.HomeComponent. split; [vm_compute; reflexivity|].
    rewrite (get_unknown page E Hk). rewrite get_home. reflexivity.
Qed.

(** ** Validation in the alternatives search *)

Lemma score_check_true (score : number) :
  match score with
  | Fin s => (s < 0)%Q \/ (100 < s)%Q
  | NegZero => False
  | _ => True
  end ->
  isNaN score || lt score (Fin 0) || gt score (Fin 100) = true.
Proof.
  destruct score as [|s| | |]; simpl; try reflexivity; [|contradiction].
  intros [H|H].
  - apply Qltb_lt in H. unfold gt, lt. rewrite H. reflexivity.
  - apply Qltb_lt in H. unfold gt, lt. rewrite H. apply orb_true_r.
Qed.

Lemma score_check_false (score : number) :
  in_range score ->
  isNaN score || lt score (Fin 0) || gt score (Fin 100) = false.
Proof.
  destruct score as [|s| | |]; simpl; try contradiction; [|reflexivity].
  intros [H0 H100]. unfold gt, lt.
  apply Qltb_ge in H0. apply Qltb_ge in H100. rewrite H0, H100. reflexivity.
Qed.

(** A text that denotes a value above 100, or below 0, by less than the
    rounding of a double reads as 100, or as the negative zero, and is
    sent. *)
Lemma searchAlternatives_sends_values_typed_outside :
  (exists q, typed_value "100.00000000000000001" = Some q /\ (100 < q)%Q) /\
  sent "cosmetics" "100.00000000000000001"
    = [Api.FindAlternatives "cosmetics" (Fin 100) None (Some "kerala") 10] /\
  (exists q, typed_value "-1e-400" = Some q /\ (q < 0)%Q) /\
  sent "cosmetics" "-1e-400"
    = [Api.FindAlternatives "cosmetics" NegZero None (Some "kerala") 10].
Proof.
  split; [eexists; split; [vm_compute; reflexivity|reflexivity]|].
  split; [vm_compute; reflexivity|].
  split; [eexists; split; [vm_compute; reflexivity|reflexivity]|].
  vm_compute; reflexivity.
Qed.

(** C3, amended. With no category, or with a score field that does not
    read as a number or reads as a number outside [0, 100],
    [searchAlternatives] sends nothing, shows a warning and changes
    nothing else; with a category and a score field that reads as a
    number in [0, 100] it sends exactly one find-alternatives request,
    carrying that category and that number. The number read is the one
    [parseFloat] gives: the double nearest to the value typed. *)
Theorem searchAlternatives_validation :
  forall (settled : outcome (list Alternatives.Alternative)) (p : Alternatives.Page),
    let category := Alternatives.categorySelect (Alternatives.dom p) in
    let score := parseFloat (Alternatives.currentScore (Alternatives.dom p)) in
    let p' := Alternatives.searchAlternatives settled p in
    (turned_away category score ->
       Utils.requests (Alternatives.env p') = Utils.requests (Alternatives.env p) /\
       (exists msg,
          Utils.toasts (Alternatives.env p')
          = (Utils.toasts (Alternatives.env p) ++ [warning_toast msg])%list) /\
       Alternatives.st p' = Alternatives.st p /\
       Alternatives.dom p' = Alternatives.dom p) /\
    (category <> "" -> in_range score ->
       Utils.requests (Alternatives.env p')
       = (Utils.requests (Alternatives.env p) ++
          [Api.FindAlternatives category score
             (Alternatives.value_or_null (Alternatives.pricePreference (Alternatives.dom p)))
             (Alternatives.value_or_null (Alternatives.regionSelect (Alternatives.dom p)))
             10])%list).
Proof.
  intros settled p category score p'. subst category p'.
  unfold Alternatives.searchAlternatives. fold score.
  split.
  - intros [Hc|Hs].
    + rewrite Hc. simpl. split; [reflexivity|].
      split; [eexists; reflexivity|]. split; reflexivity.
    + destruct (String.eqb _ "").
      * simpl. split; [reflexivity|].
        split; [eexists; reflexivity|]. split; reflexivity.
      * rewrite (score_check_true _ Hs). simpl. split; [reflexivity|].
        split; [eexists; reflexivity|]. split; reflexivity.
  - intros Hc Hs.
    destruct (String.eqb _ "") eqn:E.
    + apply String.eqb_eq in E. contradiction.
    + rewrite (score_check_false score Hs).
      destruct settled; reflexivity.
Qed.

(** No category; the scores "-1", "101", "abc" and none; then "45", "0",
    "100" and "99.5". *)
Lemma searchAlternatives_validation_witness :
  sent "" "45" = [] /\
  sent "cosmetics" "-1" = [] /\
  sent "cosmetics" "101" = [] /\
  sent "cosmetics" "abc" = [] /\
  sent "cosmetics" "" = [] /\
  sent "cosmetics" "45"
    = [Api.FindAlternatives "cosmetics" (Fin 45) None (Some "kerala") 10] /\
  sent "cosmetics" "0" = [Api.FindAlternatives "cosmetics" (Fin 0) None (Some "kerala") 10] /\
  sent "cosmetics" "100"
    = [Api.FindAlternatives "cosmetics" (Fin 100) None (Some "kerala") 10] /\
  sent "cosmetics" "99.5"
    = [Api.FindAlternatives "cosmetics" (Fin (199 # 2)) None (Some "kerala") 10].
Proof.
  assert (Hne : "cosmetics" <> "") by discriminate.
  unfold sent.
  split.
  { apply (proj1 (searchAlternatives_validation (Resolved []) (search_page "" "45"))).
    left; reflexivity. }
  split.
  { apply (proj1 (searchAlternatives_validation (Resolved []) (search_page "cosmetics" "-1"))).
    right; vm_compute; left; reflexivity. }
  split.
  { apply (proj1 (searchAlternatives_validation (Resolved []) (search_page "cosmetics" "101"))).
    right; vm_compute; right; reflexivity. }
  split.
  { apply (proj1 (searchAlternatives_validation (Resolved []) (search_page "cosmetics" "abc"))).
    right; vm_compute; exact I. }
  split.
  { apply (proj1 (searchAlternatives_validation (Resolved []) (search_page "cosmetics" ""))).
    right; vm_compute; exact I. }
  split.
  { pose proof (proj2 (searchAlternatives_validation (Resolved [])
                         (search_page "cosmetics" "45")) Hne) as H.
    change (parseFloat (Alternatives.currentScore (Alternatives.dom (search_page "cosmetics" "45"))))
      with (parseFloat "45") in H.
    replace (parseFloat "45") with (Fin 45) in H by (vm_compute; reflexivity).
    apply H. split; discriminate. }
  split.
  { pose proof (proj2 (searchAlternatives_validation (Resolved [])
                         (search_page "cosmetics" "0")) Hne) as H.
    change (parseFloat (Alternatives.currentScore (Alternatives.dom (search_page "cosmetics" "0"))))
      with (parseFloat "0") in H.
    replace (parseFloat "0") with (Fin 0) in H by (vm_compute; reflexivity).
    apply H. split; discriminate. }
  split.
  { pose proof (proj2 (searchAlternatives_validation (Resolved [])
                         (search_page "cosmetics" "100")) Hne) as H.
    change (parseFloat (Alternatives.currentScore (Alternatives.dom (search_page "cosmetics" "100"))))
      with (parseFloat "100") in H.
    replace (parseFloat "100") with (Fin 100) in H by (vm_compute; reflexivity).
    apply H. split; discriminate. }
  pose proof (proj2 (searchAlternatives_validation (Resolved [])
                       (search_page "cosmetics" "99.5")) Hne) as H.
  change (parseFloat (Alternatives.currentScore (Alternatives.dom (search_page "cosmetics" "99.5"))))
    with (parseFloat "99.5") in H.
  replace (parseFloat "99.5") with (Fin (199 # 2)) in H by (vm_compute; reflexivity).
  apply H. split; discriminate.
Defined.

(** ** Non-success responses in the API client *)

Lemma request_catch_Error (msg : string) :
  Api.request_catch (Error msg) = Rejected (Error msg).
Proof. reflexivity. Qed.

Lemma request_catch_rejects (e : JsError) : exists e', Api.request_catch e = Rejected e'.
Proof.
  unfold Api.request_catch. destruct (String.eqb (name e) "AbortError"); eauto.
Qed.

(** A 500 whose body is not JSON fails with the message "Unknown error",
    which carries neither a server message nor the status code. *)
Lemma request_unparseable_body_hides_status :
  Api.ok html_500 = false /\
  Api.request (Api.FetchResponse html_500) = Rejected (Error "Unknown error") /\
  ~ fails_with_message_or_status html_500 (Api.request (Api.FetchResponse html_500)).
Proof.
  split; [reflexivity|]. split; [reflexivity|].
  intros (e & He & Hm).
  change (@Rejected Api.json (Error "Unknown error") = Rejected e) in He.
  inversion He; subst e. vm_compute in Hm. discriminate Hm.
Qed.

(** C4, amended. A response with a non-success status never yields a
    success value: the call fails. The error carries the text found under
    [detail] when the JSON body has a non-empty one; the message
    "HTTP <status>" when the body is JSON, not [null], without a truthy
    [detail]; and the message "Unknown error" when the body is not JSON. *)
Theorem request_non_success_fails :
  forall r : Api.Response,
    Api.ok r = false ->
    (exists e, Api.request (Api.FetchResponse r) = Rejected e) /\
    (forall m, server_message r = Some m ->
       Api.request (Api.FetchResponse r) = Rejected (Error m)) /\
    (forall v d, Api.resp_body r = Api.Parsed v ->
       Api.get_detail v = inr d -> Api.truthy_json d = false ->
       Api.request (Api.FetchResponse r)
       = Rejected (Error ("HTTP " ++ Zstr (Api.status r)))) /\
    (forall e, Api.resp_body r = Api.Unparseable e ->
       Api.request (Api.FetchResponse r) = Rejected (Error "Unknown error")).
Proof.
  intros r Hok. unfold Api.request. rewrite Hok. simpl.
  split; [|split; [|split]].
  - destruct (Api.resp_body r) as [v|e0].
    + destruct (Api.get_detail v); [apply request_catch_rejects|].
      rewrite request_catch_Error. eauto.
    + simpl. rewrite request_catch_Error. eauto.
  - intros m Hm. unfold server_message in Hm.
    destruct (Api.resp_body r) as [v|e0]; [|discriminate].
    destruct v; try discriminate. simpl.
    destruct (Api.lookup_last "detail" fields None) as [d|]; [|discriminate].
    destruct d; try discriminate.
    destruct (String.eqb s "") eqn:E; [discriminate|].
    inversion Hm; subst. simpl. rewrite E. reflexivity.
  - intros v d Hb Hd Ht. rewrite Hb, Hd, Ht. reflexivity.
  - intros e Hb. rewrite Hb. reflexivity.
Qed.

(** A 404 with a [detail], a 503 with an empty object, a 500 with an HTML
    body. *)
Lemma request_non_success_fails_witness :
  Api.request (Api.FetchResponse not_found_404) = Rejected (Error "Session not found") /\
  Api.request (Api.FetchResponse empty_503) = Rejected (Error "HTTP 503") /\
  Api.request (Api.FetchResponse html_500) = Rejected (Error "Unknown error").
Proof.
  split; [|split].
  - apply (proj1 (proj2 (request_non_success_fails not_found_404 eq_refl))).
    reflexivity.
  - apply (proj1 (proj2 (proj2 (request_non_success_fails empty_503 eq_refl)))
             (Api.JObj []) None); reflexivity.
  - apply (proj2 (proj2 (proj2 (request_non_success_fails html_500 eq_refl)))
             (mkError "SyntaxError" "Unexpected token < in JSON at position 0")).
    reflexivity.
Defined.

(** A success status gives the parsed body, and a timer abort gives the
    timeout error. *)
Lemma request_success (r : Api.Response) (v : Api.json) :
  Api.ok r = true -> Api.resp_body r = Api.Parsed v ->
  Api.request (Api.FetchResponse r) = Resolved v.
Proof. intros Hok Hb. unfold Api.request. now rewrite Hok, Hb. Qed.

Lemma request_timeout :
  Api.request (Api.FetchRejected Api.AbortError) = Rejected (Error "Request timeout").
Proof. reflexivity. Qed.

(** Network failure, timeout and non-success status all reach the caller
    as a rejection, which is what the components' [catch] clauses see. *)
Lemma request_failures_reject (fetched : Api.fetch_outcome) :
  match fetched with
  | Api.FetchRejected _ => True
  | Api.FetchResponse r => Api.ok r = false
  end ->
  exists e, Api.request fetched = Rejected e.
Proof.
  destruct fetched as [r|e]; intros H.
  - unfold Api.request. rewrite H. simpl.
    destruct (Api.resp_body r) as [v|e0].
    + destruct (Api.get_detail v); [apply request_catch_rejects|].
      rewrite request_catch_Error. eauto.
    + simpl. rewrite request_catch_Error. eauto.
  - apply request_catch_rejects.
Qed.

(** ** Export of the shopping list *)

Lemma append_nil_r (s : string) : s ++ "" = s.
Proof.
  induction s as [|c s IH]; [reflexivity|].
  change (String c (s ++ "") = String c s). now rewrite IH.
Qed.

Lemma append_assoc (a b c : string) : (a ++ b) ++ c = a ++ b ++ c.
Proof.
  induction a as [|x a IH]; [reflexivity|].
  change (String x ((a ++ b) ++ c) = String x (a ++ b ++ c)). now rewrite IH.
Qed.

(** Past the first element, [join_from] appends the separator and the
    remaining elements separated. *)
Lemma join_from_succ (sep : string) (l : list string) :
  forall (R : string) (k : nat),
    join_from sep R (S k) l
    = R ++ match l with [] => "" | _ :: _ => sep ++ String.concat sep l end.
Proof.
  induction l as [|x l IH]; intros R k.
  - simpl. now rewrite append_nil_r.
  - change (join_from sep R (S k) (x :: l))
      with (join_from sep ((R ++ sep) ++ x) (S (S k)) l).
    rewrite IH. destruct l as [|y l].
    + change (String.concat sep [x]) with x.
      now rewrite append_nil_r, append_assoc.
    + change (String.concat sep (x :: y :: l))
        with (x ++ sep ++ String.concat sep (y :: l)).
      now rewrite !append_assoc.
Qed.

(** [join] puts the separator between consecutive elements and nowhere
    else. *)
Lemma join_concat (sep : string) (l : list string) : join sep l = String.concat sep l.
Proof.
  destruct l as [|x l]; [reflexivity|].
  change (join sep (x :: l)) with (join_from sep ("" ++ x) 1 l).
  rewrite join_from_succ.
  change ("" ++ x) with x.
  destruct l as [|y l].
  - change (String.concat sep [x]) with x. apply append_nil_r.
  - reflexivity.
Qed.

Lemma tenths_nearest (x : Q) : nearest_tenth x (tenths x).
Proof.
  unfold nearest_tenth, tenths.
  set (y := (Qabs x * inject_Z 10 + (1 # 2))%Q).
  pose proof (Qfloor_le y) as Hle.
  pose proof (Qlt_floor y) as Hlt.
  rewrite inject_Z_plus in Hlt.
  change (inject_Z 1) with 1%Q in Hlt.
  subst y. split; lra.
Qed.

Lemma tenths_nonneg (x : Q) : 0 <= tenths x.
Proof.
  unfold tenths.
  change 0 with (Qfloor (inject_Z 0)) at 1. rewrite Qfloor_Z.
  rewrite <- (Qfloor_Z 0). apply Qfloor_resp_le.
  pose proof (Qabs_nonneg x) as H.
  change (inject_Z 0) with 0%Q. change (inject_Z 10) with 10%Q. lra.
Qed.

(** A single decimal digit prints as one character. *)
Lemma Zstr_digit (d : Z) : 0 <= d < 10 -> String.length (Zstr d) = 1%nat.
Proof.
  intros H.
  assert (E : d = 0 \/ d = 1 \/ d = 2 \/ d = 3 \/ d = 4 \/ d = 5 \/ d = 6 \/
              d = 7 \/ d = 8 \/ d = 9) by lia.
  repeat (destruct E as [E|E]; [subst d; reflexivity|]). subst d; reflexivity.
Qed.

(** Below 10^21, [toFixed(1)] writes the score to one decimal place. *)
Lemma toFixed1_one_decimal_place (x : Q) :
  (Qabs x < inject_Z (10 ^ 21))%Q -> one_decimal_place x (toFixed1 (Fin x)).
Proof.
  intros Hx. unfold toFixed1.
  destruct (Qle_bool (inject_Z (10 ^ 21)) (Qabs x)) eqn:E.
  { apply Qle_bool_iff in E. exfalso. exact (Qlt_not_le _ _ Hx E). }
  exists (tenths x). split; [apply tenths_nearest|].
  split; [apply tenths_nonneg|].
  split; [apply Zstr_digit; apply Z.mod_pos_bound; lia|reflexivity].
Qed.

Lemma export_lines (elements : list (option Alternatives.Item)) :
  forall rows : list (string * Q),
    Forall2 named_and_scored elements rows ->
    exists lines,
      Alternatives.map_throwing Alternatives.export_line elements = inr lines /\
      Forall2 line_of rows lines.
Proof.
  induction elements as [|element elements IH]; intros rows H.
  - inversion H; subst. exists []. split; [reflexivity|constructor].
  - inversion H as [|? row ? rows' (item & -> & Hn & Hs & Hlt) Hrest]; subst.
    destruct (IH rows' Hrest) as (lines & Hl & HF).
    exists ((fst row ++ " (Score: " ++ toFixed1 (Fin (snd row)) ++ ")") :: lines).
    split.
    + cbn [Alternatives.map_throwing]. unfold Alternatives.export_line at 1.
      rewrite Hs, Hn. cbn [Alternatives.score_toFixed1 toString]. now rewrite Hl.
    + constructor; [|exact HF].
      exists (toFixed1 (Fin (snd row))). split; [|reflexivity].
      apply toFixed1_one_decimal_place, Hlt.
Qed.

(** C8. For a shopping list whose elements have a text for a name and a
    number below 10^21 for a score, [exportShoppingList] sends no request
    and leaves the list held by the component and the page as they are;
    it hands the browser one text file whose content is the lines of the
    items in list order with a line feed between consecutive lines, each
    line being the name followed by [ (Score: ] the score to one decimal
    place [)]. *)
Theorem exportShoppingList_text :
  forall (p : Alternatives.Page) (elements : list (option Alternatives.Item))
         (rows : list (string * Q)),
    Alternatives.shoppingList (Alternatives.st p) = Some (Alternatives.Entries elements) ->
    Forall2 named_and_scored elements rows ->
    exists (p' : Alternatives.Page) (lines : list string),
      Alternatives.exportShoppingList p = inr p' /\
      Utils.requests (Alternatives.env p') = Utils.requests (Alternatives.env p) /\
      Alternatives.st p' = Alternatives.st p /\
      Alternatives.dom p' = Alternatives.dom p /\
      Forall2 line_of rows lines /\
      Utils.downloads (Alternatives.env p')
      = (Utils.downloads (Alternatives.env p) ++
         [("sakhi-shopping-list.txt", String.concat (String "010" "") lines)])%list.
Proof.
  intros p elements rows Hheld Hrows.
  destruct (export_lines elements rows Hrows) as (lines & Hl & HF).
  unfold Alternatives.exportShoppingList. rewrite Hheld, Hl.
  eexists _, lines. split; [reflexivity|].
  split; [reflexivity|]. split; [reflexivity|]. split; [reflexivity|].
  split; [exact HF|].
  cbn [Alternatives.env Alternatives.with_env Utils.downloads Utils.showToast Utils.download].
  now rewrite join_concat.
Qed.

Lemma list_A_B_named_and_scored :
  Forall2 named_and_scored list_A_B [("A", double_72_3); ("B", 15%Q)].
Proof.
  constructor; [eexists; repeat split|].
  constructor; [eexists; repeat split|]. constructor.
Defined.

(** The list of A at 72.3 and B at 15.0 exports as two lines, with no
    request. *)
Lemma exportShoppingList_text_witness :
  Forall2 named_and_scored list_A_B [("A", double_72_3); ("B", 15%Q)] /\
  exists p',
    Alternatives.exportShoppingList page_A_B = inr p' /\
    Utils.requests (Alternatives.env p') = [] /\
    Utils.downloads (Alternatives.env p')
    = [("sakhi-shopping-list.txt", "A (Score: 72.3)" ++ String "010" "B (Score: 15.0)")].
Proof.
  split; [exact list_A_B_named_and_scored|].
  destruct (exportShoppingList_text page_A_B list_A_B [("A", double_72_3); ("B", 15%Q)]
              eq_refl list_A_B_named_and_scored)
    as (p' & lines & E & Hreq & _).
  exists p'. split; [exact E|]. split; [exact Hreq|].
  vm_compute in E. inversion E; subst p'. reflexivity.
Defined.

(** A list that is [null], is no array, or has an element without a
    number for its score makes the export throw: nothing is handed to
    the browser and no toast is shown. *)
Lemma exportShoppingList_throws (p : Alternatives.Page) :
  ~ renderable (Alternatives.shoppingList (Alternatives.st p)) ->
  exists e, Alternatives.exportShoppingList p = inl e.
Proof.
  intros Hn. unfold Alternatives.exportShoppingList.
  destruct (Alternatives.shoppingList (Alternatives.st p)) as [[elements|len]|]; eauto.
  destruct (Alternatives.map_throwing Alternatives.export_line elements) as [e|lines] eqn:E;
    [eauto|exfalso].
  apply Hn. exists elements. split; [reflexivity|].
  clear Hn. revert lines E.
  induction elements as [|element elements IH]; intros lines E; [constructor|].
  cbn [Alternatives.map_throwing] in E.
  destruct (Alternatives.export_line element) as [e|line] eqn:El; [discriminate|].
  destruct (Alternatives.map_throwing Alternatives.export_line elements) as [e|ls] eqn:Em;
    [discriminate|].
  constructor; [|eapply IH; reflexivity].
  unfold Alternatives.export_line in El.
  destruct element as [item|]; [|discriminate].
  destruct (Alternatives.hormonal_health_score item) as [| |b|n|t] eqn:Es;
    try discriminate.
  exists item, n. split; [reflexivity|exact Es].
Qed.

(** ** Recorders when every gesture settles before the next *)

Section Serial.
Import Voice.

Lemma guarded_world0 : guarded world0.
Proof.
  split; [apply not_elem_of_nil|].
  intros i (r & Hr & _). simpl in Hr. rewrite lookup_nil in Hr. discriminate.
Qed.

(** A step that touches neither the recorders nor the two recording
    fields keeps the guard, provided it adds no wait for the microphone. *)
Lemma guarded_frame (w w' : World) :
  guarded w ->
  recorders w' = recorders w ->
  isRecording (st (page w')) = isRecording (st (page w)) ->
  mediaRecorder (st (page w')) = mediaRecorder (st (page w)) ->
  AwaitMic ∉ tasks w' ->
  guarded w'.
Proof.
  intros [_ Hg] Hr Hi Hm Ht. split; [exact Ht|].
  intros i (r & Hl & Hs). rewrite Hr in Hl. rewrite Hi, Hm.
  apply Hg. exists r. split; assumption.
Qed.

Lemma guarded_stopRecording (w : World) : guarded w -> guarded (stopRecording w).
Proof.
  intros H. unfold stopRecording.
  destruct (mediaRecorder (st (page w))) as [rid|] eqn:Em; [|exact H].
  destruct (isRecording (st (page w))) eqn:Ei; [|exact H].
  destruct H as [Ht Hg]. split.
  - simpl. rewrite not_elem_of_app. split; [exact Ht|].
    intros H. apply list_elem_of_singleton in H. discriminate.
  - intros i (r & Hl & Hs). simpl in Hl. exfalso.
    destruct (decide (rid = i)) as [->|Hne].
    + rewrite list_lookup_alter_eq in Hl.
      destruct (recorders w !! i); simpl in Hl; [|discriminate].
      inversion Hl; subst r. discriminate.
    + rewrite list_lookup_alter_ne in Hl by exact Hne.
      destruct (Hg i) as [_ Hm]; [exists r; split; assumption|].
      rewrite Em in Hm. inversion Hm. contradiction.
Qed.

Lemma guarded_granted (w : World) :
  guarded w -> isRecording (st (page w)) = false -> guarded (startRecording_granted w).
Proof.
  intros [Ht Hg] Hoff. split; [exact Ht|].
  intros i (r & Hl & Hs). simpl in Hl. simpl.
  apply lookup_snoc_Some in Hl as [[_ Hl]|[-> _]].
  - destruct (Hg i) as [Hon _]; [exists r; split; assumption|]. congruence.
  - split; reflexivity.
Qed.

Lemma guarded_denied (w : World) : guarded w -> guarded (startRecording_denied w).
Proof.
  intros H. apply (guarded_frame w); [exact H|reflexivity|reflexivity|reflexivity|apply H].
Qed.

Lemma world_eta (w : World) : mkWorld (page w) (recorders w) (tasks w) = w.
Proof. destruct w; reflexivity. Qed.

(** A settled toggle is [stopRecording] while recording and otherwise
    [startRecording] run to its end. *)
Lemma settled_toggle_eq (granted : bool) (w : World) :
  settled_toggle granted w =
  if isRecording (st (page w)) then stopRecording w
  else if granted then startRecording_granted w else startRecording_denied w.
Proof.
  unfold settled_toggle. cbn [step]. unfold toggleRecording.
  destruct (isRecording (st (page w))) eqn:Ei.
  - unfold stopRecording. rewrite Ei.
    destruct (mediaRecorder (st (page w))) as [rid|].
    + cbn [tasks]. rewrite list_lookup_middle by reflexivity.
      destruct granted; reflexivity.
    + rewrite lookup_ge_None_2 by lia. reflexivity.
  - cbn [tasks page recorders]. rewrite list_lookup_middle by reflexivity.
    rewrite delete_middle, app_nil_r, world_eta.
    destruct granted; reflexivity.
Qed.

Lemma guarded_settled_toggle (granted : bool) (w : World) :
  guarded w -> guarded (settled_toggle granted w).
Proof.
  intros H. rewrite settled_toggle_eq.
  destruct (isRecording (st (page w))) eqn:Ei.
  - apply guarded_stopRecording, H.
  - destruct granted; [apply guarded_granted|apply guarded_denied]; assumption.
Qed.

Lemma not_mic_snoc (l : list Task) (t : Task) :
  AwaitMic ∉ l -> t <> AwaitMic -> AwaitMic ∉ (l ++ [t])%list.
Proof.
  intros Hl Ht. rewrite not_elem_of_app. split; [exact Hl|].
  intros H. apply list_elem_of_singleton in H. congruence.
Qed.

Lemma not_mic_delete (l : list Task) (i : nat) : AwaitMic ∉ l -> AwaitMic ∉ delete i l.
Proof. intros Hl H. apply Hl. eapply list_elem_of_delete_inv. exact H. Qed.

Lemma startScreening_resume_recording (r : outcome (option StartResult)) (p : Page) :
  isRecording (st (startScreening_resume r p)) = isRecording (st p) /\
  mediaRecorder (st (startScreening_resume r p)) = mediaRecorder (st p).
Proof. destruct r as [[result|]|e]; split; reflexivity. Qed.

Lemma processAudio_transcribed_st (r : outcome (option SttResult)) (p : Page) :
  st (fst (processAudio_transcribed r p)) = st p.
Proof. destruct r as [[stt|]|e]; reflexivity. Qed.

Lemma processAudio_responded_st (r : outcome (option RespondResult)) (p : Page) :
  st (processAudio_responded r p) = st p.
Proof.
  destruct r as [[response|]|e]; try reflexivity.
  unfold processAudio_responded.
  destruct (is_string (status response) "complete"); [reflexivity|].
  destruct (is_string (status response) "next_question"); reflexivity.
Qed.

Lemma guarded_complete (i : nat) (c : Completion) (w : World) :
  guarded w -> guarded (step (Complete i c) w).
Proof.
  intros H. cbn [step].
  destruct (tasks w !! i) as [t|] eqn:Et; [|exact H].
  assert (Hin : t ∈ tasks w) by (eapply list_elem_of_lookup_2; exact Et).
  assert (Hd : AwaitMic ∉ delete i (tasks w)) by (apply not_mic_delete, H).
  destruct t, c; cbn [resume]; try exact H;
    try (exfalso; apply (proj1 H); exact Hin).
  - destruct (startScreening_resume_recording r (page w)) as [Hi Hm].
    apply (guarded_frame w); [exact H|reflexivity|exact Hi|exact Hm|exact Hd].
  - pose proof (processAudio_transcribed_st r (page w)) as Hst.
    cbn [page recorders tasks].
    destruct (processAudio_transcribed r (page w)) as [p flag].
    simpl in Hst.
    destruct flag.
    + apply (guarded_frame w);
        [exact H|reflexivity|cbn; now rewrite Hst|cbn; now rewrite Hst|].
      cbn. apply not_mic_snoc; [exact Hd|discriminate].
    + apply (guarded_frame w);
        [exact H|reflexivity|cbn; now rewrite Hst|cbn; now rewrite Hst|exact Hd].
  - pose proof (processAudio_responded_st r (page w)) as Hst.
    apply (guarded_frame w);
      [exact H|reflexivity|cbn; now rewrite Hst|cbn; now rewrite Hst|exact Hd].
  - apply (guarded_frame w); [exact H|reflexivity|reflexivity|reflexivity|].
    cbn. apply not_mic_snoc; [exact Hd|discriminate].
Qed.

Lemma guarded_gesture (g : Gesture) (w : World) : guarded w -> guarded (gesture_step w g).
Proof.
  intros H. destruct g as [granted| | |i c]; cbn [gesture_step].
  - apply guarded_settled_toggle, H.
  - apply (guarded_frame w); [exact H|reflexivity|reflexivity|reflexivity|].
    cbn. apply not_mic_snoc; [apply H|discriminate].
  - apply guarded_stopRecording, H.
  - apply guarded_complete, H.
Qed.

Lemma guarded_run (gs : list Gesture) :
  forall w, guarded w -> guarded (fold_left gesture_step gs w).
Proof.
  induction gs as [|g gs IH]; intros w H; [exact H|].
  simpl. apply IH, guarded_gesture, H.
Qed.

Lemma active_capturing (w : World) (i : nat) :
  In i (active_recorders w) -> capturing w i.
Proof.
  unfold active_recorders. rewrite in_map_iff.
  intros ([j r] & Hj & Hin). simpl in Hj. subst j.
  apply filter_In in Hin as [Hin Hrec]. simpl in Hrec.
  apply list_elem_of_In, elem_of_lookup_imap in Hin as (k & r' & Heq & Hl).
  inversion Heq; subst. exists r'. split; [exact Hl|].
  destruct (rec_state r'); [reflexivity|discriminate].
Qed.

(** When gestures do not overlap, no two recorders ever capture at the
    same time: the guard of [toggleRecording] suffices for that. *)
Lemma serial_gestures_one_recorder (gs : list Gesture) (i j : nat) :
  let w := fold_left gesture_step gs world0 in
  In i (active_recorders w) -> In j (active_recorders w) -> i = j.
Proof.
  intros w Hi Hj.
  destruct (guarded_run gs world0 guarded_world0) as [_ Hg].
  fold w in Hg.
  destruct (Hg i (active_capturing w i Hi)) as [_ Ei].
  destruct (Hg j (active_capturing w j Hj)) as [_ Ej].
  congruence.
Qed.

End Serial.

(* ===================================================================== *)
(** * Part IV: further properties of the sources                          *)
(* ===================================================================== *)

(** ** [utils.js]: [truncateText] *)

Lemma length_append (s1 s2 : string) :
  String.length (s1 ++ s2) = (String.length s1 + String.length s2)%nat.
Proof.
  induction s1 as [|c s1 IH]; [reflexivity|].
  change (S (String.length (s1 ++ s2)) = S (String.length s1 + String.length s2)).
  now rewrite IH.
Qed.

Lemma length_substring0 (n : nat) :
  forall s : string, (n <= String.length s)%nat -> String.length (substring 0 n s) = n.
Proof.
  induction n as [|n IH]; intros s H.
  - destruct s; reflexivity.
  - destruct s as [|c s]; simpl in *; [lia|]. rewrite IH; [reflexivity|lia].
Qed.

Lemma substring0_all (s : string) : substring 0 (String.length s) s = s.
Proof. induction s as [|c s IH]; simpl; [reflexivity|now rewrite IH]. Qed.

Lemma substring0_append (n : nat) :
  forall s t : string, (n <= String.length s)%nat ->
    substring 0 n (s ++ t) = substring 0 n s.
Proof.
  induction n as [|n IH]; intros s t H.
  - destruct (s ++ t); destruct s; reflexivity.
  - destruct s as [|c s]; simpl in H; [lia|].
    change (String c s ++ t) with (String c (s ++ t)). simpl.
    rewrite IH; [reflexivity|lia].
Qed.

Lemma truncateText_empty (maxLength : Z) : Helpers.truncateText "" maxLength = "".
Proof. reflexivity. Qed.

Lemma truncateText_long (text : string) (maxLength : Z) :
  text <> "" ->
  maxLength < Z.of_nat (String.length text) ->
  Helpers.truncateText text maxLength
  = substring 0 (Z.to_nat maxLength) text ++ "...".
Proof.
  intros Hne H. unfold Helpers.truncateText.
  destruct (String.eqb text "") eqn:E.
  - apply String.eqb_eq in E. contradiction.
  - destruct (Z.of_nat (String.length text) <=? maxLength) eqn:E2; [|reflexivity].
    apply Z.leb_le in E2. lia.
Qed.

(** X1. [truncateText] returns a text that fits in [maxLength]
    characters unchanged, and the empty text always. A longer text is
    cut to its first [maxLength] characters followed by three dots, so
    that the result is three characters longer than [maxLength] (and is
    the three dots alone for a negative [maxLength]). *)
Theorem truncateText_cut :
  forall (text : string) (maxLength : Z),
    let r := Helpers.truncateText text maxLength in
    (Z.of_nat (String.length text) <= maxLength -> r = text) /\
    (text <> "" -> maxLength < Z.of_nat (String.length text) ->
       r = substring 0 (Z.to_nat maxLength) text ++ "..." /\
       Z.of_nat (String.length r) = Z.max 0 maxLength + 3 /\
       String.prefix (substring 0 (Z.to_nat maxLength) text) text = true).
Proof.
  intros text maxLength r. subst r. split.
  - intros H. unfold Helpers.truncateText.
    destruct (String.eqb text ""); [reflexivity|].
    apply Z.leb_le in H. now rewrite H.
  - intros Hne H. rewrite (truncateText_long text maxLength Hne H).
    assert (Hn : (Z.to_nat maxLength <= String.length text)%nat) by lia.
    split; [reflexivity|]. split.
    + rewrite length_append, (length_substring0 _ _ Hn). simpl. lia.
    + apply prefix_correct. rewrite (length_substring0 _ _ Hn). reflexivity.
Qed.

(** X2. Truncating a truncated text again, to the same length, changes
    nothing more. *)
Theorem truncateText_idempotent :
  forall (text : string) (maxLength : Z),
    Helpers.truncateText (Helpers.truncateText text maxLength) maxLength
    = Helpers.truncateText text maxLength.
Proof.
  intros text maxLength.
  destruct (String.eqb text "") eqn:Ee.
  { apply String.eqb_eq in Ee. subst text. reflexivity. }
  assert (Hne : text <> "") by (intros ->; discriminate).
  destruct (Z_le_gt_dec (Z.of_nat (String.length text)) maxLength) as [Hle|Hgt].
  - assert (E : Helpers.truncateText text maxLength = text).
    { unfold Helpers.truncateText. rewrite Ee.
      apply Z.leb_le in Hle. now rewrite Hle. }
    now rewrite !E.
  - assert (Hlt : maxLength < Z.of_nat (String.length text)) by lia.
    rewrite (truncateText_long text maxLength Hne Hlt).
    assert (Hn : (Z.to_nat maxLength <= String.length text)%nat) by lia.
    set (cut := substring 0 (Z.to_nat maxLength) text).
    assert (Hcut : String.length cut = Z.to_nat maxLength)
      by (apply length_substring0; exact Hn).
    rewrite truncateText_long.
    + rewrite substring0_append by lia.
      rewrite <- Hcut at 1. now rewrite substring0_all.
    + intros E. apply (f_equal String.length) in E.
      rewrite length_append in E. simpl in E. lia.
    + rewrite length_append, Hcut. simpl. lia.
Qed.

(** A text of eleven characters cut to five, and left alone at eleven. *)
Lemma truncateText_cut_witness :
  Helpers.truncateText "Hello world" 5 = "Hello..." /\
  Helpers.truncateText "Hello world" 11 = "Hello world".
Proof.
  split.
  - apply (proj2 (truncateText_cut "Hello world" 5)); [discriminate|reflexivity].
  - apply (proj1 (truncateText_cut "Hello world" 11)). discriminate.
Defined.

(** ** [utils.js]: score classes *)

Lemma ge_lit_Fin (v : jsval) (s : Q) (k : Z) :
  toNumber v = Fin s -> (Helpers.ge_lit v k = true <-> (inject_Z k <= s)%Q).
Proof.
  intros H. unfold Helpers.ge_lit, Helpers.ge. rewrite H. simpl.
  rewrite negb_true_iff. apply Qltb_ge.
Qed.

Lemma ge_lit_NaN (v : jsval) (k : Z) : toNumber v = NaN -> Helpers.ge_lit v k = false.
Proof. intros H. unfold Helpers.ge_lit, Helpers.ge. now rewrite H. Qed.

(** X3. [getScoreClass] and [getScoreBadgeClass] always choose the same
    one of three bands; for a score with the numeric value [s] it is the
    safe band exactly when [80 <= s] and the danger band exactly when
    [s < 50]; a score that is not a number gets the danger band. *)
Theorem score_classes_agree :
  forall score : jsval,
    ((Helpers.getScoreClass score = "score-safe" /\
      Helpers.getScoreBadgeClass score = "bg-success") \/
     (Helpers.getScoreClass score = "score-warning" /\
      Helpers.getScoreBadgeClass score = "bg-warning") \/
     (Helpers.getScoreClass score = "score-danger" /\
      Helpers.getScoreBadgeClass score = "bg-danger")) /\
    (forall s : Q, toNumber score = Fin s ->
       (Helpers.getScoreClass score = "score-safe" <-> (80 <= s)%Q) /\
       (Helpers.getScoreClass score = "score-danger" <-> (s < 50)%Q)) /\
    (toNumber score = NaN -> Helpers.getScoreClass score = "score-danger").
Proof.
  intros score. unfold Helpers.getScoreClass, Helpers.getScoreBadgeClass.
  split; [|split].
  - destruct (Helpers.ge_lit score 80); [auto|].
    destruct (Helpers.ge_lit score 50); auto.
  - intros s Hs.
    pose proof (ge_lit_Fin score s 80 Hs) as H80.
    pose proof (ge_lit_Fin score s 50 Hs) as H50.
    change (inject_Z 80) with 80%Q in H80. change (inject_Z 50) with 50%Q in H50.
    destruct (Helpers.ge_lit score 80) eqn:E80.
    + assert (H : (80 <= s)%Q) by (apply H80; reflexivity).
      split; split; try discriminate; auto.
      intros Hlt. exfalso. lra.
    + assert (H : ~ (80 <= s)%Q) by (intros Hc; apply H80 in Hc; discriminate).
      destruct (Helpers.ge_lit score 50) eqn:E50.
      * assert (H' : (50 <= s)%Q) by (apply H50; reflexivity).
        split; split; try discriminate; try contradiction.
        intros Hlt. exfalso. lra.
      * assert (H' : ~ (50 <= s)%Q) by (intros Hc; apply H50 in Hc; discriminate).
        split; split; try discriminate; try contradiction; auto.
        intros _. apply Qnot_le_lt. exact H'.
  - intros Hn. now rewrite !(ge_lit_NaN score _ Hn).
Qed.

(** The scores 80, 79.5, 50, 49 and an absent score. *)
Lemma score_classes_agree_witness :
  Helpers.getScoreClass (VNum (Fin 80)) = "score-safe" /\
  Helpers.getScoreClass (VNum (Fin (159 # 2))) <> "score-safe" /\
  Helpers.getScoreClass (VNum (Fin 49)) = "score-danger" /\
  Helpers.getScoreClass (VNum (Fin 50)) <> "score-danger" /\
  Helpers.getScoreClass VUndefined = "score-danger".
Proof.
  split; [|split; [|split; [|split]]].
  - apply (proj1 (proj2 (score_classes_agree (VNum (Fin 80)))) 80%Q eq_refl). discriminate.
  - intros H.
    apply (proj1 (proj2 (score_classes_agree (VNum (Fin (159 # 2))))) (159 # 2)%Q eq_refl) in H.
    apply H. reflexivity.
  - apply (proj1 (proj2 (score_classes_agree (VNum (Fin 49)))) 49%Q eq_refl). reflexivity.
  - intros H.
    apply (proj1 (proj2 (score_classes_agree (VNum (Fin 50)))) 50%Q eq_refl) in H.
    revert H. discriminate.
  - apply (proj2 (proj2 (score_classes_agree VUndefined))). reflexivity.
Defined.

(** ** [utils.js]: [debounce] *)

Section DebounceFacts.
Context {A : Type}.
Implicit Types (d : Helpers.Debounced A) (evs : list (Helpers.DebounceEvent A)).

Lemma tracks_invoke d pending n args :
  tracks d pending n -> tracks (Helpers.executedFunction args d) (Some (n, args)) (S n).
Proof.
  intros [Hn Hp]. unfold Helpers.executedFunction, tracks. simpl. rewrite Hn.
  split; [reflexivity|]. split; [|split; [reflexivity|lia]].
  destruct pending as [[i a]|].
  - destruct Hp as (Ht & Hto & _). rewrite Ht, Hto. simpl.
    now rewrite Nat.eqb_refl.
  - rewrite Hp. destruct (Helpers.timeout d); reflexivity.
Qed.

Lemma elapse_pending d i args n :
  tracks d (Some (i, args)) n ->
  tracks (Helpers.elapse i d) None n /\
  Helpers.func_calls (Helpers.elapse i d) = (Helpers.func_calls d ++ [args])%list.
Proof.
  intros [Hn (Ht & Hto & _)]. unfold Helpers.elapse. rewrite Ht. simpl.
  rewrite Nat.eqb_refl. simpl. rewrite Hto. simpl.
  split; [split; [exact Hn|reflexivity]|reflexivity].
Qed.

Lemma elapse_other d pending n id :
  tracks d pending n ->
  match pending with Some (i, _) => i <> id | None => True end ->
  Helpers.elapse id d = d.
Proof.
  intros [Hn Hp] Hne. unfold Helpers.elapse.
  destruct pending as [[i a]|].
  - destruct Hp as (Ht & _). rewrite Ht. simpl.
    destruct (Nat.eqb i id) eqn:E; [|reflexivity].
    apply Nat.eqb_eq in E. contradiction.
  - rewrite Hp. reflexivity.
Qed.

Lemma debounce_refines evs :
  forall d pending n,
    tracks d pending n ->
    exists pending' n',
      tracks (fold_left Helpers.debounce_step evs d) pending' n' /\
      Helpers.func_calls (fold_left Helpers.debounce_step evs d)
      = (Helpers.func_calls d ++ debounced_calls evs pending n)%list.
Proof.
  induction evs as [|ev evs IH]; intros d pending n Ht.
  - exists pending, n. simpl. split; [exact Ht|now rewrite app_nil_r].
  - destruct ev as [args|id]; simpl.
    + apply (IH _ _ _ (tracks_invoke d pending n args Ht)).
    + destruct pending as [[i a]|].
      * destruct (Nat.eqb i id) eqn:E.
        -- apply Nat.eqb_eq in E. subst id.
           destruct (elapse_pending d i a n Ht) as [Ht' Hc].
           destruct (IH _ _ _ Ht') as (p' & n' & Ht'' & Hc'').
           exists p', n'. split; [exact Ht''|].
           rewrite Hc'', Hc. now rewrite <- app_assoc.
        -- apply Nat.eqb_neq in E.
           rewrite (elapse_other d _ n id Ht) by exact E.
           apply (IH _ _ _ Ht).
      * rewrite (elapse_other d None n id Ht) by exact I.
        apply (IH _ _ _ Ht).
Qed.

Lemma tracks_debounce : tracks (@Helpers.debounce A) None 0.
Proof. split; reflexivity. Qed.

Lemma debounced_calls_burst (l : list A) :
  forall (pending : option (nat * A)) (n : nat) (a : A) (id : nat),
    debounced_calls (List.map Helpers.Invoke (l ++ [a]) ++ [Helpers.Elapse id]) pending n
    = if Nat.eqb (n + List.length l) id then [a] else [].
Proof.
  induction l as [|x l IH]; intros pending n a id; simpl.
  - rewrite Nat.add_0_r. destruct (Nat.eqb n id); reflexivity.
  - rewrite IH. replace (S n + List.length l)%nat with (n + S (List.length l))%nat by lia.
    reflexivity.
Qed.

(** X4. However invocations of a debounced function and the elapsing of
    its timers interleave, at most one timer is set at any time, and
    [func] is called exactly when the timer of the latest invocation
    elapses, with the arguments of that invocation; in particular a burst
    of invocations followed by the elapse of one timer calls [func] once
    with the last arguments if that timer is the last one set, and not at
    all otherwise. *)
Theorem debounce_calls_latest :
  (forall evs,
     (List.length (Helpers.timers (Helpers.debounce_run evs)) <= 1)%nat /\
     Helpers.func_calls (Helpers.debounce_run evs) = debounced_calls evs None 0) /\
  (forall (burst : list A) (last : A) (id : nat),
     Helpers.func_calls
       (Helpers.debounce_run
          (List.map Helpers.Invoke (burst ++ [last]) ++ [Helpers.Elapse id]))
     = if Nat.eqb (List.length burst) id then [last] else []).
Proof.
  assert (H : forall evs,
             (List.length (Helpers.timers (Helpers.debounce_run evs)) <= 1)%nat /\
             Helpers.func_calls (Helpers.debounce_run evs) = debounced_calls evs None 0).
  { intros evs. unfold Helpers.debounce_run.
    destruct (debounce_refines evs Helpers.debounce None 0%nat tracks_debounce)
      as (p' & n' & [_ Hp] & Hc).
    split; [|exact Hc].
    destruct p' as [[i a]|]; [destruct Hp as (Ht & _)|]; rewrite ?Ht, ?Hp; simpl; lia. }
  split; [exact H|].
  intros burst last id. rewrite (proj2 (H _)).
  apply (debounced_calls_burst burst None 0%nat last id).
Qed.

End DebounceFacts.

(** ** [api.js]: when a request succeeds *)

(** X5. [request] returns a value exactly when [fetch] produced a
    response with a success status whose body parses as JSON, and the
    value is that parsed body; every other outcome of [fetch] is a
    failure. *)
Theorem request_resolves_iff :
  forall (fetched : Api.fetch_outcome) (v : Api.json),
    Api.request fetched = Resolved v <->
    exists r, fetched = Api.FetchResponse r /\ Api.ok r = true /\
              Api.resp_body r = Api.Parsed v.
Proof.
  intros fetched v. split.
  - destruct fetched as [r|e]; unfold Api.request.
    + destruct (Api.ok r) eqn:Hok; simpl.
      * destruct (Api.resp_body r) as [v'|e'] eqn:Hb.
        -- intros H. inversion H; subst. exists r. auto.
        -- intros H. destruct (request_catch_rejects e') as [e'' He].
           rewrite He in H. discriminate.
      * intros H. exfalso.
        destruct (Api.resp_body r) as [v'|e'].
        -- destruct (Api.get_detail v') as [t|d].
           ++ destruct (request_catch_rejects t) as [e'' He].
              rewrite He in H. discriminate.
           ++ rewrite request_catch_Error in H. discriminate.
        -- simpl in H. rewrite request_catch_Error in H. discriminate.
    + intros H. destruct (request_catch_rejects e) as [e'' He].
      rewrite He in H. discriminate.
  - intros (r & -> & Hok & Hb). apply request_success; assumption.
Qed.

(** ** [app.js]: the controller over a series of events *)

Lemma mark_active_twice (p q : string) (links : list (string * bool)) :
  App.mark_active p (App.mark_active q links) = App.mark_active p links.
Proof.
  unfold App.mark_active. rewrite List.map_map. reflexivity.
Qed.

Lemma mark_active_none (p : string) (links : list (string * bool)) :
  ~ In ("#" ++ p) (List.map fst links) ->
  List.filter snd (App.mark_active p links) = [].
Proof.
  induction links as [|[h f] links IH]; intros Hn; [reflexivity|].
  simpl in *. destruct (String.eqb h ("#" ++ p)) eqn:E.
  - apply String.eqb_eq in E. exfalso. apply Hn. left. exact E.
  - apply IH. intros Hin. apply Hn. right. exact Hin.
Qed.

Lemma mark_active_at_most_one (p : string) (links : list (string * bool)) :
  List.NoDup (List.map fst links) ->
  (List.length (List.filter snd (App.mark_active p links)) <= 1)%nat.
Proof.
  induction links as [|[h f] links IH]; intros Hd; [simpl; lia|].
  simpl in *. inversion Hd as [|? ? Hnin Hd']; subst.
  destruct (String.eqb h ("#" ++ p)) eqn:E.
  - apply String.eqb_eq in E. subst h.
    rewrite (mark_active_none p links Hnin). simpl. lia.
  - apply IH. exact Hd'.
Qed.

Lemma inherited_key (page : string) :
  existsb (String.eqb page) App.Object_prototype_keys = true ->
  In page App.Object_prototype_keys.
Proof.
  intros H. apply List.existsb_exists in H as (k & Hin & Hk).
  apply String.eqb_eq in Hk. now subst k.
Qed.

(** What [loadPage] leaves behind, in each of its three cases. *)
Lemma loadPage_cases (page : string) (a : App.Nav) :
  (exists c, App.components !! page = Some c /\
     App.loadPage page a
     = App.Normal (App.mkNav page (App.mark_active page (App.nav_links a)) (Some c)
                     (App.initialised a ++ [c]) (App.history a) (0, 0))) \/
  (App.components !! page = None /\ In page App.Object_prototype_keys /\
     App.loadPage page a
     = App.Throw (TypeError_not_a_function "component.render")
         (App.mkNav page (App.mark_active page (App.nav_links a)) (App.app_content a)
            (App.initialised a) (App.history a) (App.scroll a))) \/
  (App.components !! page = None /\
     App.loadPage page a
     = App.Normal (App.mkNav "home" (App.mark_active "home" (App.nav_links a))
                     (Some App.HomeComponent)
                     (App.initialised a ++ [App.HomeComponent]) (App.history a) (0, 0))).
Proof.
  destruct (App.components !! page) as [c|] eqn:E.
  - left. exists c. split; [reflexivity|].
    unfold App.loadPage. rewrite !(get_registered page c E). reflexivity.
  - destruct (existsb (String.eqb page) App.Object_prototype_keys) eqn:Ek.
    + right. left. split; [reflexivity|].
      pose proof (inherited_key page Ek) as Hin. split; [exact Hin|].
      unfold App.loadPage. rewrite !(get_inherited page Hin). reflexivity.
    + right. right. split; [reflexivity|].
      unfold App.loadPage. rewrite (get_unknown page E Ek), get_home. reflexivity.
Qed.

Lemma home_registered : App.components !! "home" = Some App.HomeComponent.
Proof. vm_compute. reflexivity. Qed.

Lemma mark_active_hrefs (p : string) (l1 l2 : list (string * bool)) :
  List.map fst l1 = List.map fst l2 -> App.mark_active p l1 = App.mark_active p l2.
Proof.
  revert l2. induction l1 as [|[h f] l1 IH]; intros [|[h' f'] l2] H;
    try discriminate; [reflexivity|].
  simpl in *. inversion H; subst. now rewrite (IH l2).
Qed.

Lemma mark_active_fst (p : string) (links : list (string * bool)) :
  List.map fst (App.mark_active p links) = List.map fst links.
Proof.
  unfold App.mark_active. rewrite List.map_map. reflexivity.
Qed.

Lemma in_step_loadPage (links : list (string * bool)) (page : string) (a : App.Nav) :
  List.map fst (App.nav_links a) = List.map fst links ->
  in_step_with links (AppEvents.left_behind (App.loadPage page a)).
Proof.
  intros Hq.
  destruct (loadPage_cases page a) as [(c & Hc & ->)|[(Hn & Hin & ->)|(Hn & ->)]];
    unfold in_step_with; simpl; rewrite (mark_active_hrefs _ _ _ Hq).
  - rewrite Hc. split; reflexivity.
  - rewrite Hn. split; [reflexivity|exact Hin].
  - rewrite home_registered. split; reflexivity.
Qed.

Lemma in_step_handle (links : list (string * bool)) (ev : AppEvents.NavEvent) (a : App.Nav) :
  in_step_with links a ->
  in_step_with links (AppEvents.left_behind (AppEvents.handle ev a)).
Proof.
  intros H.
  assert (Hl : List.map fst (App.nav_links a) = List.map fst links)
    by (rewrite (proj1 H); apply mark_active_fst).
  destruct ev as [href|state|page|page]; simpl.
  - unfold AppEvents.click. destruct href as [[|c page]|]; try exact H.
    destruct (Ascii.eqb c "#") eqn:E.
    + apply Ascii.eqb_eq in E. subst c. unfold App.navigate.
      apply in_step_loadPage. exact Hl.
    + assert (Hc : c <> "#"%char) by (intros ->; rewrite Ascii.eqb_refl in E; discriminate).
      destruct c as [[] [] [] [] [] [] [] []]; try exact H. contradiction.
  - unfold AppEvents.popstate. destruct state as [page|]; [|exact H].
    destruct (String.eqb page ""); [exact H|]. apply in_step_loadPage. exact Hl.
  - unfold App.navigate. apply in_step_loadPage. exact Hl.
  - apply in_step_loadPage. exact Hl.
Qed.

Lemma in_step_run (links : list (string * bool)) (evs : list AppEvents.NavEvent) :
  forall a, in_step_with links a -> in_step_with links (AppEvents.nav_run evs a).
Proof.
  induction evs as [|ev evs IH]; intros a H; [exact H|].
  simpl. apply IH, in_step_handle, H.
Qed.

(** X6. After [init], whatever clicks, history events and direct calls
    follow, and whether they return or throw, the links marked active are
    exactly those whose [href] is [#] followed by the current page; the
    page shown is the component registered under the current page,
    unless the current page is a name inherited from [Object.prototype];
    and when no two links share an [href], at most one link is active. *)
Theorem navigation_stays_in_step :
  forall (links : list (string * bool)) (evs : list AppEvents.NavEvent),
    let a := AppEvents.nav_run evs (started links) in
    App.nav_links a = App.mark_active (App.currentPage a) links /\
    match App.components !! App.currentPage a with
    | Some c => App.app_content a = Some c
    | None => In (App.currentPage a) App.Object_prototype_keys
    end /\
    (List.NoDup (List.map fst links) -> (List.length (active_links a) <= 1)%nat).
Proof.
  intros links evs a.
  assert (H : in_step_with links a).
  { subst a. apply in_step_run. unfold started, AppEvents.init, App.navigate.
    apply in_step_loadPage. reflexivity. }
  destruct H as [Hl Hc]. split; [exact Hl|]. split; [exact Hc|].
  intros Hd. unfold active_links. rewrite Hl.
  apply mark_active_at_most_one. exact Hd.
Qed.

(** Five links; a click on the voice link, a throwing call, a history
    event without state. *)
Lemma navigation_stays_in_step_witness :
  let links := [("#home", true); ("#ocr", false); ("#alternatives", false);
                ("#voice", false); ("#notifications", false)] in
  let a := AppEvents.nav_run
             [AppEvents.Click (Some "#voice"); AppEvents.Navigate "toString";
              AppEvents.PopState None] (started links) in
  List.NoDup (List.map fst links) /\
  App.currentPage a = "toString" /\
  (List.length (active_links a) <= 1)%nat.
Proof.
  intros links a.
  assert (Hd : List.NoDup (List.map fst links)).
  { simpl. repeat (constructor; [simpl; intuition discriminate|]). constructor. }
  split; [exact Hd|]. split; [reflexivity|].
  exact (proj2 (proj2 (navigation_stays_in_step links
           [AppEvents.Click (Some "#voice"); AppEvents.Navigate "toString";
            AppEvents.PopState None])) Hd).
Defined.

(** X7. Loading a page again with the key that was just loaded shows
    the same page, the same active links and the same scroll position,
    and runs the [init] hook of the component once more. *)
Theorem loadPage_again :
  forall (page : string) (a a' : App.Nav),
    App.loadPage page a = App.Normal a' ->
    exists c,
      App.app_content a' = Some c /\
      App.loadPage page a'
      = App.Normal (App.mkNav (App.currentPage a') (App.nav_links a') (Some c)
                      (App.initialised a' ++ [c]) (App.history a') (App.scroll a')).
Proof.
  intros page a a' H.
  destruct (loadPage_cases page a) as [(c & Hc & E)|[(Hn & Hin & E)|(Hn & E)]];
    rewrite E in H; inversion H; subst a'; clear H.
  - exists c. split; [reflexivity|].
    destruct (loadPage_cases page
                (App.mkNav page (App.mark_active page (App.nav_links a)) (Some c)
                   (App.initialised a ++ [c]) (App.history a) (0, 0)))
      as [(c' & Hc' & E')|[(Hn' & _)|(Hn' & _)]]; try congruence.
    rewrite E'. simpl. rewrite mark_active_twice. congruence.
  - exists App.HomeComponent. split; [reflexivity|].
    destruct (loadPage_cases page
                (App.mkNav "home" (App.mark_active "home" (App.nav_links a))
                   (Some App.HomeComponent)
                   (App.initialised a ++ [App.HomeComponent]) (App.history a) (0, 0)))
      as [(c' & Hc' & E')|[(Hn' & Hin' & E')|(Hn' & E')]]; try congruence.
    + exfalso.
      assert (Hk : existsb (String.eqb page) App.Object_prototype_keys = true)
        by (apply List.existsb_exists; exists page; split;
            [exact Hin'|apply String.eqb_refl]).
      pose proof (get_inherited page Hin') as Hg.
      unfold App.loadPage in E. rewrite !Hg in E. simpl in E.
      rewrite ?Hg in E. discriminate E.
    + rewrite E'. simpl. rewrite mark_active_twice. reflexivity.
Qed.

(** The voice page loaded twice from the home page. *)
Lemma loadPage_again_witness :
  exists a' a'',
    App.loadPage "voice" nav0 = App.Normal a' /\
    App.loadPage "voice" a' = App.Normal a'' /\
    App.app_content a'' = Some App.VoiceComponent /\
    App.nav_links a'' = App.nav_links a' /\
    App.initialised a'' = [App.HomeComponent; App.VoiceComponent; App.VoiceComponent].
Proof.
  destruct (App.loadPage "voice" nav0) as [a'|e a'] eqn:E; [|vm_compute in E; discriminate E].
  destruct (loadPage_again "voice" nav0 a' E) as (c & Hc & H2).
  eexists a', _. split; [reflexivity|]. split; [exact H2|].
  vm_compute in E. inversion E; subst a'. vm_compute in Hc. inversion Hc; subst c.
  split; [reflexivity|]. split; reflexivity.
Defined.

(** ** [voice.js]: a screening over several turns *)

Lemma processAudio_st (blob : list nat) (stt : outcome (option Voice.SttResult))
    (reply : outcome (option Voice.RespondResult)) (p : Voice.Page) :
  Voice.st (Voice.processAudio blob stt reply p) = Voice.st p.
Proof.
  unfold Voice.processAudio.
  destruct stt as [[s|]|e]; try reflexivity. simpl.
  rewrite processAudio_responded_st. reflexivity.
Qed.

Lemma processAudio_responded_requests (reply : outcome (option Voice.RespondResult))
    (p : Voice.Page) :
  Utils.requests (Voice.env (Voice.processAudio_responded reply p))
  = Utils.requests (Voice.env p).
Proof.
  destruct reply as [[response|]|e]; try reflexivity.
  unfold Voice.processAudio_responded.
  destruct (Voice.is_string (Voice.status response) "complete"); [reflexivity|].
  destruct (Voice.is_string (Voice.status response) "next_question"); reflexivity.
Qed.

Lemma processAudio_requests (blob : list nat) (stt : outcome (option Voice.SttResult))
    (reply : outcome (option Voice.RespondResult)) (p : Voice.Page) :
  exists sent,
    Utils.requests (Voice.env (Voice.processAudio blob stt reply p))
    = (Utils.requests (Voice.env p) ++ sent)%list /\
    Forall (of_session (Voice.sessionId (Voice.st p))) sent.
Proof.
  unfold Voice.processAudio.
  destruct stt as [[s|]|e]; simpl.
  - rewrite processAudio_responded_requests. simpl.
    eexists [_; _]. split; [now rewrite <- app_assoc|].
    repeat constructor.
  - eexists [_]. split; [reflexivity|]. repeat constructor.
  - eexists [_]. split; [reflexivity|]. repeat constructor.
Qed.

Lemma turns_keep_session (turns : list Turn) :
  forall p : Voice.Page,
    Voice.st (fold_left take_turn turns p) = Voice.st p /\
    exists sent,
      Utils.requests (Voice.env (fold_left take_turn turns p))
      = (Utils.requests (Voice.env p) ++ sent)%list /\
      Forall (of_session (Voice.sessionId (Voice.st p))) sent.
Proof.
  induction turns as [|[[blob stt] reply] turns IH]; intros p.
  - split; [reflexivity|]. exists []. split; [now rewrite app_nil_r|constructor].
  - simpl. destruct (IH (Voice.processAudio blob stt reply p)) as (Hst & sent & Hr & Hf).
    rewrite processAudio_st in Hst, Hf. split; [exact Hst|].
    destruct (processAudio_requests blob stt reply p) as (sent0 & Hr0 & Hf0).
    exists (sent0 ++ sent)%list. split.
    + rewrite Hr, Hr0. now rewrite <- app_assoc.
    + apply Forall_app_2; assumption.
Qed.

(** X8. After a successful start, however many turns follow and however
    their calls end, the component keeps the session identifier the start
    returned, and every answer submitted meanwhile is sent under that
    identifier; the turns send nothing but transcriptions and answers. *)
Theorem turns_answer_under_started_session :
  forall (result : Voice.StartResult) (p : Voice.Page) (turns : list Turn),
    let p1 := Voice.startScreening (Resolved (Some result)) p in
    let pn := fold_left take_turn turns p1 in
    Voice.sessionId (Voice.st pn) = Voice.session_id result /\
    exists sent,
      Utils.requests (Voice.env pn) = (Utils.requests (Voice.env p1) ++ sent)%list /\
      Forall (of_session (Voice.session_id result)) sent.
Proof.
  intros result p turns p1 pn. subst pn.
  destruct (turns_keep_session turns p1) as (Hst & sent & Hr & Hf).
  split; [rewrite Hst; reflexivity|].
  exists sent. split; [exact Hr|exact Hf].
Qed.

(** X9. A [complete] reply hides the screening interface and shows the
    results with the score of the reply, but leaves the session
    identifier in the component; [resetScreening] then brings the page
    to the idle state, without touching the recording fields. *)
Theorem complete_then_reset :
  forall (blob : list nat) (stt : Voice.SttResult) (response : Voice.RespondResult)
         (p : Voice.Page),
    Voice.status response = VStr "complete" ->
    let p' := Voice.processAudio blob (Resolved (Some stt)) (Resolved (Some response)) p in
    Voice.screeningInterface_display (Voice.dom p') = "none" /\
    Voice.screeningResults_display (Voice.dom p') = "block" /\
    Voice.screeningScore_text (Voice.dom p') = [Voice.Val (displayed_score response)] /\
    Utils.loadingOverlay (Voice.env p') = "none" /\
    Voice.sessionId (Voice.st p') = Voice.sessionId (Voice.st p) /\
    idle (Voice.resetScreening p') /\
    recording_fields (Voice.st (Voice.resetScreening p')) = recording_fields (Voice.st p).
Proof.
  intros blob stt response p Hs p'. subst p'.
  unfold Voice.processAudio, Voice.processAudio_transcribed,
    Voice.processAudio_responded; simpl.
  rewrite Hs; simpl.
  repeat split. discriminate.
Qed.

(** A screening started, answered once and completed with score 12, then
    reset. *)
Lemma complete_then_reset_witness :
  let p1 := Voice.startScreening (Resolved (Some (start_result 1 2))) Voice.page0 in
  let p2 := Voice.processAudio [0%nat] (Resolved (Some stt_yes))
              (Resolved (Some (respond_next 2 2 2))) p1 in
  let p3 := Voice.processAudio [1%nat] (Resolved (Some stt_yes))
              (Resolved (Some (respond_complete (VNum (Fin 12))))) p2 in
  Voice.screeningResults_display (Voice.dom p3) = "block" /\
  Voice.sessionId (Voice.st p3) = VStr "session-1" /\
  idle (Voice.resetScreening p3).
Proof.
  intros p1 p2 p3.
  destruct (complete_then_reset [1%nat] stt_yes (respond_complete (VNum (Fin 12))) p2 eq_refl)
    as (_ & Hr & _ & _ & Hs & Hi & _).
  fold p3 in Hr, Hs, Hi.
  split; [exact Hr|]. split; [rewrite Hs; reflexivity|exact Hi].
Defined.

(** X10. A reply whose [status] is neither [complete] nor
    [next_question] is dropped without a word: the transcription is
    shown and the overlay hidden, and nothing else on the page, no field
    of the component and no toast changes. *)
Theorem unknown_status_is_ignored :
  forall (blob : list nat) (stt : Voice.SttResult) (response : Voice.RespondResult)
         (p : Voice.Page),
    Voice.is_string (Voice.status response) "complete" = false ->
    Voice.is_string (Voice.status response) "next_question" = false ->
    let p' := Voice.processAudio blob (Resolved (Some stt)) (Resolved (Some response)) p in
    Voice.st p' = Voice.st p /\
    Voice.dom p'
    = Voice.set_transcription "block" [Voice.Val (Voice.stt_text stt)] (Voice.dom p) /\
    Utils.toasts (Voice.env p') = Utils.toasts (Voice.env p) /\
    Utils.console (Voice.env p') = Utils.console (Voice.env p) /\
    Utils.loadingOverlay (Voice.env p') = "none".
Proof.
  intros blob stt response p H1 H2 p'. subst p'.
  unfold Voice.processAudio, Voice.processAudio_transcribed,
    Voice.processAudio_responded; simpl.
  rewrite H1, H2. repeat split.
Qed.

(** A reply with the status [error], and one without a status. *)
Lemma unknown_status_is_ignored_witness :
  let p1 := Voice.startScreening (Resolved (Some (start_result 1 5))) Voice.page0 in
  let p2 := Voice.processAudio [0%nat] (Resolved (Some stt_yes))
              (Resolved (Some (respond_status (VStr "error")))) p1 in
  let p3 := Voice.processAudio [1%nat] (Resolved (Some stt_yes))
              (Resolved (Some (respond_status VUndefined))) p2 in
  Utils.toasts (Voice.env p3) = Utils.toasts (Voice.env p1) /\
  progress_fields (Voice.dom p3) = progress_fields (Voice.dom p1).
Proof.
  intros p1 p2 p3.
  destruct (unknown_status_is_ignored [0%nat] stt_yes (respond_status (VStr "error")) p1
              eq_refl eq_refl) as (_ & Hd2 & Ht2 & _).
  destruct (unknown_status_is_ignored [1%nat] stt_yes (respond_status VUndefined) p2
              eq_refl eq_refl) as (_ & Hd3 & Ht3 & _).
  fold p2 in Hd2, Ht2, Hd3, Ht3. fold p3 in Hd3, Ht3.
  split; [rewrite Ht3, Ht2; reflexivity|].
  rewrite Hd3, Hd2. reflexivity.
Defined.

(** X11. A [next_question] reply that carries no question moves the
    progress on to the numbers of the reply and leaves the question panel
    showing the previous question. *)
Theorem next_question_without_question :
  forall (blob : list nat) (stt : Voice.SttResult) (response : Voice.RespondResult)
         (p : Voice.Page),
    Voice.status response = VStr "next_question" ->
    Voice.next_question response = None ->
    let p' := Voice.processAudio blob (Resolved (Some stt)) (Resolved (Some response)) p in
    Voice.currentQuestion (Voice.dom p') = Voice.currentQuestion (Voice.dom p) /\
    Voice.progressText (Voice.dom p')
    = caption (Voice.current_question_number response) (Voice.total_questions response) /\
    Utils.toasts (Voice.env p') = Utils.toasts (Voice.env p).
Proof.
  intros blob stt response p Hs Hq p'. subst p'.
  unfold Voice.processAudio, Voice.processAudio_transcribed,
    Voice.processAudio_responded; simpl.
  rewrite Hs; simpl. rewrite Hq. repeat split.
Qed.

(** After the first question, a reply "2 of 5" without a question. *)
Lemma next_question_without_question_witness :
  let p1 := Voice.startScreening (Resolved (Some (start_result 1 5))) Voice.page0 in
  let p2 := Voice.processAudio [0%nat] (Resolved (Some stt_yes))
              (Resolved (Some (respond_status (VStr "next_question")))) p1 in
  Voice.currentQuestion (Voice.dom p2) = Voice.currentQuestion (Voice.dom p1) /\
  Voice.progressText (Voice.dom p2) = caption (VNum (Fin 2)) (VNum (Fin 5)).
Proof.
  intros p1 p2.
  destruct (next_question_without_question [0%nat] stt_yes
              (respond_status (VStr "next_question")) p1 eq_refl eq_refl)
    as (Hq & Hp & _).
  split; [exact Hq|exact Hp].
Defined.

(** ** [voice.js]: the progress bar *)

Lemma one_is_double : (nearest 1 == 1)%Q /\ (nearest 1 < pow2 1024)%Q.
Proof. split; vm_compute; reflexivity. Qed.

Lemma hundred_is_double : (nearest 100 == 100)%Q /\ (nearest 100 < pow2 1024)%Q.
Proof. split; vm_compute; reflexivity. Qed.

Lemma Qeqb0_false (q : Q) : ~ (q == 0)%Q -> Qeqb0 q = false.
Proof.
  intros H. unfold Qeqb0. apply Z.eqb_neq. intros E. apply H.
  unfold Qeq. simpl. rewrite E. reflexivity.
Qed.

Lemma Qeqb0_true (q : Q) : Qeqb0 q = true -> (q == 0)%Q.
Proof.
  unfold Qeqb0. intros H. apply Z.eqb_eq in H. unfold Qeq. simpl. rewrite H. reflexivity.
Qed.

(** A quotient [c / t] with [0 <= c <= t] is a number from 0 to 1. *)
Lemma div_within (c t : Q) :
  (0 <= c)%Q -> (c <= t)%Q -> (0 < t)%Q ->
  exists x, div (Fin c) (Fin t) = Fin x /\ (0 <= x)%Q /\ (x <= 1)%Q.
Proof.
  intros H0 Hc Ht. unfold div, shape_of.
  rewrite (Qeqb0_false t) by lra.
  assert (Hs : Qltb t 0 = false) by (apply Qltb_ge; lra).
  destruct (Qeqb0 c) eqn:E.
  - rewrite Hs. exists 0%Q. split; [reflexivity|]. split; lra.
  - destruct one_is_double as [H1 H1'].
    destruct (Number_value_upto (c / t) 1) as (x & Hx & Hx0 & Hx1).
    + apply Qle_shift_div_l; [exact Ht|]. lra.
    + apply Qle_shift_div_r; [exact Ht|]. lra.
    + reflexivity.
    + exact H1'.
    + exists x. split; [exact Hx|]. split; [exact Hx0|]. lra.
Qed.

(** A hundred times a number from 0 to 1 is a number from 0 to 100. *)
Lemma mul100_within (x : Q) :
  (0 <= x)%Q -> (x <= 1)%Q ->
  exists q, mul (Fin x) (Fin 100) = Fin q /\ (0 <= q)%Q /\ (q <= 100)%Q.
Proof.
  intros H0 H1. unfold mul, shape_of.
  change (Qeqb0 100) with false.
  destruct (Qeqb0 x) eqn:E.
  - exists 0%Q. split; [reflexivity|]. split; lra.
  - destruct hundred_is_double as [Hh Hh'].
    destruct (Number_value_upto (x * 100) 100) as (q & Hq & Hq0 & Hq1);
      [lra|lra|reflexivity|exact Hh'|].
    exists q. split; [exact Hq|]. split; [exact Hq0|]. lra.
Qed.

Lemma percentage_within (c t : Z) :
  0 < t -> 0 <= c <= t ->
  exists q, percentage (VNum (Fin (inject_Z c))) (VNum (Fin (inject_Z t))) = Fin q /\
            (0 <= q)%Q /\ (q <= 100)%Q /\ (c = t -> q = 100%Q).
Proof.
  intros Ht Hc. unfold percentage. cbn [toNumber].
  assert (Ht' : (0 < inject_Z t)%Q) by (apply inject_Z_pos; exact Ht).
  destruct (Z.eq_dec c t) as [->|Hne].
  - exists 100%Q.
    assert (E : div (Fin (inject_Z t)) (Fin (inject_Z t)) = Fin 1).
    { unfold div, shape_of. rewrite (Qeqb0_false (inject_Z t)) by lra.
      rewrite (Number_value_comp (inject_Z t / inject_Z t) 1).
      - vm_compute. reflexivity.
      - field. lra. }
    rewrite E. split; [vm_compute; reflexivity|]. split; [discriminate|].
    split; [discriminate|reflexivity].
  - destruct (div_within (inject_Z c) (inject_Z t)) as (x & Hx & Hx0 & Hx1).
    + change 0%Q with (inject_Z 0). rewrite <- Zle_Qle. lia.
    + rewrite <- Zle_Qle. lia.
    + exact Ht'.
    + rewrite Hx. destruct (mul100_within x Hx0 Hx1) as (q & Hq & Hq0 & Hq1).
      exists q. split; [exact Hq|]. split; [exact Hq0|]. split; [exact Hq1|].
      intros E. contradiction.
Qed.

(** X12. For a positive whole [total] and a whole [current] between 0 and
    [total], [updateProgress] gives the bar a width between 0% and 100%
    and a label that is a whole number between 0 and 100; both are 100
    when [current] is [total]. Without a [total] the label says NaN and
    the bar keeps the width it had. *)
Theorem progress_within_bounds :
  (forall (c t : Z) (d : Voice.Dom),
     0 < t -> 0 <= c <= t ->
     let d' := Voice.updateProgress (VNum (Fin (inject_Z c))) (VNum (Fin (inject_Z t))) d in
     exists (q : Q) (k : Z),
       Voice.screeningProgress_width d' = [Voice.Val (VNum (Fin q)); Voice.Lit "%"] /\
       (0 <= q)%Q /\ (q <= 100)%Q /\
       Voice.screeningProgress_text d' = [Voice.Val (VNum (Fin (inject_Z k))); Voice.Lit "%"] /\
       0 <= k <= 100 /\
       (c = t -> q = 100%Q /\ k = 100)) /\
  (forall (current : jsval) (d : Voice.Dom),
     let d' := Voice.updateProgress current VUndefined d in
     Voice.screeningProgress_width d' = Voice.screeningProgress_width d /\
     Voice.screeningProgress_text d' = [Voice.Val (VNum NaN); Voice.Lit "%"]).
Proof.
  split.
  - intros c t d Ht Hc d'.
    destruct (percentage_within c t Ht Hc) as (q & Hq & H0 & H100 & Heq).
    destruct (updateProgress_progress (VNum (Fin (inject_Z c))) (VNum (Fin (inject_Z t))) d)
      as (Htext & _ & Hw & _).
    fold d' in Htext, Hw. rewrite Hq in Htext, Hw.
    assert (Hr : Math_round (Fin q) = Fin (inject_Z (Qfloor (q + (1 # 2))))).
    { unfold Math_round. replace (Qltb q 0) with false; [now rewrite andb_false_r|].
      symmetry. apply Qltb_ge. exact H0. }
    exists q, (Qfloor (q + (1 # 2))).
    split; [apply Hw; exact H0|]. split; [exact H0|]. split; [exact H100|].
    split; [rewrite Htext, Hr; reflexivity|]. split.
    + split.
      * change 0 with (Qfloor 0). apply Qfloor_resp_le. lra.
      * change 100 with (Qfloor (100 + (1 # 2))). apply Qfloor_resp_le. lra.
    + intros E. rewrite (Heq E). split; reflexivity.
  - intros current d d'.
    assert (E : percentage current VUndefined = NaN).
    { unfold percentage. cbn [toNumber]. unfold div.
      destruct (shape_of (toNumber current)); reflexivity. }
    destruct (updateProgress_progress current VUndefined d) as (Htext & _ & _ & Hk).
    fold d' in Htext, Hk. rewrite E in Htext, Hk.
    split; [apply Hk; intros H; exact H|exact Htext].
Qed.

(** Question 23 of 40: the quotient is the double 0.575, a hundred
    times it the double 57.49999999999999, and the label says 57. *)
Lemma progress_within_bounds_witness :
  let d' := Voice.updateProgress (VNum (Fin 23)) (VNum (Fin 40)) Voice.render in
  exists q : Q,
    Voice.screeningProgress_width d' = [Voice.Val (VNum (Fin q)); Voice.Lit "%"] /\
    (0 <= q)%Q /\ (q <= 100)%Q /\
    Number_toString (Fin q) = "57.49999999999999" /\
    Voice.screeningProgress_text d' = [Voice.Val (VNum (Fin 57)); Voice.Lit "%"].
Proof.
  intros d'.
  destruct (proj1 progress_within_bounds 23 40 Voice.render) as (q & k & Hw & H0 & H100 & Ht & _);
    [lia|lia|].
  change (Voice.updateProgress _ _ _) with d' in Hw, Ht.
  exists q. split; [exact Hw|]. split; [exact H0|]. split; [exact H100|].
  assert (E : Voice.screeningProgress_width d'
              = [Voice.Val (VNum (Fin (8092405580431359 # 140737488355328))); Voice.Lit "%"])
    by (vm_compute; reflexivity).
  rewrite E in Hw. inversion Hw; subst q.
  split; vm_compute; reflexivity.
Defined.

(** ** [voice.js]: recorders and their streams *)

Section RecorderFacts.
Import Voice.

Lemma stream_follows_new :
  stream_follows {| rec_state := recording; tracks_live := true |}.
Proof. split; reflexivity. Qed.

Lemma stream_follows_stopped :
  stream_follows {| rec_state := inactive; tracks_live := false |}.
Proof. split; discriminate. Qed.

Lemma released_stopRecording (w : World) :
  Forall stream_follows (recorders w) -> Forall stream_follows (recorders (stopRecording w)).
Proof.
  intros H. unfold stopRecording.
  destruct (mediaRecorder (st (page w))) as [rid|]; [|exact H].
  destruct (isRecording (st (page w))); [|exact H].
  simpl. apply Forall_alter; [exact H|]. intros; apply stream_follows_stopped.
Qed.

Lemma released_resume (t : Task) (c : Completion) (w w' : World) :
  Forall stream_follows (recorders w) ->
  resume t c w = Some w' ->
  Forall stream_follows (recorders w').
Proof.
  intros H Hr. destruct t, c; simpl in Hr; try discriminate;
    try (inversion Hr; subst w'; exact H).
  - inversion Hr; subst w'. simpl.
    apply Forall_app_2; [exact H|]. repeat constructor; reflexivity || discriminate.
  - destruct (processAudio_transcribed r (page w)) as [p []];
      inversion Hr; subst w'; exact H.
Qed.

Lemma released_step (ev : Event) (w : World) :
  Forall stream_follows (recorders w) -> Forall stream_follows (recorders (step ev w)).
Proof.
  intros H. destruct ev as [| | | |i c]; simpl; try exact H.
  - unfold toggleRecording. destruct (isRecording (st (page w))); [|exact H].
    apply released_stopRecording, H.
  - apply released_stopRecording, H.
  - destruct (tasks w !! i) as [t|]; [|exact H].
    destruct (resume t c _) as [w'|] eqn:E; [|exact H].
    eapply released_resume; [|exact E]. exact H.
Qed.

(** X13. Whatever events reach the voice page and however they overlap,
    the stream of every recorder is live exactly while that recorder is
    capturing: [stopRecording] releases the microphone of the recorder it
    stops, and nothing else touches a stream. *)
Theorem stream_live_while_capturing :
  forall evs : list Event, Forall stream_follows (recorders (run evs world0)).
Proof.
  intros evs. unfold run.
  assert (H : forall w, Forall stream_follows (recorders w) ->
                Forall stream_follows
                  (recorders (fold_left (fun w ev => step ev w) evs w))).
  { induction evs as [|ev evs IH]; intros w Hw; [exact Hw|].
    simpl. apply IH, released_step, Hw. }
  apply H. constructor.
Qed.

(** X14. A recording started by a settled click and stopped by the next
    click sends, once the events of the recorder are delivered, one
    transcription request whose audio is the data of that recorder alone,
    whatever [audioChunks] held before; the recorder is then inactive,
    its stream released, and the overlay is shown while the
    transcription is awaited. *)
Theorem record_cycle_sends_own_audio :
  forall (w : World) (granted : bool),
    isRecording (st (page w)) = false ->
    let rid := length (recorders w) in
    let w' := fold_left gesture_step
                [Record true; Record granted; Settle (length (tasks w)) Delivered] w in
    Utils.requests (env (page w'))
    = (Utils.requests (env (page w)) ++
       [Api.SpeechToText [rid] (voiceLanguageSelect (dom (page w)))])%list /\
    audioChunks (st (page w')) = [rid] /\
    isRecording (st (page w')) = false /\
    recorders w' !! rid = Some {| rec_state := inactive; tracks_live := false |} /\
    Utils.loadingOverlay (env (page w')) = "flex" /\
    tasks w' = (tasks w ++ [AwaitStt])%list.
Proof.
  intros w granted Hoff rid w'. subst w'. simpl.
  rewrite (settled_toggle_eq true w), Hoff.
  rewrite settled_toggle_eq. simpl.
  unfold stopRecording. simpl.
  rewrite list_lookup_middle by reflexivity.
  rewrite delete_middle, app_nil_r. simpl.
  repeat split.
  subst rid. rewrite list_lookup_alter_eq, list_lookup_middle by reflexivity.
  reflexivity.
Qed.

(** The first recording on the fresh page. *)
Lemma record_cycle_sends_own_audio_witness :
  let w' := fold_left gesture_step [Record true; Record true; Settle 0 Delivered] world0 in
  Utils.requests (env (page w')) = [Api.SpeechToText [0%nat] "en"] /\
  active_recorders w' = [].
Proof.
  intros w'.
  destruct (record_cycle_sends_own_audio world0 true eq_refl) as (Hr & _).
  split; [exact Hr|reflexivity].
Defined.

End RecorderFacts.

(** ** [notifications.js]: the shopping list *)

Lemma lift_page (f : Alternatives.Page -> Alternatives.Page) (s : Cart.Shop) :
  Cart.page (Cart.lift f s) = f (Cart.page s).
Proof. reflexivity. Qed.

(** [displayShoppingList] writes the two elements of the list and
    nothing else. *)
Lemma displayShoppingList_frame (p p' : Alternatives.Page) :
  Alternatives.displayShoppingList p = inr p' ->
  Alternatives.st p' = Alternatives.st p /\ Alternatives.env p' = Alternatives.env p.
Proof.
  unfold Alternatives.displayShoppingList.
  destruct (Alternatives.shoppingList (Alternatives.st p)) as [v|]; [|discriminate].
  destruct (is_zero (Alternatives.length_of v)).
  - intros H. inversion H. split; reflexivity.
  - destruct v as [elements|len]; [|discriminate].
    destruct (Alternatives.map_throwing Alternatives.render_item elements); [discriminate|].
    intros H. inversion H. split; reflexivity.
Qed.

(** What [loadShoppingList] does besides displaying: one request, no
    toast, the overlay untouched, and the reply, if there is one, in the
    field. *)
Lemma loadShoppingList_frame (fetched : outcome (option Alternatives.ListValue))
    (p : Alternatives.Page) :
  let p' := Alternatives.loadShoppingList fetched p in
  Utils.requests (Alternatives.env p')
  = (Utils.requests (Alternatives.env p) ++ [Api.GetShoppingList Alternatives.USER_ID])%list /\
  Utils.toasts (Alternatives.env p') = Utils.toasts (Alternatives.env p) /\
  Utils.loadingOverlay (Alternatives.env p') = Utils.loadingOverlay (Alternatives.env p) /\
  Alternatives.shoppingList (Alternatives.st p')
  = match fetched with
    | Resolved reply => reply
    | Rejected _ => Alternatives.shoppingList (Alternatives.st p)
    end.
Proof.
  unfold Alternatives.loadShoppingList.
  destruct fetched as [reply|e]; [|repeat split].
  match goal with |- context [Alternatives.displayShoppingList ?q] =>
    destruct (Alternatives.displayShoppingList q) as [err|p2] eqn:E
  end.
  - repeat split.
  - destruct (displayShoppingList_frame _ _ E) as [Hst Henv].
    cbv zeta. rewrite Hst, Henv. repeat split.
Qed.

(** A renderable array is rendered row by row. *)
Lemma render_rows (elements : list (option Alternatives.Item)) :
  Forall (fun element =>
            exists item n, element = Some item /\
                           Alternatives.hormonal_health_score item = VNum n) elements ->
  exists rows,
    Alternatives.map_throwing Alternatives.render_item elements = inr rows /\
    Forall2 shows elements rows.
Proof.
  induction elements as [|element elements IH]; intros H.
  - exists []. split; [reflexivity|constructor].
  - inversion H as [|? ? (item & n & -> & Hs) Hrest]; subst.
    destruct (IH Hrest) as (rows & Hr & HF).
    eexists (_ :: rows). split.
    + cbn [Alternatives.map_throwing]. unfold Alternatives.render_item at 1.
      rewrite Hs. cbn [Alternatives.score_toFixed1]. rewrite Hr. reflexivity.
    + constructor; [|exact HF]. exists item, n. repeat split. exact Hs.
Qed.

(** An array with an element that cannot be shown makes the rendering
    throw. *)
Lemma render_throws (elements : list (option Alternatives.Item)) :
  ~ renderable (Some (Alternatives.Entries elements)) ->
  exists e, Alternatives.map_throwing Alternatives.render_item elements = inl e.
Proof.
  intros Hn.
  destruct (Alternatives.map_throwing Alternatives.render_item elements) as [e|rows] eqn:E;
    [eauto|exfalso].
  apply Hn. exists elements. split; [reflexivity|].
  clear Hn. revert rows E.
  induction elements as [|element elements IH]; intros rows E; [constructor|].
  cbn [Alternatives.map_throwing] in E.
  destruct (Alternatives.render_item element) as [e|row] eqn:El; [discriminate|].
  destruct (Alternatives.map_throwing Alternatives.render_item elements) as [e|rs] eqn:Em;
    [discriminate|].
  constructor; [|eapply IH; reflexivity].
  unfold Alternatives.render_item in El.
  destruct element as [item|]; [|discriminate].
  destruct (Alternatives.hormonal_health_score item) as [| |b|n|t] eqn:Es;
    try discriminate.
  exists item, n. split; [reflexivity|exact Es].
Qed.

Lemma is_zero_length (elements : list (option Alternatives.Item)) :
  is_zero (Alternatives.length_of (Alternatives.Entries elements))
  = match elements with [] => true | _ => false end.
Proof. destruct elements; reflexivity. Qed.

(** A renderable reply brings list and page in step, whatever they were
    before. *)
Lemma in_step_load_renderable (reply : option Alternatives.ListValue)
    (p : Alternatives.Page) :
  renderable reply -> list_in_step (Alternatives.loadShoppingList (Resolved reply) p).
Proof.
  intros (elements & -> & Hel).
  unfold Alternatives.loadShoppingList, Alternatives.displayShoppingList.
  cbn [Alternatives.st Alternatives.shoppingList].
  rewrite is_zero_length.
  destruct elements as [|element elements].
  - exists []. split; [reflexivity|]. split; [constructor|]. split; reflexivity.
  - destruct (render_rows _ Hel) as (rows & Hr & HF). rewrite Hr.
    exists (element :: elements). split; [reflexivity|]. split; [exact HF|].
    split; discriminate.
Qed.

Lemma in_step_load_rejected (e : JsError) (p : Alternatives.Page) :
  list_in_step p -> list_in_step (Alternatives.loadShoppingList (Rejected e) p).
Proof. intros H. exact H. Qed.

Lemma in_step_searchAlternatives (settled : outcome (list Alternatives.Alternative))
    (p : Alternatives.Page) :
  list_in_step p -> list_in_step (Alternatives.searchAlternatives settled p).
Proof.
  intros H. unfold Alternatives.searchAlternatives.
  destruct (String.eqb _ ""); [exact H|].
  destruct (_ || _ || _); [exact H|].
  destruct settled; exact H.
Qed.

Lemma in_step_clickExport (p : Alternatives.Page) :
  list_in_step p -> list_in_step (Cart.clickExport p).
Proof.
  intros H. unfold Cart.clickExport, Alternatives.exportShoppingList.
  destruct (Alternatives.shoppingList (Alternatives.st p)) as [[elements|len]|] eqn:E;
    try exact H.
  destruct (Alternatives.map_throwing Alternatives.export_line elements); exact H.
Qed.

Lemma in_step_op (D : string) (op : Cart.Op) (s : Cart.Shop) :
  benign op -> list_in_step (Cart.page s) -> list_in_step (Cart.page (Cart.op_step D s op)).
Proof.
  intros Hb H.
  destruct op as [settled|pid pname added fetched|iid removed fetched|fetched| |c sc pr rg|fetched];
    cbn [Cart.op_step].
  - apply in_step_searchAlternatives, H.
  - unfold Cart.addToCart. destruct added as [[]|e]; [|exact H].
    destruct fetched as [reply|e]; [|exact H].
    apply in_step_load_renderable. exact Hb.
  - unfold Cart.removeFromCart. destruct removed as [[]|e]; [|exact H].
    destruct fetched as [reply|e]; [|exact H].
    apply in_step_load_renderable. exact Hb.
  - destruct fetched as [reply|e]; [|exact H].
    apply in_step_load_renderable. exact Hb.
  - apply in_step_clickExport, H.
  - exact H.
  - destruct fetched as [reply|e]; [|contradiction].
    apply in_step_load_renderable. exact Hb.
Qed.

(** X15. From the page as first rendered, whatever searches, additions,
    removals, reloads, exports, form entries and renderings anew follow
    one another, the rows of the shopping list on the page show the
    elements of the array the component holds and the export button is
    hidden exactly when that array is empty, as long as every fetch of
    the list that answers gives a renderable reply and every rendering
    anew is followed by such an answer; a renderable reply brings page and
    component in step whatever came before. They fall out of step when
    the page is rendered anew and the fetch fails while the component
    holds a list that is not empty, and when a reply that is not
    renderable is assigned to the field. *)
Theorem shopping_list_stays_in_step :
  forall DEVICE_ID : string,
    let held s := Alternatives.shoppingList (Alternatives.st (Cart.page s)) in
    let rows s := Alternatives.shoppingListContainer (Alternatives.dom (Cart.page s)) in
    (forall ops : list Cart.Op,
       Forall benign ops ->
       list_in_step (Cart.page (fold_left (Cart.op_step DEVICE_ID) ops Cart.shop0))) /\
    (forall (s : Cart.Shop) (reply : option Alternatives.ListValue),
       renderable reply ->
       list_in_step (Cart.page (Cart.op_step DEVICE_ID s (Cart.Reload (Resolved reply))))) /\
    (forall (s : Cart.Shop) (e : JsError),
       held s <> Some (Alternatives.Entries []) ->
       let s' := Cart.op_step DEVICE_ID s (Cart.Rerender (Rejected e)) in
       held s' = held s /\ rows s' = [] /\ ~ list_in_step (Cart.page s')) /\
    (forall (s : Cart.Shop) (reply : option Alternatives.ListValue),
       ~ renderable reply ->
       let s' := Cart.op_step DEVICE_ID s (Cart.Reload (Resolved reply)) in
       held s' = reply /\
       ~ list_in_step (Cart.page s') /\
       ((reply = None \/ exists elements, reply = Some (Alternatives.Entries elements)) ->
        Alternatives.dom (Cart.page s') = Alternatives.dom (Cart.page s))).
Proof.
  intros D held rows. split; [|split; [|split]].
  - intros ops.
    assert (H : forall s, list_in_step (Cart.page s) -> Forall benign ops ->
                  list_in_step (Cart.page (fold_left (Cart.op_step D) ops s))).
    { induction ops as [|op ops IH]; intros s Hs Hb; [exact Hs|].
      inversion Hb; subst. simpl. apply IH; [|assumption]. apply in_step_op; assumption. }
    apply H. exists []. split; [reflexivity|]. split; [constructor|]. split; reflexivity.
  - intros s reply Hr. cbn [Cart.op_step]. rewrite lift_page.
    apply in_step_load_renderable, Hr.
  - intros s e Hne s'. subst s' held rows. cbn.
    split; [reflexivity|]. split; [reflexivity|].
    intros (elements & Hheld & HF & _). cbn in HF. inversion HF; subst.
    apply Hne. exact Hheld.
  - intros s reply Hn s'. subst s' held rows.
    cbn [Cart.op_step]. rewrite lift_page.
    pose proof (loadShoppingList_frame (Resolved reply) (Cart.page s)) as (_ & _ & _ & Hheld).
    cbv zeta in Hheld.
    split; [exact Hheld|]. split.
    + intros (elements & He & HF & _). apply Hn. rewrite Hheld in He.
      exists elements. split; [exact He|].
      clear - HF. induction HF as [|element row elements rows' (item & n & -> & Hs & _) _ IH];
        constructor; [eauto|exact IH].
    + intros Hcase.
      unfold Alternatives.loadShoppingList, Alternatives.displayShoppingList.
      cbn [Alternatives.st Alternatives.shoppingList].
      destruct Hcase as [->|(elements & ->)]; [reflexivity|].
      rewrite is_zero_length.
      destruct elements as [|element elements].
      * exfalso. apply Hn. exists []. split; [reflexivity|constructor].
      * destruct (render_throws _ Hn) as (err & ->). reflexivity.
Qed.

(** A list of two products is fetched and one is removed; then the page
    is rendered anew while the service is down; then an error body
    arrives where the list was expected. *)
Lemma shopping_list_stays_in_step_witness :
  let s1 := fold_left (Cart.op_step "device-1")
              [Cart.Reload (Resolved two_products);
               Cart.Remove 7 (Resolved tt) (Rejected network_error)] Cart.shop0 in
  let s2 := Cart.op_step "device-1" s1 (Cart.Rerender (Rejected network_error)) in
  let s3 := Cart.op_step "device-1" s1 (Cart.Reload (Resolved not_a_list)) in
  list_in_step (Cart.page s1) /\
  List.map Alternatives.row_score
    (Alternatives.shoppingListContainer (Alternatives.dom (Cart.page s1))) = ["88.0"; "76.5"] /\
  ~ list_in_step (Cart.page s2) /\
  ~ list_in_step (Cart.page s3) /\
  Alternatives.shoppingList (Alternatives.st (Cart.page s3)) = not_a_list.
Proof.
  intros s1 s2 s3.
  assert (Hr : renderable two_products).
  { eexists. split; [reflexivity|]. repeat constructor; eexists _, _; split; reflexivity. }
  destruct (shopping_list_stays_in_step "device-1") as (Hstay & _ & Hanew & Hbad).
  split.
  { apply Hstay. constructor; [exact Hr|]. constructor; [exact I|constructor]. }
  split; [vm_compute; reflexivity|].
  split.
  { apply (Hanew s1 network_error). discriminate. }
  assert (Hn : ~ renderable not_a_list).
  { intros (elements & He & _). discriminate He. }
  destruct (Hbad s1 not_a_list Hn) as (Hheld & Hout & _).
  split; [exact Hout|exact Hheld].
Defined.

(** X16. [addToCart] and [removeFromCart] end with the overlay hidden.
    When the mutation succeeds they show the success toast and fetch the
    list again, whatever it held, and the reply replaces it; if that
    fetch fails the old list stays and no further toast is shown. When
    the mutation fails they show the failure toast and fetch nothing. *)
Theorem cart_mutations_refetch :
  forall (DEVICE_ID productId productName : string) (itemId : Z)
         (done : outcome unit) (fetched : outcome (option Alternatives.ListValue))
         (s : Cart.Shop),
    mutation_outcome
      (Calls.AddToShoppingList Alternatives.USER_ID productId DEVICE_ID
         (Alternatives.currentCategory (Alternatives.st (Cart.page s))))
      (productName ++ " added to shopping list") "Failed to add to shopping list"
      done fetched s
      (Cart.addToCart DEVICE_ID productId productName done fetched s) /\
    mutation_outcome
      (Calls.RemoveFromShoppingList Alternatives.USER_ID itemId)
      "Item removed from shopping list" "Failed to remove item"
      done fetched s
      (Cart.removeFromCart itemId done fetched s).
Proof.
  intros D pid pname iid done fetched s.
  unfold mutation_outcome, Cart.addToCart, Cart.removeFromCart.
  destruct done as [[]|e]; [|repeat split].
  split.
  - match goal with |- context [Cart.lift (Alternatives.loadShoppingList fetched) ?s0] =>
      set (s1 := s0)
    end.
    pose proof (loadShoppingList_frame fetched (Cart.page s1)) as (Hreq & Hto & _ & Hheld).
    cbv zeta in Hreq, Hto, Hheld.
    split; [reflexivity|]. split; [|split].
    + cbn [Cart.on_env Cart.calls Cart.lift Cart.page]. rewrite Hreq, drop_app_length.
      subst s1. cbn. now rewrite <- app_assoc.
    + cbn [Cart.on_env Cart.page Cart.lift Alternatives.with_env Alternatives.env
           Utils.hideLoading Utils.toasts]. rewrite Hto. reflexivity.
    + cbn [Cart.on_env Cart.page Cart.lift Alternatives.with_env Alternatives.st].
      rewrite Hheld. destruct fetched; reflexivity.
  - match goal with |- context [Cart.lift (Alternatives.loadShoppingList fetched) ?s0] =>
      set (s1 := s0)
    end.
    pose proof (loadShoppingList_frame fetched (Cart.page s1)) as (Hreq & Hto & _ & Hheld).
    cbv zeta in Hreq, Hto, Hheld.
    split; [reflexivity|]. split; [|split].
    + cbn [Cart.on_env Cart.calls Cart.lift Cart.page]. rewrite Hreq, drop_app_length.
      subst s1. cbn. now rewrite <- app_assoc.
    + cbn [Cart.on_env Cart.page Cart.lift Alternatives.with_env Alternatives.env
           Utils.hideLoading Utils.toasts]. rewrite Hto. reflexivity.
    + cbn [Cart.on_env Cart.page Cart.lift Alternatives.with_env Alternatives.st].
      rewrite Hheld. destruct fetched; reflexivity.
Qed.

(** ** [notifications.js]: notifications *)

Lemma unread_cons (n : Notifications.Notification) (l : list Notifications.Notification) :
  unread (n :: l) = ((if Notifications.read n then 0 else 1) + unread l)%nat.
Proof. unfold unread. simpl. destruct (Notifications.read n); reflexivity. Qed.

Lemma unread_alter_set_read (l : list Notifications.Notification) :
  forall i : nat,
    (unread (alter Notifications.set_read i l) <= unread l)%nat /\
    (unread l <= unread (alter Notifications.set_read i l) + 1)%nat.
Proof.
  induction l as [|x l IH]; intros i; [destruct i; cbv; lia|].
  destruct i as [|i]; simpl.
  - rewrite !unread_cons. simpl. destruct (Notifications.read x); lia.
  - rewrite !unread_cons.
    change (list_alter Notifications.set_read i l) with (alter Notifications.set_read i l).
    destruct (IH i). lia.
Qed.

(** What [find] returns is the first notification with the [id]. *)
Lemma list_find_first (nid : Z) (l : list Notifications.Notification) (i : nat) :
  (exists n, list_find (fun m => Notifications.id m = nid) l = Some (i, n)) <->
  first_with nid l i.
Proof.
  split.
  - intros (n & H). apply list_find_Some in H as (Hl & Hid & Hbefore).
    split; [exists n; split; assumption|].
    intros j m Hj Hm. exact (Hbefore j m Hm Hj).
  - intros ((n & Hl & Hid) & Hbefore). exists n.
    apply list_find_Some. split; [exact Hl|]. split; [exact Hid|].
    intros j m Hm Hj. exact (Hbefore j m Hj Hm).
Qed.

(** X17. A successful [markAsRead] keeps the length and the order of the
    list; the first notification with the given [id], if there is one, is
    read afterwards, and every other notification, a later one with the
    same [id] included, is what it was. The number of unread
    notifications drops by one at most and never rises. A failed call
    changes neither the list nor the page and shows no message. *)
Theorem markAsRead_marks_first :
  forall (nid : Z) (p : Notifications.Page),
    let l := Notifications.notifications p in
    let l' := Notifications.notifications (Notifications.markAsRead nid (Resolved tt) p) in
    length l' = length l /\
    (forall i n, l !! i = Some n ->
       (first_with nid l i -> l' !! i = Some (Notifications.set_read n)) /\
       (~ first_with nid l i -> l' !! i = Some n)) /\
    (unread l' <= unread l)%nat /\
    (unread l <= unread l' + 1)%nat /\
    (forall e,
       let q := Notifications.markAsRead nid (Rejected e) p in
       Notifications.notifications q = Notifications.notifications p /\
       Notifications.notificationsList q = Notifications.notificationsList p /\
       Utils.toasts (Notifications.env q) = Utils.toasts (Notifications.env p)).
Proof.
  intros nid p l l'. subst l'. unfold Notifications.markAsRead. fold l.
  destruct (list_find _ l) as [[i0 n0]|] eqn:E; cbn [Notifications.notifications
    Notifications.displayNotifications].
  - assert (Hfirst : first_with nid l i0) by (apply list_find_first; eauto).
    destruct (unread_alter_set_read l i0) as [H1 H2].
    split; [apply length_alter|]. split; [|split; [exact H1|split; [exact H2|repeat split]]].
    intros i n Hl. split.
    + intros Hi.
      assert (i = i0).
      { destruct Hfirst as [(m0 & Hm0 & Hid0) Hb0]. destruct Hi as [(m & Hm & Hid) Hb].
        destruct (Nat.lt_trichotomy i i0) as [Hlt|[Heq|Hlt]]; [|exact Heq|].
        - exfalso. exact (Hb0 i m Hlt Hm Hid).
        - exfalso. exact (Hb i0 m0 Hlt Hm0 Hid0). }
      subst i. rewrite list_lookup_alter_eq, Hl. reflexivity.
    + intros Hi.
      assert (i <> i0) by (intros ->; contradiction).
      rewrite list_lookup_alter_ne by auto. exact Hl.
  - split; [reflexivity|]. split; [|split; [lia|split; [lia|repeat split]]].
    intros i n Hl. split; [|intros _; exact Hl].
    intros Hi. apply list_find_first in Hi as (m & Hm). congruence.
Qed.

Lemma shows_held_display (p : Notifications.Page) :
  shows_held (Notifications.displayNotifications p).
Proof.
  unfold shows_held, Notifications.displayNotifications. simpl.
  destruct (Notifications.notifications p); [reflexivity|]. split; [reflexivity|discriminate].
Qed.

Lemma shows_held_op (op : Notifications.Op) (p : Notifications.Page) :
  shows_held p -> shows_held (Notifications.op_step p op).
Proof.
  intros H. destruct op as [unreadOnly [l|e]|nid [u|e]]; simpl.
  - unfold Notifications.loadNotifications, shows_held. simpl.
    destruct l; [reflexivity|]. split; [reflexivity|discriminate].
  - exact I.
  - unfold Notifications.markAsRead.
    destruct (list_find _ _) as [[i n]|]; [apply shows_held_display|exact H].
  - exact H.
Qed.

(** X18. Whatever loads and [markAsRead] calls follow one another on the
    notifications page and however they end, a list shown on the page is
    the list the component holds, and the page says there are no
    notifications only when the component holds none. *)
Theorem notifications_shown_are_held :
  forall ops : list Notifications.Op,
    shows_held (fold_left Notifications.op_step ops Notifications.page0).
Proof.
  intros ops.
  assert (H : forall p, shows_held p -> shows_held (fold_left Notifications.op_step ops p)).
  { induction ops as [|op ops IH]; intros p Hp; [exact Hp|].
    simpl. apply IH, shows_held_op, Hp. }
  apply H. exact I.
Qed.

(** With two unread notifications of the same [id], only the first is
    marked; and when the first is read already, the second stays
    unread. *)
Lemma markAsRead_marks_first_witness :
  let p := Notifications.mkPage twins (Notifications.Listed twins) Utils.env0 [] in
  let p' := Notifications.markAsRead 5 (Resolved tt) p in
  let p'' := Notifications.markAsRead 5 (Resolved tt) p' in
  first_with 5 twins 0 /\
  ~ first_with 5 twins 1 /\
  Notifications.notifications p' !! 0%nat
    = Some (Notifications.mkNotification 5 true "reminder" "First" "a") /\
  Notifications.notifications p' !! 1%nat
    = Some (Notifications.mkNotification 5 false "reminder" "Second" "b") /\
  Notifications.notifications p'' !! 1%nat
    = Some (Notifications.mkNotification 5 false "reminder" "Second" "b").
Proof.
  intros p p' p''.
  assert (H0 : first_with 5 twins 0).
  { split; [eexists; split; reflexivity|]. intros j m Hj. lia. }
  assert (H1 : ~ first_with 5 twins 1).
  { intros [_ Hb]. apply (Hb 0%nat _ ltac:(lia) eq_refl). reflexivity. }
  assert (H1' : ~ first_with 5 (Notifications.notifications p') 1).
  { intros [_ Hb]. apply (Hb 0%nat _ ltac:(lia) eq_refl). reflexivity. }
  split; [exact H0|]. split; [exact H1|].
  destruct (markAsRead_marks_first 5 p) as (_ & Hat & _).
  destruct (markAsRead_marks_first 5 p') as (_ & Hat' & _).
  split; [exact (proj1 (Hat 0%nat _ eq_refl) H0)|].
  split; [exact (proj2 (Hat 1%nat _ eq_refl) H1)|].
  exact (proj2 (Hat' 1%nat _ eq_refl) H1').
Defined.

(** ** The OCR scanner *)

Lemma validate_acceptable (file : option Helpers.File) :
  (exists b, Helpers.validateImageFile file = inr b) <->
  exists f, file = Some f /\ acceptable f.
Proof.
  unfold Helpers.validateImageFile, acceptable.
  destruct file as [f|].
  - destruct (existsb (String.eqb (Helpers.file_type f)) Helpers.ALLOWED_IMAGE_TYPES) eqn:Et; simpl.
    + apply List.existsb_exists in Et as (t & Hin & Ht).
      apply String.eqb_eq in Ht. subst t.
      unfold Helpers.MAX_FILE_SIZE.
      destruct (5 * 1024 * 1024 <? Helpers.file_size f) eqn:Es.
      * apply Z.ltb_lt in Es. split; [intros [b Hb]; discriminate|].
        intros (f' & Hf & _ & Hs). inversion Hf; subst f'. lia.
      * apply Z.ltb_ge in Es. split; [|eauto].
        intros _. exists f. split; [reflexivity|]. split; [exact Hin|lia].
    + split; [intros [b Hb]; discriminate|].
      intros (f' & Hf & Hin & _). inversion Hf; subst f'.
      assert (Hc : existsb (String.eqb (Helpers.file_type f)) Helpers.ALLOWED_IMAGE_TYPES = true).
      { apply List.existsb_exists. exists (Helpers.file_type f).
        split; [exact Hin|apply String.eqb_refl]. }
      congruence.
  - split; [intros [b Hb]; discriminate|]. intros (f & Hf & _). discriminate.
Qed.

Lemma sound_handleFileSelect (file : option Helpers.File) (p : OCR.Page) :
  scanner_sound p -> scanner_sound (OCR.handleFileSelect file p).
Proof.
  intros (Hsel & Hbtn & Hup). unfold OCR.handleFileSelect.
  destruct (Helpers.validateImageFile file) as [e|b] eqn:E.
  - split; [exact Hsel|]. split; assumption.
  - destruct (proj1 (validate_acceptable file)) as (f & -> & Hf); [eauto|].
    split; [|split; [|exact Hup]]; simpl.
    + intros f' H. inversion H; subst f'. exact Hf.
    + intros _. discriminate.
Qed.

Lemma scanProduct_calls (random : number) (settled : outcome (option OCR.ScanResult))
    (p : OCR.Page) :
  OCR.calls (OCR.scanProduct random settled p)
  = match OCR.selectedFile (OCR.st p) with
    | Some f => (OCR.calls p ++ [Calls.ExtractText f (OCR.selectedLanguage (OCR.st p))])%list
    | None => OCR.calls p
    end /\
  OCR.st (OCR.scanProduct random settled p) = OCR.st p /\
  OCR.scanBtn_disabled (OCR.dom (OCR.scanProduct random settled p))
  = OCR.scanBtn_disabled (OCR.dom p).
Proof.
  unfold OCR.scanProduct.
  destruct (OCR.selectedFile (OCR.st p)) as [f|]; [|repeat split].
  destruct settled as [[result|]|e]; [|repeat split..].
  destruct (truthy (OCR.success result)); destruct (OCR.data result);
    simpl; repeat split.
Qed.

Lemma sound_op (op : OCR.Op) (p : OCR.Page) : scanner_sound p -> scanner_sound (OCR.op_step p op).
Proof.
  intros H. destruct op as [file|value|random settled|]; simpl.
  - apply sound_handleFileSelect, H.
  - destruct H as (Hsel & Hbtn & Hup). split; [exact Hsel|]. split; assumption.
  - destruct (OCR.scanBtn_disabled (OCR.dom p)) eqn:Eb; [exact H|].
    destruct H as (Hsel & Hbtn & Hup).
    destruct (scanProduct_calls random settled p) as (Hc & Hs & Hd).
    unfold scanner_sound. rewrite Hc, Hs, Hd.
    split; [exact Hsel|]. split; [exact Hbtn|].
    destruct (OCR.selectedFile (OCR.st p)) as [f|] eqn:Ef; [|exact Hup].
    apply Forall_app_2; [exact Hup|]. constructor; [|constructor].
    apply Hsel. reflexivity.
  - destruct H as (Hsel & Hbtn & Hup). split; [exact Hsel|]. split; [|exact Hup].
    simpl. discriminate.
Qed.

(** X19. Whatever files are chosen or dropped, whatever languages are
    selected, however often the scan button is clicked and the page is
    rendered anew, the file selected is one of type JPEG, PNG or WebP of
    at most 5 MB, the scan button is enabled only while a file is
    selected, and no other kind of file is ever uploaded. *)
Theorem scanner_uploads_only_validated :
  forall ops : list OCR.Op, scanner_sound (fold_left OCR.op_step ops OCR.page0).
Proof.
  intros ops.
  assert (H : forall p, scanner_sound p -> scanner_sound (fold_left OCR.op_step ops p)).
  { induction ops as [|op ops IH]; intros p Hp; [exact Hp|].
    simpl. apply IH, sound_op, Hp. }
  apply H. split; [intros f Hf; discriminate|]. split; [intros Hd; discriminate|constructor].
Qed.

(** X20. A file that [validateImageFile] turns away is reported with the
    reason in an error toast and changes nothing else: the file selected
    before stays selected and the scan button stays as it was, so that a
    following scan uploads the earlier file. *)
Theorem rejected_file_keeps_selection :
  forall (file : option Helpers.File) (e : JsError) (p : OCR.Page)
         (random : number) (settled : outcome (option OCR.ScanResult)),
    Helpers.validateImageFile file = inl e ->
    let p' := OCR.handleFileSelect file p in
    OCR.st p' = OCR.st p /\
    OCR.dom p' = OCR.dom p /\
    Utils.last_toast (OCR.env p') = Some (error_toast (message e)) /\
    OCR.calls (OCR.scanProduct random settled p')
    = OCR.calls (OCR.scanProduct random settled p).
Proof.
  intros file e p random settled H p'. subst p'.
  unfold OCR.handleFileSelect. rewrite H.
  split; [reflexivity|]. split; [reflexivity|]. split.
  - unfold Utils.last_toast. simpl. now rewrite last_toast_snoc.
  - rewrite !(proj1 (scanProduct_calls random settled _)). reflexivity.
Qed.

(** A photograph is selected, then a PDF is dropped, then the scan button
    is clicked. *)
Lemma rejected_file_keeps_selection_witness :
  let p1 := OCR.handleFileSelect (Some photo) OCR.page0 in
  let p2 := OCR.handleFileSelect (Some pdf) p1 in
  Utils.last_toast (OCR.env p2)
    = Some (error_toast "Invalid file type. Please upload a JPEG, PNG, or WebP image.") /\
  OCR.calls (OCR.scanProduct (Fin 0) (Rejected network_error) p2)
    = [Calls.ExtractText photo None].
Proof.
  intros p1 p2.
  destruct (rejected_file_keeps_selection (Some pdf) _ p1 (Fin 0) (Rejected network_error) eq_refl)
    as (_ & _ & Ht & Hc).
  fold p2 in Ht, Hc. split; [exact Ht|]. rewrite Hc. reflexivity.
Defined.

(** A double, when it is positive, is what [nearest] gives for it. *)
Lemma is_double_nearest (r : Q) : is_double r -> (0 < r)%Q -> (nearest r == r)%Q.
Proof.
  unfold is_double, Number_value. intros H Hr.
  assert (C : (r ?= 0)%Q = Gt) by (apply (proj1 (Qgt_alt _ _)); exact Hr).
  rewrite C in H.
  destruct (Qle_bool (pow2 1024) (nearest r)); [discriminate|].
  inversion H as [E].
  rewrite <- (Qred_correct (nearest r)), E. apply Qred_correct.
Qed.

(** Forty times a double from [0, 1) is a number from 0 to less than 40. *)
Lemma mul40_within (r : Q) :
  is_double r -> (0 <= r)%Q -> (r < 1)%Q ->
  exists v, mul (Fin r) (Fin 40) = Fin v /\ (0 <= v)%Q /\ (v < 40)%Q.
Proof.
  intros Hd H0 H1. unfold mul, shape_of.
  change (Qeqb0 40) with false.
  destruct (Qeqb0 r) eqn:E.
  - exists 0%Q. split; [reflexivity|]. split; [lra|reflexivity].
  - assert (Hpos : (0 < r)%Q).
    { destruct (Qlt_le_dec 0 r) as [H|H]; [exact H|exfalso].
      assert (Hz : (r == 0)%Q) by lra.
      rewrite (Qeqb0_comp r 0 Hz) in E. discriminate. }
    pose proof (double_below_one r Hpos H1 (is_double_nearest r Hd Hpos)) as Hgap.
    set (b := ((1 - pow2 (-53)) * 40)%Q).
    assert (Hb : (nearest b < 40)%Q /\ (nearest b < pow2 1024)%Q /\ (0 < b)%Q)
      by (split; [|split]; vm_compute; reflexivity).
    destruct Hb as (Hb40 & Hbfin & Hbpos).
    destruct (Number_value_upto (r * 40) b) as (v & Hv & Hv0 & Hv1);
      [lra|subst b; lra|exact Hbpos|exact Hbfin|].
    exists v. split; [exact Hv|]. split; [exact Hv0|]. lra.
Qed.

(** The arithmetic of the score on the whole numbers from 0 to 39. *)
Lemma score_of_floor (f : Z) :
  0 <= f <= 39 ->
  add (Fin (inject_Z f)) (Fin 20) = Fin (inject_Z (f + 20)) /\
  Helpers.getScoreClass (VNum (sub (Fin 100) (Fin (inject_Z (f + 20)))))
  = (if f + 20 =? 20 then "score-safe"
     else if f + 20 <=? 50 then "score-warning" else "score-danger").
Proof.
  intros Hf.
  assert (H : exists n : nat, f = Z.of_nat n /\ (n < 40)%nat)
    by (exists (Z.to_nat f); lia).
  destruct H as (n & -> & Hn).
  do 40 (destruct n as [|n]; [vm_compute; split; reflexivity|]).
  exfalso. lia.
Qed.

(** X21. Whatever double in [0, 1) [Math.random] returns, the toxicity
    score shown by the scanner is a whole number from 20 to 59, and its
    badge is the safe one only for 20, the warning one from 21 to 50 and
    the danger one from 51 on. *)
Theorem toxicity_score_range :
  forall (r : Q) (d : OCR.Data) (p : OCR.Page),
    is_double r -> (0 <= r)%Q -> (r < 1)%Q ->
    let p' := OCR.displayResults (Fin r) d p in
    exists t : Z,
      OCR.calculateToxicityScore (Fin r) = Fin (inject_Z t) /\
      20 <= t <= 59 /\
      OCR.toxicityScore_text (OCR.dom p') = VNum (Fin (inject_Z t)) /\
      OCR.toxicityScore_class (OCR.dom p')
      = "score-badge " ++
        (if t =? 20 then "score-safe" else if t <=? 50 then "score-warning" else "score-danger").
Proof.
  intros r d p Hd H0 H1 p'. subst p'.
  destruct (mul40_within r Hd H0 H1) as (v & Hv & Hv0 & Hv40).
  set (f := Qfloor v).
  assert (Hf : 0 <= f <= 39).
  { subst f. split.
    - change 0 with (Qfloor 0). apply Qfloor_resp_le. exact Hv0.
    - assert (H : Qfloor v < 40); [|lia].
      apply Z.lt_nge. intros Hc.
      pose proof (Qfloor_le v) as Hle.
      assert (H40 : (inject_Z 40 <= inject_Z (Qfloor v))%Q) by (rewrite <- Zle_Qle; exact Hc).
      change (inject_Z 40) with 40%Q in H40. lra. }
  destruct (score_of_floor f Hf) as [Hadd Hclass].
  assert (Ht : OCR.calculateToxicityScore (Fin r) = Fin (inject_Z (f + 20))).
  { unfold OCR.calculateToxicityScore. rewrite Hv. cbn [Math_floor]. exact Hadd. }
  exists (f + 20). split; [exact Ht|]. split; [lia|].
  unfold OCR.displayResults. cbn [OCR.dom OCR.toxicityScore_text OCR.toxicityScore_class].
  rewrite Ht. split; [reflexivity|]. now rewrite Hclass.
Qed.

(** The draw 0.44999999999999996: forty times it is the double 18, and
    the score is 38. *)
Lemma toxicity_score_range_witness :
  is_double double_0_45_below /\
  (0 <= double_0_45_below)%Q /\ (double_0_45_below < 1)%Q /\
  OCR.calculateToxicityScore (Fin double_0_45_below) = Fin 38 /\
  Number_toString (Fin double_0_45_below) = "0.44999999999999996".
Proof.
  assert (Hd : is_double double_0_45_below) by (vm_compute; reflexivity).
  assert (H0 : (0 <= double_0_45_below)%Q) by discriminate.
  assert (H1 : (double_0_45_below < 1)%Q) by reflexivity.
  split; [exact Hd|]. split; [exact H0|]. split; [exact H1|].
  destruct (toxicity_score_range double_0_45_below
              {| OCR.raw_text := VUndefined; OCR.confidence := VUndefined |} OCR.page0 Hd H0 H1)
    as (t & Ht & _).
  split; [|vm_compute; reflexivity].
  rewrite Ht. f_equal.
  assert (E : OCR.calculateToxicityScore (Fin double_0_45_below) = Fin 38)
    by (vm_compute; reflexivity).
  rewrite E in Ht. inversion Ht as [Hq]. reflexivity.
Defined.
